(** * mamabear: the reconciliation worker ([mamabear/worker.py])

    A shallow embedding of [Worker] and of what it does to the persisted
    entity graph, followed by the properties of the State Reconciler, the
    Health Prober and the Fleet Sync Orchestrator.

    The worker talks to three external collaborators: the Docker hosts and
    the registry (through [DockerWrapper]), the HTTP health endpoints
    (through [requests]) and the database (through a SQLAlchemy session).
    The first two are an environment [Env] whose answers may be exceptions;
    the third is an explicit store with a committed and a working copy. *)

From Stdlib Require Import ZArith DecimalString.
From stdpp Require Import base option strings list gmap fin_maps.

Local Open Scope string_scope.
Local Open Scope Z_scope.

(** ** Exceptions and results *)

Record PyExn := { exn_class : string; exn_message : string }.

Inductive Result (A : Type) : Type :=
| Return (a : A)
| Raise (e : PyExn).
Arguments Return {A} a.
Arguments Raise {A} e.

(** ** Entities

    [mamabear.model] declares the mapped classes; the worker reads and
    writes the attributes below. *)

(** A host is identified by its hostname and port. *)
Definition HostKey : Type := string * Z.

(** Naive local wall-clock time, as stored in the DATETIME columns. *)
Definition datetime : Type := Z.

Record Host := {
  h_hostname : string;
  h_port : Z;
  h_alias : string;
  h_status : string
}.

Definition host_key (h : Host) : HostKey := (h_hostname h, h_port h).

Record Image := {
  i_id : string;
  i_tag : string
}.

Record Container := {
  c_id : string;
  c_image_ref : string;
  c_state : string;
  c_status : option string;
  c_started_at : datetime;
  c_finished_at : datetime;
  c_command : option string;
  c_image : option string;   (* container.image, by Image id *)
  c_host : HostKey           (* container.host *)
}.

(** A deployment is identified by (app_name, image_tag, environment). *)
Definition DeploymentKey : Type := string * string * string.

Record Deployment := {
  d_app_name : string;
  d_image_tag : string;
  d_environment : string;
  d_status_port : Z;
  d_status_endpoint : string;
  d_hosts : list HostKey
}.

Definition deployment_key (d : Deployment) : DeploymentKey :=
  (d_app_name d, d_image_tag d, d_environment d).

Record App := {
  a_name : string;
  a_images : list string       (* app.images, by Image id, in append order *)
}.

(** One descriptor of a host snapshot: the dict [info] of
    [update_host_containers]. The key 'command' may be absent. *)
Record Info := {
  info_id : string;
  info_state : string;
  info_image_id : string;
  info_image_ref : string;
  info_started_at : string;
  info_finished_at : string;
  info_command : option string
}.

(** One entry of the registry's image list: the dict [image_info] of
    [update_app_images]. *)
Record ImageInfo := {
  ii_layer : string;
  ii_name : string
}.

(** ** The persisted entity graph *)

Record Store := {
  containers : gmap string Container;
  images : gmap string Image;
  hosts : list Host;
  apps : list App;
  deployments : list Deployment;
  (* deployment.containers, by Container id, in append order *)
  deployment_containers : gmap DeploymentKey (list string)
}.

(** Modelled from the spec: the Persistence Gateway, a transactional unit of
    work over the entity graph (the SQLAlchemy session of [get_session],
    autoflush on, autocommit off). [database] is what is committed,
    [session] is what the objects of the running unit of work look like;
    queries read [session], [commit] publishes it and [rollback] discards
    it. *)
Record DB := {
  database : Store;
  session : Store
}.

Definition commit (db : DB) : DB :=
  {| database := session db; session := session db |}.

Definition rollback (db : DB) : DB :=
  {| database := database db; session := database db |}.

Definition with_session (f : Store → Store) (db : DB) : DB :=
  {| database := database db; session := f (session db) |}.

(** Field updates of the store. *)
Definition set_containers (f : gmap string Container → gmap string Container)
    (s : Store) : Store :=
  {| containers := f (containers s); images := images s; hosts := hosts s;
     apps := apps s; deployments := deployments s;
     deployment_containers := deployment_containers s |}.

Definition set_images (f : gmap string Image → gmap string Image)
    (s : Store) : Store :=
  {| containers := containers s; images := f (images s); hosts := hosts s;
     apps := apps s; deployments := deployments s;
     deployment_containers := deployment_containers s |}.

Definition set_hosts (f : list Host → list Host) (s : Store) : Store :=
  {| containers := containers s; images := images s; hosts := f (hosts s);
     apps := apps s; deployments := deployments s;
     deployment_containers := deployment_containers s |}.

Definition set_apps (f : list App → list App) (s : Store) : Store :=
  {| containers := containers s; images := images s; hosts := hosts s;
     apps := f (apps s); deployments := deployments s;
     deployment_containers := deployment_containers s |}.

Definition set_deployment_containers
    (f : gmap DeploymentKey (list string) → gmap DeploymentKey (list string))
    (s : Store) : Store :=
  {| containers := containers s; images := images s; hosts := hosts s;
     apps := apps s; deployments := deployments s;
     deployment_containers := f (deployment_containers s) |}.

(** [db.delete(container)]: the row goes, and with it its links. *)
Definition db_delete (c_id : string) (s : Store) : Store :=
  set_deployment_containers (fmap (filter (λ i, i ≠ c_id)))
    (set_containers (delete c_id) s).

(** [Container.get(db, id)] and [Image.get(db, id)]: query by primary key. *)
Definition Container_get (db : DB) (id : string) : option Container :=
  containers (session db) !! id.

Definition Image_get (db : DB) (id : string) : option Image :=
  images (session db) !! id.

(** [Container.get_by_ref(db, image_ref)]. *)
Definition Container_get_by_ref (db : DB) (ref : string) : list Container :=
  filter (λ c, c_image_ref c = ref) (map snd (map_to_list (containers (session db)))).

(** [host.containers]: the containers owned by the host. *)
Definition host_containers (db : DB) (host : HostKey) : gmap string Container :=
  filter (λ kc, c_host kc.2 = host) (containers (session db)).

(** ** The environment *)

Record Response := { status_code : Z }.

(** [requests.Response.ok]: no 4xx or 5xx status. *)
Definition ok (r : Response) : bool :=
  negb ((400 <=? status_code r) && (status_code r <? 600)).

(** What the worker cannot decide itself. Answers that come from the outside
    world take the number of events so far as their first argument, so that
    two calls with the same arguments may be answered differently.

    The [DockerWrapper] that the worker calls (a constructor with hostname,
    port and config, [state_of_the_universe], [list_images]) is not the
    class of docker_wrapper.py, which has none of them; what it answers is
    part of the environment, and so is whether it can be built at all. *)
Record Env := {
  (* config.get('registry', 'user') *)
  registry_user : string;
  (* parser.parse(s).astimezone(tz.tzlocal()).replace(tzinfo=None) *)
  parse_local : string → Result datetime;
  (* DockerWrapper.list_images(registry_url, app_name, user, password) *)
  list_images : nat → string → Result (list ImageInfo);
  (* wrapper = DockerWrapper(hostname, port, config) *)
  docker_wrapper : nat → HostKey → Result unit;
  (* wrapper.state_of_the_universe() *)
  state_of_the_universe : nat → HostKey → Result (list Info);
  (* requests.get(url, timeout=timeout) *)
  requests_get : nat → string → Z → Result Response
}.

(** ** A state and exception monad *)

Definition M (S A : Type) : Type := S → Result A * S.

Definition ret {S A} (a : A) : M S A := λ s, (Return a, s).

Definition raise {S A} (e : PyExn) : M S A := λ s, (Raise e, s).

Definition bind {S A B} (m : M S A) (k : A → M S B) : M S B :=
  λ s, match m s with
       | (Return a, s') => k a s'
       | (Raise e, s') => (Raise e, s')
       end.

(** [try: body except Exception as e: handler e]. *)
Definition try_except {S A} (body : M S A) (handler : PyExn → M S A) : M S A :=
  λ s, match body s with
       | (Return a, s') => (Return a, s')
       | (Raise e, s') => handler e s'
       end.

Definition gets {S A} (f : S → A) : M S A := λ s, (Return (f s), s).

Definition modify {S} (f : S → S) : M S unit := λ s, (Return tt, f s).

(** An answer of the outside world, returned or raised. *)
Definition answer {S A} (r : Result A) : M S A := λ s, (r, s).

(** The monad operations behind stdpp's [x ← m; k] and [m ;; k]. *)
#[global] Instance M_ret {S} : MRet (M S) := λ A a, ret a.
#[global] Instance M_bind {S} : MBind (M S) := λ A B k m, bind m k.

(** [for x in l: body x]. *)
Fixpoint for_each {S A} (l : list A) (body : A → M S unit) : M S unit :=
  match l with
  | [] => ret tt
  | x :: l' => body x ;; for_each l' body
  end.

(** ** State Reconciler: [update_host_containers] *)

Definition set_host_status (host : HostKey) (st : string) (s : Store) : Store :=
  set_hosts (map (λ h, if decide (host_key h = host)
                       then {| h_hostname := h_hostname h; h_port := h_port h;
                               h_alias := h_alias h; h_status := st |}
                       else h)) s.

Definition set_state_finished (st : string) (fin : datetime) (c : Container)
    : Container :=
  {| c_id := c_id c; c_image_ref := c_image_ref c; c_state := st;
     c_status := c_status c; c_started_at := c_started_at c;
     c_finished_at := fin; c_command := c_command c; c_image := c_image c;
     c_host := c_host c |}.

(** The body of the loop over the snapshot (worker.py, lines 164-187). *)
Definition reconcile_info (env : Env) (host : HostKey) (info : Info) : M DB unit :=
  container ← gets (λ db : DB, Container_get db (info_id info));
  match container with
  | Some c =>
      fin ← answer (parse_local env (info_finished_at info));
      modify (with_session (set_containers
        (insert (info_id info) (set_state_finished (info_state info) fin c))))
  | None =>
      let image_layer := String.substring 0 8 (info_image_id info) in
      image ← gets (λ db, Image_get db image_layer);
      started ← answer (parse_local env (info_started_at info));
      fin ← answer (parse_local env (info_finished_at info));
      modify (with_session (set_containers
        (insert (info_id info)
           {| c_id := info_id info;
              c_image_ref := info_image_ref info;
              c_state := info_state info;
              c_status := None;
              c_started_at := started;
              c_finished_at := fin;
              c_command := info_command info;
              c_image := i_id <$> image;
              c_host := host |})))
  end.

(** The loop over the snapshot; it returns [new_host_containers]. *)
Fixpoint reconcile_loop (env : Env) (host : HostKey) (infos : list Info)
    (new_host_containers : gset string) : M DB (gset string) :=
  match infos with
  | [] => ret new_host_containers
  | info :: rest =>
      reconcile_info env host info ;;
      reconcile_loop env host rest ({[info_id info]} ∪ new_host_containers)
  end.

(** The loop over [previous_host_containers] (lines 189-193). *)
Definition delete_missing (previous : list string) (new_host_containers : gset string)
    (s : Store) : Store :=
  foldr (λ c_id s, if decide (c_id ∈ new_host_containers) then s
                   else db_delete c_id s)
        s previous.

(** What the Docker host answers to one call of [update_host_containers].
    [wrapper = DockerWrapper(host.hostname, host.port, config)] (line 149)
    stands before the try: when it raises, the exception is [WrapperError].
    When it returns, [wrapper.state_of_the_universe()] (line 157, inside the
    try) returns a snapshot or raises: [Wrapper snapshot]. *)
Inductive HostAnswer :=
| WrapperError (e : PyExn)
| Wrapper (snapshot : Result (list Info)).

(** [update_host_containers(db, host, config)]. What the host answers is
    the argument [host_answer]. *)
Definition update_host_containers (env : Env) (host_answer : HostAnswer)
    (host : HostKey) : M DB unit :=
  match host_answer with
  | WrapperError e => raise e
  | Wrapper snapshot =>
      previous_host_containers ← gets (λ db, host_containers db host);
      host_container_info ←
        try_except (answer snapshot)
          (λ e, modify (with_session (set_host_status host "down")) ;; ret []);
      new_host_containers ← reconcile_loop env host host_container_info ∅;
      modify (with_session
        (delete_missing (map fst (map_to_list previous_host_containers))
                        new_host_containers)) ;;
      modify commit
  end.

(** ** Events and the world

    The trace records, in order, the calls the worker makes to the outside
    world and the entries into its own methods. *)

Inductive Method :=
| m_update_app_images (app_name : string)
| m_update_deployment (deployment : DeploymentKey)
| m_update_host_containers (host : HostKey)
| m_update_all_containers.

Inductive Event :=
| EvCall (m : Method)
| EvListImages (app_name : string)
| EvStateOfTheUniverse (host : HostKey)
| EvGet (url : string) (timeout : Z)
| EvSleep (seconds : Z).

Record World := {
  db : DB;
  trace : list Event
}.

Definition on_db {A} (m : M DB A) : M World A :=
  λ w, let '(r, db') := m (db w) in (r, {| db := db'; trace := trace w |}).

Definition emit (e : Event) : M World unit :=
  modify (λ w, {| db := db w; trace := trace w ++ [e] |}).

Definition now : M World nat := gets (λ w, length (trace w)).

(** [update_host_containers] inside a pass: the wrapper and the snapshot
    are the answers of the host at that moment; the host is asked for its
    snapshot only when the wrapper could be built. *)
Definition run_update_host_containers (env : Env) (host : HostKey) : M World unit :=
  emit (EvCall (m_update_host_containers host)) ;;
  t ← now;
  match docker_wrapper env t host with
  | Raise e => on_db (update_host_containers env (WrapperError e) host)
  | Return _ =>
      emit (EvStateOfTheUniverse host) ;;
      on_db (update_host_containers env
               (Wrapper (state_of_the_universe env t host)) host)
  end.

(** ** Health Prober *)

(** The iterations of [for attempt in range(1, retry+1)] that remain, and the
    [else] branch of the loop. *)
Fixpoint check_app_status_loop (env : Env) (url : string) (timeout : Z)
    (attempts : nat) (last_exception : option PyExn) : M World string :=
  match attempts with
  | O =>
      match last_exception with
      | Some e => raise e
      | None => raise {| exn_class := "TypeError";
                         exn_message := "exceptions must derive from BaseException" |}
      end
  | S attempts' =>
      t ← now;
      emit (EvGet url timeout) ;;
      match requests_get env t url timeout with
      | Return r => if ok r then ret "up" else ret "down"
      | Raise e =>
          emit (EvSleep 5) ;;
          check_app_status_loop env url timeout attempts' (Some e)
      end
  end.

(** [_check_app_status(url, timeout=10, retry=3)]. *)
Definition _check_app_status (env : Env) (url : string) (timeout retry : Z)
    : M World string :=
  check_app_status_loop env url timeout (Z.to_nat retry) None.

(** ["%s" % n] for an integer. *)
Definition str_of_Z (n : Z) : string := NilZero.string_of_int (Z.to_int n).

(** ["http://%s:%s/%s" % (container.host.hostname, deployment.status_port,
    deployment.status_endpoint)]. *)
Definition status_url (container : Container) (deployment : Deployment) : string :=
  "http://" +:+ fst (c_host container) +:+ ":" +:+ str_of_Z (d_status_port deployment)
    +:+ "/" +:+ d_status_endpoint deployment.

Definition set_status (st : string) (c : Container) : Container :=
  {| c_id := c_id c; c_image_ref := c_image_ref c; c_state := c_state c;
     c_status := Some st; c_started_at := c_started_at c;
     c_finished_at := c_finished_at c; c_command := c_command c;
     c_image := c_image c; c_host := c_host c |}.

Definition assign_status (c_id : string) (st : string) : M World unit :=
  on_db (modify (with_session (set_containers (alter (set_status st) c_id)))).

(** [deployment.containers], read from the session. *)
Definition containers_of_deployment (w : World) (deployment : Deployment)
    : list string :=
  default [] (deployment_containers (session (db w)) !! deployment_key deployment).

(** The body of the loop of [update_deployment_status]. *)
Definition update_container_status (env : Env) (deployment : Deployment)
    (c_id : string) : M World unit :=
  container ← gets (λ w : World, Container_get (db w) c_id);
  match container with
  | None => ret tt
  | Some c =>
      if decide (c_state c = "running") then
        try_except
          (status ← _check_app_status env (status_url c deployment) 10 3;
           assign_status c_id status)
          (λ e, assign_status c_id "down")
      else assign_status c_id "down"
  end.

(** [update_deployment_status(db, deployment)]. *)
Definition update_deployment_status (env : Env) (deployment : Deployment)
    : M World unit :=
  cs ← gets (λ w, containers_of_deployment w deployment);
  for_each cs (update_container_status env deployment) ;;
  on_db (modify commit).

(** ** Image Synchronizer and deployment containers *)

(** [image_ref(app_name, image_tag)]: ["%s/%s:%s"]. *)
Definition image_ref (env : Env) (app_name image_tag : string) : string :=
  registry_user env +:+ "/" +:+ app_name +:+ ":" +:+ image_tag.

(** [containers_for_app_image(db, app_name, image_tag)]. *)
Definition containers_for_app_image (env : Env) (d : DB) (app_name image_tag : string)
    : list Container :=
  Container_get_by_ref d (image_ref env app_name image_tag).

Definition set_image (layer : string) (c : Container) : Container :=
  {| c_id := c_id c; c_image_ref := c_image_ref c; c_state := c_state c;
     c_status := c_status c; c_started_at := c_started_at c;
     c_finished_at := c_finished_at c; c_command := c_command c;
     c_image := Some layer; c_host := c_host c |}.

Definition append_app_image (app_name layer : string) (s : Store) : Store :=
  set_apps (map (λ a, if decide (a_name a = app_name)
                      then {| a_name := a_name a; a_images := (a_images a ++ [layer])%list |}
                      else a)) s.

(** The body of the loop of [update_app_images]. *)
Definition update_app_image (env : Env) (app_name : string) (image_info : ImageInfo)
    : M DB unit :=
  image ← gets (λ d : DB, Image_get d (ii_layer image_info));
  let image :=
    match image with
    | Some i => {| i_id := i_id i; i_tag := ii_name image_info |}
    | None => {| i_id := ii_layer image_info; i_tag := ii_name image_info |}
    end in
  cs ← gets (λ d : DB, containers_for_app_image env d app_name (i_tag image));
  for_each cs (λ c,
    modify (with_session (set_containers (alter (set_image (i_id image)) (c_id c))))) ;;
  modify (with_session (append_app_image app_name (i_id image))) ;;
  modify (with_session (set_images (insert (ii_layer image_info) image))).

(** [update_app_images(db, app)]. *)
Definition update_app_images (env : Env) (app_name : string) : M World unit :=
  emit (EvCall (m_update_app_images app_name)) ;;
  t ← now;
  emit (EvListImages app_name) ;;
  images ← answer (list_images env t app_name);
  on_db (for_each images (update_app_image env app_name)) ;;
  on_db (modify commit).

Definition link_deployment_container (deployment : Deployment) (c_id : string)
    (s : Store) : Store :=
  set_deployment_containers
    (λ m, <[deployment_key deployment :=
              (default [] (m !! deployment_key deployment) ++ [c_id])%list]> m) s.

(** [update_deployment_containers(db, deployment, config)]. *)
Definition update_deployment_containers (env : Env) (deployment : Deployment)
    : M World unit :=
  for_each (d_hosts deployment) (run_update_host_containers env) ;;
  cs ← gets (λ w : World, containers_for_app_image env (db w)
                            (d_app_name deployment) (d_image_tag deployment));
  on_db (for_each cs (λ c,
    modify (with_session (link_deployment_container deployment (c_id c))))) ;;
  on_db (modify commit).

(** [update_deployment(db, deployment)]. *)
Definition update_deployment (env : Env) (deployment : Deployment) : M World unit :=
  emit (EvCall (m_update_deployment (deployment_key deployment))) ;;
  update_deployment_containers env deployment ;;
  update_deployment_status env deployment.

(** ** Fleet Sync Orchestrator *)

(** [update_all_containers(db, config)]. *)
Definition update_all_containers (env : Env) : M World unit :=
  emit (EvCall m_update_all_containers) ;;
  all_hosts ← gets (λ w : World, hosts (session (db w)));
  for_each (map host_key all_hosts) (run_update_host_containers env).

(** [get_session(get_engine(config))]: a fresh session on the database. *)
Definition get_session (d : DB) : DB :=
  {| database := database d; session := database d |}.

(** [app.deployments]. *)
Definition app_deployments (w : World) (app_name : string) : list Deployment :=
  filter (λ d, d_app_name d = app_name) (deployments (session (db w))).

(** [try: body except Exception as e: logging.error(e); db.rollback()]. *)
Definition isolated (body : M World unit) : M World unit :=
  try_except body (λ e, on_db (modify rollback)).

(** [update_all()]. *)
Definition update_all (env : Env) : M World unit :=
  try_except
    (on_db (modify get_session) ;;
     all_apps ← gets (λ w : World, map a_name (apps (session (db w))));
     for_each all_apps (λ app_name,
       isolated (update_app_images env app_name) ;;
       ds ← gets (λ w, app_deployments w app_name);
       for_each ds (λ deployment, isolated (update_deployment env deployment))) ;;
     isolated (update_all_containers env))
    (λ e, ret tt).

(** ** Observations on traces *)

(** The calls that start a unit of [update_all]. *)
Definition unit_calls (tr : list Event) : list Method :=
  omap (λ e, match e with
             | EvCall (m_update_host_containers _) => None
             | EvCall m => Some m
             | _ => None
             end) tr.

(** The hosts whose reconciliation was started. *)
Definition reconciled_hosts (tr : list Event) : list HostKey :=
  omap (λ e, match e with
             | EvCall (m_update_host_containers h) => Some h
             | _ => None
             end) tr.

(** The URLs requested. *)
Definition requested_urls (tr : list Event) : list string :=
  omap (λ e, match e with EvGet url _ => Some url | _ => None end) tr.

(** The seconds spent in [time.sleep]. *)
Definition slept (tr : list Event) : Z :=
  foldr (λ e acc, match e with EvSleep s => s + acc | _ => acc end) 0 tr.

(** The longest the recorded requests and sleeps can take together: every
    request may use up its whole timeout. *)
Definition longest_wait (tr : list Event) : Z :=
  foldr (λ e acc, match e with
                  | EvGet _ timeout => timeout + acc
                  | EvSleep s => s + acc
                  | _ => acc
                  end) 0 tr.

(** ** Definitions used in the statements and proofs *)

(** [new_host_containers] after the loop over [infos]. *)
Definition snapshot_ids (infos : list Info) (new : gset string) : gset string :=
  foldl (λ acc info, {[info_id info]} ∪ acc) new infos.

(** The converted finished_at of a descriptor. *)
Definition finished_of (env : Env) (info : Info) : datetime :=
  match parse_local env (info_finished_at info) with
  | Return fin => fin
  | Raise _ => 0
  end.

(** The last descriptor of the snapshot with the given id. *)
Fixpoint last_for (id : string) (infos : list Info) : option Info :=
  match infos with
  | [] => None
  | info :: rest =>
      match last_for id rest with
      | Some i => Some i
      | None => if decide (info_id info = id) then Some info else None
      end
  end.

(** Every row rewritten by the last descriptor with its id. *)
Definition apply_last (env : Env) (infos : list Info) (m : gmap string Container)
    : gmap string Container :=
  map_imap (λ k c, Some match last_for k infos with
                        | Some info => set_state_finished (info_state info) (finished_of env info) c
                        | None => c
                        end) m.

(** ** A small fleet, for the concrete cases *)

(** A worker whose local zone lies west of UTC: the zero date that Docker
    reports for a container that has not finished is out of range there. *)
Definition sample_parse_local (s : string) : Result datetime :=
  if decide (s = "2015-06-01T10:00:00Z") then Return 1433152800
  else if decide (s = "2015-06-01T11:30:00Z") then Return 1433158200
  else if decide (s = "2015-06-02T09:00:00Z") then Return 1433235600
  else if decide (s = "0001-01-01T00:00:00Z") then
    Raise {| exn_class := "OverflowError"; exn_message := "date value out of range" |}
  else Raise {| exn_class := "ValueError"; exn_message := "Unknown string format" |}.

Definition connection_error : PyExn :=
  {| exn_class := "ConnectionError"; exn_message := "Connection refused" |}.

Definition timeout_error : PyExn :=
  {| exn_class := "Timeout"; exn_message := "Read timed out." |}.

Definition h1 : HostKey := ("h1", 2376).
Definition h2 : HostKey := ("h2", 2376).

Definition c0 : Container :=
  {| c_id := "c0"; c_image_ref := "acme/web:v1"; c_state := "running";
     c_status := Some "up"; c_started_at := 1433152800; c_finished_at := 1433152800;
     c_command := Some "serve"; c_image := Some "0123abcd"; c_host := h1 |}.

Definition c8 : Container :=
  {| c_id := "c8"; c_image_ref := "acme/api:v7"; c_state := "exited";
     c_status := Some "down"; c_started_at := 1433152800; c_finished_at := 1433158200;
     c_command := None; c_image := None; c_host := h1 |}.

Definition c9 : Container :=
  {| c_id := "c9"; c_image_ref := "acme/web:v1"; c_state := "exited";
     c_status := Some "down"; c_started_at := 1433152800; c_finished_at := 1433158200;
     c_command := None; c_image := None; c_host := h2 |}.

Definition web_prod : Deployment :=
  {| d_app_name := "web"; d_image_tag := "v1"; d_environment := "prod";
     d_status_port := 8080; d_status_endpoint := "health"; d_hosts := [h1] |}.

Definition sample_store : Store :=
  {| containers := {[ "c0" := c0; "c8" := c8; "c9" := c9 ]};
     images := {[ "0123abcd" := {| i_id := "0123abcd"; i_tag := "v1" |} ]};
     hosts := [ {| h_hostname := "h1"; h_port := 2376; h_alias := "one"; h_status := "up" |};
                {| h_hostname := "h2"; h_port := 2376; h_alias := "two"; h_status := "up" |} ];
     apps := [ {| a_name := "web"; a_images := ["0123abcd"] |};
               {| a_name := "api"; a_images := [] |} ];
     deployments := [web_prod];
     deployment_containers := {[ deployment_key web_prod := ["c0"; "c9"] ]} |}.

Definition sample_db : DB := {| database := sample_store; session := sample_store |}.

Definition sample_world : World := {| db := sample_db; trace := [] |}.

(** Descriptors: [c0] again, restarted later; two containers not seen
    before, one of a known image and one of an unknown image; and a running
    container with Docker's zero finished_at. *)
Definition info_c0 : Info :=
  {| info_id := "c0"; info_state := "exited"; info_image_id := "0123abcd9999";
     info_image_ref := "acme/web:v2"; info_started_at := "2015-06-01T11:30:00Z";
     info_finished_at := "2015-06-02T09:00:00Z"; info_command := Some "serve --again" |}.

Definition info_c1 : Info :=
  {| info_id := "c1"; info_state := "running"; info_image_id := "0123abcd4567ef";
     info_image_ref := "acme/web:v1"; info_started_at := "2015-06-01T10:00:00Z";
     info_finished_at := "2015-06-01T11:30:00Z"; info_command := Some "serve" |}.

Definition info_c2 : Info :=
  {| info_id := "c2"; info_state := "exited"; info_image_id := "ffff0000aaaa";
     info_image_ref := "acme/api:v7"; info_started_at := "2015-06-01T10:00:00Z";
     info_finished_at := "2015-06-01T11:30:00Z"; info_command := None |}.

Definition info_running : Info :=
  {| info_id := "c3"; info_state := "running"; info_image_id := "0123abcd4567ef";
     info_image_ref := "acme/web:v1"; info_started_at := "2015-06-01T10:00:00Z";
     info_finished_at := "0001-01-01T00:00:00Z"; info_command := Some "serve" |}.

(** Both hosts answer with [c1] and [c2], the registry has nothing new, and
    every health endpoint answers 200. *)
Definition sample_env : Env :=
  {| registry_user := "acme";
     parse_local := sample_parse_local;
     list_images := λ _ _, Return [];
     docker_wrapper := λ _ _, Return tt;
     state_of_the_universe := λ _ _, Return [info_c1; info_c2];
     requests_get := λ _ _ _, Return {| status_code := 200 |} |}.

(** The same, but every health request times out. *)
Definition timeout_env : Env :=
  {| registry_user := "acme";
     parse_local := sample_parse_local;
     list_images := λ _ _, Return [];
     docker_wrapper := λ _ _, Return tt;
     state_of_the_universe := λ _ _, Return [info_c1; info_c2];
     requests_get := λ _ _ _, Raise timeout_error |}.

(** The same as [sample_env], but host h1 reports a running container. *)
Definition running_env : Env :=
  {| registry_user := "acme";
     parse_local := sample_parse_local;
     list_images := λ _ _, Return [];
     docker_wrapper := λ _ _, Return tt;
     state_of_the_universe := λ _ host,
       if decide (host = h1) then Return [info_running] else Return [info_c1; info_c2];
     requests_get := λ _ _ _, Return {| status_code := 200 |} |}.

(** The events one container may add to the trace of
    [update_deployment_status]: none unless it is running, and then requests
    to its status URL, at least one, and sleeps. *)
Definition probe_segment (deployment : Deployment) (container : option Container)
    (evs : list Event) : Prop :=
  match container with
  | Some c =>
      if decide (c_state c = "running") then
        Forall (λ e, e = EvGet (status_url c deployment) 10 ∨ e = EvSleep 5) evs ∧
        EvGet (status_url c deployment) 10 ∈ evs
      else evs = []
  | None => evs = []
  end.

(** A container with another status. *)
Definition with_status (st : option string) (c : Container) : Container :=
  {| c_id := c_id c; c_image_ref := c_image_ref c; c_state := c_state c;
     c_status := st; c_started_at := c_started_at c;
     c_finished_at := c_finished_at c; c_command := c_command c;
     c_image := c_image c; c_host := c_host c |}.

(** A health endpoint that answers every request with 500. *)
Definition server_error_env : Env :=
  {| registry_user := "acme";
     parse_local := sample_parse_local;
     list_images := λ _ _, Return [];
     docker_wrapper := λ _ _, Return tt;
     state_of_the_universe := λ _ _, Return [info_c1; info_c2];
     requests_get := λ _ _ _, Return {| status_code := 500 |} |}.

(** ** A program logic for [M]

    [triple P m Q E]: from a state in [P], [m] ends in [Q] when it returns
    and in [E] when it raises. *)
Definition triple {S A} (P : S → Prop) (m : M S A)
    (Q : A → S → Prop) (E : PyExn → S → Prop) : Prop :=
  ∀ s, P s → match m s with
             | (Return a, s') => Q a s'
             | (Raise e, s') => E e s'
             end.

(** What a pass never changes: the names of the apps and the deployments. *)
Definition skeleton (s : Store) : list string * list Deployment :=
  (map a_name (apps s), deployments s).

Definition fleet (sk : list string * list Deployment) (d : DB) : Prop :=
  skeleton (session d) = sk ∧ skeleton (database d) = sk.

(** Nothing uncommitted. *)
Definition clean (d : DB) : Prop := session d = database d.

(** The trace has grown from [tr0] by events whose unit calls are [cs]. *)
Definition calls_since (tr0 : list Event) (cs : list Method) (tr : list Event) : Prop :=
  ∃ evs, tr = (tr0 ++ evs)%list ∧ unit_calls evs = cs.

Definition pass_state (sk : list string * list Deployment) (tr0 : list Event)
    (cs : list Method) (w : World) : Prop :=
  fleet sk (db w) ∧ calls_since tr0 cs (trace w).

(** The unit calls of one app: its image sync, then its deployments. *)
Definition app_unit_calls (ds : list Deployment) (app_name : string) : list Method :=
  m_update_app_images app_name ::
  map (λ d, m_update_deployment (deployment_key d))
      (filter (λ d, d_app_name d = app_name) ds).

(** The unit calls of a pass over the given database. *)
Definition pass_unit_calls (s : Store) : list Method :=
  (flat_map (app_unit_calls (deployments s)) (map a_name (apps s))
   ++ [m_update_all_containers])%list.

(** The world after one unit of a pass: what the unit left when it returned
    and, when it raised, what it had committed by then, the rest of its
    work rolled back; its events stay. *)
Definition after_unit (body : M World unit) (w : World) : World :=
  match body w with
  | (Return _, w') => w'
  | (Raise _, w') => {| db := rollback (db w'); trace := trace w' |}
  end.

(** The units of one app: its image sync, then its deployments. *)
Definition app_units (env : Env) (ds : list Deployment) (app_name : string)
    : list (M World unit) :=
  update_app_images env app_name ::
  map (update_deployment env) (filter (λ d, d_app_name d = app_name) ds).

(** The units of a pass over the given database. *)
Definition pass_units (env : Env) (s : Store) : list (M World unit) :=
  (flat_map (app_units env (deployments s)) (map a_name (apps s))
   ++ [update_all_containers env])%list.

(** The same as [sample_env], but host h1 cannot be reached. *)
Definition unreachable_env : Env :=
  {| registry_user := "acme";
     parse_local := sample_parse_local;
     list_images := λ _ _, Return [];
     docker_wrapper := λ _ _, Return tt;
     state_of_the_universe := λ _ host,
       if decide (host = h1) then Raise connection_error else Return [info_c1; info_c2];
     requests_get := λ _ _ _, Return {| status_code := 200 |} |}.

Definition overflow_error : PyExn :=
  {| exn_class := "OverflowError"; exn_message := "date value out of range" |}.

(** The ids of the answer of a host: none when the fetch raised. *)
Definition snapshot_id_list (snapshot : Result (list Info)) : list string :=
  match snapshot with
  | Return infos => map info_id infos
  | Raise _ => []
  end.

(** The URL that [update_deployment_status] requests for a container id: none
    when the id has no row or the container is not running. *)
Definition probe_url (deployment : Deployment) (w : World) (c_id : string)
    : option string :=
  match Container_get (db w) c_id with
  | Some c => if decide (c_state c = "running") then Some (status_url c deployment)
              else None
  | None => None
  end.

(** A host that the worker can reconcile at any time: a wrapper can be
    built for it, and the timestamps of every snapshot it answers convert. *)
Definition reconcilable (env : Env) (h : HostKey) : Prop :=
  (∀ t, docker_wrapper env t h = Return tt) ∧
  (∀ t infos info,
     state_of_the_universe env t h = Return infos → info ∈ infos →
     (∃ started, parse_local env (info_started_at info) = Return started) ∧
     (∃ fin, parse_local env (info_finished_at info) = Return fin)).

(** The events of reconciling the given hosts one after the other. *)
Definition reconcile_events (hs : list HostKey) : list Event :=
  flat_map (λ h, [EvCall (m_update_host_containers h); EvStateOfTheUniverse h]) hs.

(** Primary keys: a row is stored under its own id. *)
Definition store_keyed (s : Store) : Prop :=
  (∀ k c, containers s !! k = Some c → c_id c = k) ∧
  (∀ k i, images s !! k = Some i → i_id i = k).

(** An app with more images at the end of app.images. *)
Definition add_app_images (app_name : string) (layers : list string) (a : App) : App :=
  if decide (a_name a = app_name)
  then {| a_name := a_name a; a_images := (a_images a ++ layers)%list |}
  else a.

(** The image row for [layer] after the registry's list: the last entry
    with that layer decides the tag. *)
Definition synced_image (layer : string) (infos : list ImageInfo) (old : option Image)
    : option Image :=
  match last (filter (λ ii, ii_layer ii = layer) infos) with
  | Some ii => Some {| i_id := layer; i_tag := ii_name ii |}
  | None => old
  end.

(** A container after the registry's list for [app_name]: the last entry
    whose reference is the container's decides its image. *)
Definition synced_container (env : Env) (app_name : string) (infos : list ImageInfo)
    (c : Container) : Container :=
  match last (filter (λ ii, c_image_ref c = image_ref env app_name (ii_name ii)) infos) with
  | Some ii => set_image (ii_layer ii) c
  | None => c
  end.

(** What one entry of the registry's list does to the working copy. *)
Definition sync_step (env : Env) (app_name : string) (ii : ImageInfo) (s : Store)
    : Store :=
  {| containers :=
       (λ c, if decide (c_image_ref c = image_ref env app_name (ii_name ii))
             then set_image (ii_layer ii) c else c) <$> containers s;
     images := <[ii_layer ii := {| i_id := ii_layer ii; i_tag := ii_name ii |}]> (images s);
     hosts := hosts s;
     apps := map (add_app_images app_name [ii_layer ii]) (apps s);
     deployments := deployments s;
     deployment_containers := deployment_containers s |}.

(** The same as [sample_env], but no wrapper can be built for host h2. *)
Definition no_wrapper_error : PyExn :=
  {| exn_class := "TLSParameterError"; exn_message := "client cert not found" |}.

Definition no_wrapper_env : Env :=
  {| registry_user := "acme";
     parse_local := sample_parse_local;
     list_images := λ _ _, Return [];
     docker_wrapper := λ _ host,
       if decide (host = h2) then Raise no_wrapper_error else Return tt;
     state_of_the_universe := λ _ _, Return [info_c1; info_c2];
     requests_get := λ _ _ _, Return {| status_code := 200 |} |}.

(** The registry lists two images of web; the rest as in [sample_env]. *)
Definition registry_env : Env :=
  {| registry_user := "acme";
     parse_local := sample_parse_local;
     list_images := λ _ app_name,
       if decide (app_name = "web")
       then Return [ {| ii_layer := "0123abcd"; ii_name := "v2" |};
                     {| ii_layer := "89abcdef"; ii_name := "v1" |} ]
       else Return [];
     docker_wrapper := λ _ _, Return tt;
     state_of_the_universe := λ _ _, Return [info_c1; info_c2];
     requests_get := λ _ _ _, Return {| status_code := 200 |} |}.

(** The registry cannot be reached. *)
Definition no_registry_env : Env :=
  {| registry_user := "acme";
     parse_local := sample_parse_local;
     list_images := λ _ _, Raise connection_error;
     docker_wrapper := λ _ _, Return tt;
     state_of_the_universe := λ _ _, Return [info_c1; info_c2];
     requests_get := λ _ _ _, Return {| status_code := 200 |} |}.

(** Both copies of the store have every row under its id. *)
Definition keyed_db (d : DB) : Prop :=
  store_keyed (session d) ∧ store_keyed (database d).

(** [m] keeps [I], whether it returns or raises. *)
Definition preserves {S A} (I : S → Prop) (m : M S A) : Prop :=
  triple I m (λ _, I) (λ _, I).

(** ** Launching a deployment: [launch_deployment]

    [deployment.encode_with_deps(db)] is a method of [mamabear.model], and
    [DockerWrapper(hostname, port, config).deploy_with_deps(encoded)] one of
    the wrapper that the worker calls; what they answer is part of the
    environment. The answer of a host takes the number of launches so far as
    its first argument. *)
Record LaunchEnv := {
  encode_with_deps : Deployment → DB → Result string;
  deploy_with_deps : nat → HostKey → string → Result unit
}.

(** The world of a launch: the world of the worker and the calls of
    [deploy_with_deps], in order. *)
Record LaunchWorld := {
  lw_world : World;
  launched : list (HostKey * string)
}.

Definition on_world {A} (m : M World A) : M LaunchWorld A :=
  λ lw, let '(r, w') := m (lw_world lw) in
        (r, {| lw_world := w'; launched := launched lw |}).

(** [wrapper = DockerWrapper(host.hostname, host.port, config);
    wrapper.deploy_with_deps(encoded)]. *)
Definition deploy (lenv : LaunchEnv) (encoded : string) (host : HostKey)
    : M LaunchWorld unit :=
  t ← gets (λ lw, length (launched lw));
  modify (λ lw, {| lw_world := lw_world lw;
                   launched := (launched lw ++ [(host, encoded)])%list |}) ;;
  answer (deploy_with_deps lenv t host encoded).

(** [launch_deployment(deployment_id, config)]. The answer of
    [db.query(Deployment).get(deployment_id)] is the argument [deployment];
    it is None for an id that has no row. *)
Definition launch_deployment (env : Env) (lenv : LaunchEnv)
    (deployment : option Deployment) : M LaunchWorld unit :=
  on_world (on_db (modify get_session)) ;;
  match deployment with
  | None =>
      raise {| exn_class := "AttributeError";
               exn_message := "'NoneType' object has no attribute 'encode_with_deps'" |}
  | Some deployment =>
      d ← gets (λ lw, db (lw_world lw));
      encoded ← answer (encode_with_deps lenv deployment d);
      for_each (d_hosts deployment) (deploy lenv encoded) ;;
      try_except
        (on_world (update_deployment_containers env deployment ;;
                   update_deployment_status env deployment))
        (λ e, on_world (on_db (modify rollback)))
  end.

(** ** The Docker client wrapper ([mamabear/docker_wrapper.py]) *)

(** The character [':']: code 58, lowest bit first. *)
Definition colon : Ascii.ascii :=
  Ascii.Ascii false true false true true true false false.

(** [s.split(':')]. *)
Fixpoint split_colon (s : string) : list string :=
  match s with
  | EmptyString => [EmptyString]
  | String c s' =>
      if decide (c = colon) then EmptyString :: split_colon s'
      else match split_colon s' with
           | x :: r => String c x :: r
           | [] => [String c EmptyString]
           end
  end.

(** [[f(x) for x in l]], where [f] may raise. *)
Fixpoint comprehension {A B} (f : A → Result B) (l : list A) : Result (list B) :=
  match l with
  | [] => Return []
  | x :: rest =>
      match f x with
      | Raise e => Raise e
      | Return y =>
          match comprehension f rest with
          | Raise e => Raise e
          | Return ys => Return (y :: ys)
          end
      end
  end.

Definition dict_error (index n : nat) : PyExn :=
  {| exn_class := "ValueError";
     exn_message := "dictionary update sequence element #" +:+ str_of_Z (Z.of_nat index)
                      +:+ " has length " +:+ str_of_Z (Z.of_nat n)
                      +:+ "; 2 is required" |}.

(** [dict(seq)] for a sequence of sequences: every element must have two
    items, and a later element replaces an earlier one with the same key. *)
Fixpoint dict_from `{Countable A} (index : nat) (seq : list (list A)) (acc : gmap A A)
    : Result (gmap A A) :=
  match seq with
  | [] => Return acc
  | [k; v] :: rest => dict_from (S index) rest (<[k := v]> acc)
  | elem :: _ => Raise (dict_error index (length elem))
  end.

Definition dict `{Countable A} (seq : list (list A)) : Result (gmap A A) :=
  dict_from 0 seq ∅.

(** The value [{'bind': path}] of a volume binding. *)
Record Bind := { b_bind : string }.

(** The arguments of [create_container]; [port_bindings] and [binds] are
    those of [docker.utils.create_host_config]. *)
Record CreateArgs := {
  ca_image : string;
  ca_name : string;
  ca_ports : list Z;
  ca_volumes : list string;
  ca_port_bindings : gmap Z Z;
  ca_binds : gmap string Bind
}.

Inductive ClientCall :=
| CreateContainer (args : CreateArgs)
| Start (container : option string).

(** What [run] cannot decide itself: the builtin [int], and the answers of
    the Docker client; of the container that [create_container] returns
    only [container.get('Id')] is used. *)
Record Client := {
  py_int : string → Result Z;
  create_container : CreateArgs → Result (option string);
  start : option string → Result unit
}.

(** [dict([[int(p) for p in pm.split(':')] for pm in mapped_ports])]. *)
Definition port_bindings_of (c : Client) (mapped_ports : list string)
    : Result (gmap Z Z) :=
  match comprehension (λ pm, comprehension (py_int c) (split_colon pm)) mapped_ports with
  | Raise e => Raise e
  | Return lists => dict lists
  end.

(** [dict([vm.split(':') for vm in mapped_volumes])]. *)
Definition volumes_of (mapped_volumes : list string) : Result (gmap string string) :=
  dict (map split_colon mapped_volumes).

(** [dict([(container_volume, {'bind': mv[container_volume]})
          for container_volume in mv])]. *)
Definition volume_bindings_of (mv : gmap string string) : gmap string Bind :=
  list_to_map (map (λ kv, (kv.1, {| b_bind := kv.2 |})) (map_to_list mv)).

(** [run(app_name, image_id, mapped_ports=None, mapped_volumes=None)]; the
    state is the list of the calls of the client. [if mapped_ports:] is
    false for None and for the empty list. *)
Definition run (c : Client) (app_name image_id : string)
    (mapped_ports mapped_volumes : option (list string)) : M (list ClientCall) unit :=
  port_bindings ←
    match mapped_ports with
    | Some (pm :: rest) => answer (port_bindings_of c (pm :: rest))
    | _ => ret ∅
    end;
  let ports := map fst (map_to_list port_bindings) in
  mv ←
    match mapped_volumes with
    | Some (vm :: rest) => answer (volumes_of (vm :: rest))
    | _ => ret ∅
    end;
  let args :=
    {| ca_image := image_id;
       ca_name := app_name;
       ca_ports := ports;
       ca_volumes := map snd (map_to_list mv);
       ca_port_bindings := port_bindings;
       ca_binds := volume_bindings_of mv |} in
  modify (λ calls, (calls ++ [CreateContainer args])%list) ;;
  container ← answer (create_container c args);
  modify (λ calls, (calls ++ [Start container])%list) ;;
  answer (start c container).

(** The pairs of a dict, read off the list it was built from: a later pair
    replaces an earlier one with the same key. *)
Definition last_for_key `{EqDecision A} (k : A) (pairs : list (A * A)) : option A :=
  snd <$> last (filter (λ p, p.1 = k) pairs).

(** A port mapping that [run] cannot use: it has not two parts, or a part
    is no integer. *)
Definition bad_port_mapping (c : Client) (pm : string) : Prop :=
  length (split_colon pm) ≠ 2%nat ∨
  ∃ part e, part ∈ split_colon pm ∧ py_int c part = Raise e.

(** A volume mapping that [run] cannot use. *)
Definition bad_volume_mapping (vm : string) : Prop :=
  length (split_colon vm) ≠ 2%nat.

(** A launch environment in which every host accepts the deployment, and
    one in which no host can be reached. *)
Definition sample_lenv : LaunchEnv :=
  {| encode_with_deps := λ d _, Return (d_app_name d +:+ ":" +:+ d_image_tag d);
     deploy_with_deps := λ _ _ _, Return tt |}.

Definition refusing_lenv : LaunchEnv :=
  {| encode_with_deps := λ d _, Return (d_app_name d +:+ ":" +:+ d_image_tag d);
     deploy_with_deps := λ _ _ _, Raise connection_error |}.

Definition sample_launch : LaunchWorld :=
  {| lw_world := sample_world; launched := [] |}.

(** A client that creates and starts every container, with decimal
    integers. *)
Definition sample_client : Client :=
  {| py_int := λ s,
       match NilEmpty.int_of_string s with
       | Some n => Return (Z.of_int n)
       | None => Raise {| exn_class := "ValueError";
                          exn_message := "invalid literal for int() with base 10" |}
       end;
     create_container := λ _, Return (Some "c1");
     start := λ _, Return tt |}.

(** * The State Reconciler *)

Section Reconciler.
Context (env : Env) (host : HostKey).

Lemma store_eq (s1 s2 : Store) :
  containers s1 = containers s2 → images s1 = images s2 → hosts s1 = hosts s2 →
  apps s1 = apps s2 → deployments s1 = deployments s2 →
  deployment_containers s1 = deployment_containers s2 → s1 = s2.
Proof. destruct s1, s2; simpl; intros; subst; reflexivity. Qed.

Lemma db_eq (d1 d2 : DB) : database d1 = database d2 → session d1 = session d2 → d1 = d2.
Proof. destruct d1, d2; simpl; intros; subst; reflexivity. Qed.

Lemma set_state_finished_twice st fin st' fin' c :
  set_state_finished st fin (set_state_finished st' fin' c) = set_state_finished st fin c.
Proof. reflexivity. Qed.

Lemma set_state_finished_same c :
  set_state_finished (c_state c) (c_finished_at c) c = c.
Proof. by destruct c. Qed.

(** What one descriptor does. *)
Lemma reconcile_info_existing info d c :
  Container_get d (info_id info) = Some c →
  reconcile_info env host info d =
    match parse_local env (info_finished_at info) with
    | Return fin => (Return tt, with_session (set_containers
          (insert (info_id info) (set_state_finished (info_state info) fin c))) d)
    | Raise e => (Raise e, d)
    end.
Proof.
  intros Hc. unfold reconcile_info, mbind, M_bind, bind, gets, answer, modify.
  rewrite Hc. by destruct (parse_local env (info_finished_at info)).
Qed.

Lemma reconcile_info_new info d :
  Container_get d (info_id info) = None →
  reconcile_info env host info d =
    match parse_local env (info_started_at info) with
    | Return started =>
        match parse_local env (info_finished_at info) with
        | Return fin => (Return tt, with_session (set_containers
            (insert (info_id info)
               {| c_id := info_id info;
                  c_image_ref := info_image_ref info;
                  c_state := info_state info;
                  c_status := None;
                  c_started_at := started;
                  c_finished_at := fin;
                  c_command := info_command info;
                  c_image := i_id <$> Image_get d (String.substring 0 8 (info_image_id info));
                  c_host := host |})) d)
        | Raise e => (Raise e, d)
        end
    | Raise e => (Raise e, d)
    end.
Proof.
  intros Hc. unfold reconcile_info, mbind, M_bind, bind, gets, answer, modify.
  rewrite Hc. destruct (parse_local env (info_started_at info)); [|done].
  by destruct (parse_local env (info_finished_at info)).
Qed.

(** Either way a descriptor writes at most the row of its own id. *)
Lemma reconcile_info_shape info d r d' :
  reconcile_info env host info d = (r, d') →
  (∃ e, r = Raise e ∧ d' = d) ∨
  (∃ c, r = Return tt ∧ d' = with_session (set_containers (insert (info_id info) c)) d
        ∧ c_state c = info_state info
        ∧ parse_local env (info_finished_at info) = Return (c_finished_at c)
        ∧ match Container_get d (info_id info) with
          | Some c0 => c = set_state_finished (info_state info) (c_finished_at c) c0
          | None => c_host c = host
          end).
Proof.
  destruct (Container_get d (info_id info)) as [c0|] eqn:Hc.
  - rewrite (reconcile_info_existing _ _ _ Hc).
    destruct (parse_local env (info_finished_at info)) as [fin|e]; intros [= <- <-].
    + right. eexists. split_and!; try done.
    + left. eauto.
  - rewrite (reconcile_info_new _ _ Hc).
    destruct (parse_local env (info_started_at info)) as [st|e]; [|intros [= <- <-]; left; eauto].
    destruct (parse_local env (info_finished_at info)) as [fin|e]; intros [= <- <-].
    + right. eexists. split_and!; try done.
    + left. eauto.
Qed.

Lemma reconcile_loop_cons info rest new d :
  reconcile_loop env host (info :: rest) new d =
    match reconcile_info env host info d with
    | (Return _, d1) => reconcile_loop env host rest ({[info_id info]} ∪ new) d1
    | (Raise e, d1) => (Raise e, d1)
    end.
Proof. reflexivity. Qed.

Lemma with_session_containers_twice f g d :
  with_session (set_containers f) (with_session (set_containers g) d) =
  with_session (set_containers (f ∘ g)) d.
Proof. reflexivity. Qed.

(** The loop writes container rows of the session and nothing else. *)
Lemma reconcile_loop_frame infos : ∀ new d r d',
  reconcile_loop env host infos new d = (r, d') →
  d' = with_session (set_containers (λ _, containers (session d'))) d.
Proof.
  induction infos as [|info rest IH]; intros new d r d' Hrun.
  - injection Hrun as <- <-. by destruct d as [? []].
  - rewrite reconcile_loop_cons in Hrun.
    destruct (reconcile_info env host info d) as [r1 d1] eqn:Hstep.
    apply reconcile_info_shape in Hstep as [(e & -> & ->)|(c & -> & -> & _)].
    + injection Hrun as <- <-. by destruct d as [? []].
    + apply IH in Hrun. rewrite Hrun at 1. reflexivity.
Qed.

Lemma reconcile_loop_ids infos : ∀ new d new' d',
  reconcile_loop env host infos new d = (Return new', d') →
  new' = snapshot_ids infos new.
Proof.
  induction infos as [|info rest IH]; intros new d new' d' Hrun.
  - by injection Hrun as <- <-.
  - rewrite reconcile_loop_cons in Hrun.
    destruct (reconcile_info env host info d) as [[[]|e] d1]; [|done].
    by apply IH in Hrun.
Qed.

Lemma elem_of_snapshot_ids infos : ∀ new k,
  k ∈ snapshot_ids infos new ↔ k ∈ map info_id infos ∨ k ∈ new.
Proof.
  induction infos as [|info rest IH]; intros new k.
  - split; [by right|]. intros [H|H]; [by apply elem_of_nil in H|done].
  - unfold snapshot_ids in *. cbn [foldl map].
    rewrite IH, elem_of_union, elem_of_singleton, elem_of_cons. tauto.
Qed.

Lemma reconcile_loop_lookup_other infos : ∀ new d r d' k,
  reconcile_loop env host infos new d = (r, d') →
  k ∉ map info_id infos →
  containers (session d') !! k = containers (session d) !! k.
Proof.
  induction infos as [|info rest IH]; intros new d r d' k Hrun Hk.
  - by injection Hrun as <- <-.
  - rewrite reconcile_loop_cons in Hrun. simpl in Hk.
    apply not_elem_of_cons in Hk as [Hne Hk].
    destruct (reconcile_info env host info d) as [r1 d1] eqn:Hstep.
    apply reconcile_info_shape in Hstep as [(e & -> & ->)|(c & -> & -> & _)].
    + by injection Hrun as <- <-.
    + rewrite (IH _ _ _ _ _ Hrun Hk). simpl. by rewrite lookup_insert_ne.
Qed.

Lemma last_for_Some k infos info :
  last_for k infos = Some info → info ∈ infos ∧ info_id info = k.
Proof.
  induction infos as [|x rest IH]; simpl; [done|].
  destruct (last_for k rest) as [i|].
  - intros Heq. destruct IH as [? ?]; [done|]. split; [by right|done].
  - destruct (decide (info_id x = k)) as [Hx|]; [|done].
    intros Heq. assert (x = info) as <- by congruence. split; [by left|done].
Qed.

Lemma last_for_None k infos :
  last_for k infos = None ↔ k ∉ map info_id infos.
Proof.
  induction infos as [|x rest IH]; simpl.
  - split; [intros _; apply not_elem_of_nil|done].
  - rewrite not_elem_of_cons. destruct (last_for k rest) as [i|].
    + split; [done|]. intros [_ H]. by apply IH in H.
    + case_decide; split; try done.
      * intros [? _]. congruence.
      * intros _. split; [congruence|by apply IH].
Qed.

(** After a run of the loop, every id of the snapshot has a row, and it
    carries the state and finished_at of the last descriptor with that id. *)
Lemma reconcile_loop_last infos : ∀ new d new' d' k info,
  reconcile_loop env host infos new d = (Return new', d') →
  last_for k infos = Some info →
  ∃ c, containers (session d') !! k = Some c ∧ c_state c = info_state info
       ∧ c_finished_at c = finished_of env info.
Proof.
  induction infos as [|x rest IH]; intros new d new' d' k info Hrun Hlast; [done|].
  rewrite reconcile_loop_cons in Hrun. simpl in Hlast.
  destruct (reconcile_info env host x d) as [r1 d1] eqn:Hstep.
  apply reconcile_info_shape in Hstep as [(e & -> & ->)|(c & -> & -> & Hst & Hfin & _)];
    [done|].
  destruct (last_for k rest) as [i|] eqn:Hrest.
  - injection Hlast as ->. by eapply IH.
  - case_decide as Hid; [|done]. injection Hlast as <-. subst k.
    apply last_for_None in Hrest.
    exists c. rewrite (reconcile_loop_lookup_other _ _ _ _ _ _ Hrun Hrest).
    simpl. rewrite lookup_insert_eq. split_and!; [done..|].
    unfold finished_of. by rewrite Hfin.
Qed.

Lemma reconcile_loop_parse infos : ∀ new d new' d' info,
  reconcile_loop env host infos new d = (Return new', d') →
  info ∈ infos →
  ∃ fin, parse_local env (info_finished_at info) = Return fin.
Proof.
  induction infos as [|x rest IH]; intros new d new' d' info Hrun Hin.
  - by apply elem_of_nil in Hin.
  - rewrite reconcile_loop_cons in Hrun.
    destruct (reconcile_info env host x d) as [r1 d1] eqn:Hstep.
    apply reconcile_info_shape in Hstep as [(e & -> & ->)|(c & -> & -> & Hst & Hfin & _)];
      [done|].
    apply elem_of_cons in Hin as [->|Hin]; [eauto|by eapply IH].
Qed.

Lemma apply_last_lookup infos m k :
  apply_last env infos m !! k =
    (λ c, match last_for k infos with
          | Some info => set_state_finished (info_state info) (finished_of env info) c
          | None => c
          end) <$> m !! k.
Proof. unfold apply_last. rewrite map_lookup_imap. by destruct (m !! k). Qed.

(** On a session that already has a row for every id of the snapshot, the
    loop only rewrites state and finished_at, last descriptor winning. *)
Lemma reconcile_loop_settled infos : ∀ new d,
  (∀ info, info ∈ infos →
     is_Some (containers (session d) !! info_id info) ∧
     ∃ fin, parse_local env (info_finished_at info) = Return fin) →
  reconcile_loop env host infos new d =
    (Return (snapshot_ids infos new),
     with_session (set_containers (apply_last env infos)) d).
Proof.
  induction infos as [|x rest IH]; intros new d Hall.
  - simpl. unfold ret. f_equal. apply db_eq; [done|]. simpl.
    apply store_eq; try done. simpl. apply map_eq. intros k.
    rewrite apply_last_lookup. simpl. by destruct (_ !! k).
  - rewrite reconcile_loop_cons.
    destruct (Hall x) as [[c Hc] [fin Hfin]]; [by left|].
    rewrite (reconcile_info_existing _ _ _ Hc), Hfin.
    rewrite IH.
    + f_equal. apply db_eq; [done|]. simpl. apply store_eq; try done. simpl.
      apply map_eq. intros k. rewrite !apply_last_lookup. simpl.
      destruct (decide (info_id x = k)) as [<-|Hne].
      * rewrite lookup_insert_eq, Hc. simpl. f_equal.
        destruct (last_for (info_id x) rest); [done|].
        rewrite ?decide_True by done. unfold finished_of. by rewrite Hfin.
      * rewrite lookup_insert_ne by done.
        destruct (containers (session d) !! k); [simpl|done]. f_equal.
        by destruct (last_for k rest).
    + intros info Hin. destruct (Hall info) as [[c' Hc'] Hp]; [by right|].
      split; [|done]. simpl.
      destruct (decide (info_id x = info_id info)) as [->|Hne].
      * rewrite lookup_insert_eq. eauto.
      * rewrite lookup_insert_ne by done. eauto.
Qed.

(** The ids of [previous_host_containers]. *)
Lemma elem_of_previous d k :
  k ∈ map fst (map_to_list (host_containers d host)) ↔
  ∃ c, containers (session d) !! k = Some c ∧ c_host c = host.
Proof.
  rewrite list_elem_of_In, in_map_iff. split.
  - intros ([k' c] & <- & Hin). apply list_elem_of_In, elem_of_map_to_list in Hin.
    unfold host_containers in Hin. apply map_lookup_filter_Some in Hin as [? ?]. eauto.
  - intros (c & Hc & Hh). exists (k, c). split; [done|].
    apply list_elem_of_In, elem_of_map_to_list. unfold host_containers.
    by apply map_lookup_filter_Some.
Qed.

Lemma delete_missing_cons p previous new s :
  delete_missing (p :: previous) new s =
    if decide (p ∈ new) then delete_missing previous new s
    else db_delete p (delete_missing previous new s).
Proof. reflexivity. Qed.

Lemma delete_missing_lookup previous new s k :
  containers (delete_missing previous new s) !! k =
    if decide (k ∈ previous ∧ k ∉ new) then None else containers s !! k.
Proof.
  induction previous as [|p previous IH].
  - rewrite decide_False; [done|]. intros [H _]. by apply elem_of_nil in H.
  - rewrite delete_missing_cons.
    destruct (decide (p ∈ new)) as [Hp|Hp].
    + rewrite IH.
      destruct (decide (k ∈ previous ∧ k ∉ new)) as [[H1 H2]|Hn].
      * rewrite decide_True; [done|]. split; [by right|done].
      * rewrite decide_False; [done|]. intros [H1 H2]. apply Hn.
        apply elem_of_cons in H1 as [->|H1]; [done|]. by split.
    + cbn [db_delete set_deployment_containers set_containers containers].
      destruct (decide (p = k)) as [->|Hne].
      * rewrite lookup_delete_eq. rewrite decide_True; [done|]. split; [by left|done].
      * rewrite lookup_delete_ne by done. rewrite IH.
        destruct (decide (k ∈ previous ∧ k ∉ new)) as [[H1 H2]|Hn].
        -- rewrite decide_True; [done|]. split; [by right|done].
        -- rewrite decide_False; [done|]. intros [H1 H2]. apply Hn.
           apply elem_of_cons in H1 as [->|H1]; [done|]. by split.
Qed.

Lemma delete_missing_rest previous new s :
  images (delete_missing previous new s) = images s ∧
  hosts (delete_missing previous new s) = hosts s ∧
  apps (delete_missing previous new s) = apps s ∧
  deployments (delete_missing previous new s) = deployments s.
Proof.
  induction previous as [|p previous IH]; [done|].
  rewrite delete_missing_cons. by destruct (decide (p ∈ new)).
Qed.

Lemma delete_missing_none previous new s :
  (∀ k, k ∈ previous → k ∈ new) → delete_missing previous new s = s.
Proof.
  induction previous as [|p previous IH]; intros Hall; [done|].
  rewrite delete_missing_cons, decide_True by (apply Hall; by left).
  apply IH. intros k Hk. apply Hall. by right.
Qed.

Lemma update_host_containers_raise e d :
  update_host_containers env (Wrapper (Raise e)) host d =
    (Return tt,
     commit (with_session
       (delete_missing (map fst (map_to_list (host_containers d host))) ∅)
       (with_session (set_host_status host "down") d))).
Proof. reflexivity. Qed.

Lemma update_host_containers_return infos d :
  update_host_containers env (Wrapper (Return infos)) host d =
    match reconcile_loop env host infos ∅ d with
    | (Return new, d') =>
        (Return tt,
         commit (with_session
           (delete_missing (map fst (map_to_list (host_containers d host))) new) d'))
    | (Raise e, d') => (Raise e, d')
    end.
Proof.
  unfold update_host_containers, mbind, M_bind, bind, gets, try_except, answer, modify.
  by destruct (reconcile_loop env host infos ∅ d) as [[new|e] d'].
Qed.

(** A row that was there before the loop is still there, rewritten by the
    last descriptor with its id, if any. *)
Lemma reconcile_loop_existing infos : ∀ new d new' d' k c,
  reconcile_loop env host infos new d = (Return new', d') →
  containers (session d) !! k = Some c →
  containers (session d') !! k =
    Some match last_for k infos with
         | Some info => set_state_finished (info_state info) (finished_of env info) c
         | None => c
         end.
Proof.
  induction infos as [|x rest IH]; intros new d new' d' k c Hrun Hc.
  - by injection Hrun as <- <-.
  - rewrite reconcile_loop_cons in Hrun.
    destruct (reconcile_info env host x d) as [r1 d1] eqn:Hstep.
    apply reconcile_info_shape in Hstep
      as [(e & -> & ->)|(c1 & -> & -> & Hst & Hfin & Hold)]; [done|].
    destruct (decide (info_id x = k)) as [<-|Hne].
    + unfold Container_get in Hold. rewrite Hc in Hold.
      erewrite IH; [|done|simpl; by rewrite lookup_insert_eq]. simpl.
      destruct (last_for (info_id x) rest).
      * by rewrite Hold.
      * rewrite decide_True by done. rewrite Hold. unfold finished_of. by rewrite Hfin.
    + erewrite IH; [|done|simpl; by rewrite lookup_insert_ne]. simpl.
      destruct (last_for k rest); [done|]. by rewrite decide_False.
Qed.

(** A descriptor whose id has no row yet gets one, made of its fields. *)
Lemma reconcile_loop_created infos : ∀ new d new' d' info,
  reconcile_loop env host infos new d = (Return new', d') →
  NoDup (map info_id infos) →
  info ∈ infos →
  containers (session d) !! info_id info = None →
  ∃ started fin,
    parse_local env (info_started_at info) = Return started ∧
    parse_local env (info_finished_at info) = Return fin ∧
    containers (session d') !! info_id info =
      Some {| c_id := info_id info;
              c_image_ref := info_image_ref info;
              c_state := info_state info;
              c_status := None;
              c_started_at := started;
              c_finished_at := fin;
              c_command := info_command info;
              c_image := i_id <$> Image_get d (String.substring 0 8 (info_image_id info));
              c_host := host |}.
Proof.
  induction infos as [|x rest IH]; intros new d new' d' info Hrun Hnd Hin Hnone.
  - by apply elem_of_nil in Hin.
  - rewrite reconcile_loop_cons in Hrun. simpl in Hnd. apply NoDup_cons in Hnd as [Hx Hnd].
    apply elem_of_cons in Hin as [->|Hin].
    + rewrite (reconcile_info_new _ _ Hnone) in Hrun.
      destruct (parse_local env (info_started_at x)) as [started|]; [|done].
      destruct (parse_local env (info_finished_at x)) as [fin|]; [|done].
      exists started, fin. split_and!; [done..|].
      rewrite (reconcile_loop_lookup_other _ _ _ _ _ _ Hrun Hx). simpl.
      by rewrite lookup_insert_eq.
    + assert (info_id x ≠ info_id info) as Hne.
      { intros Heq. apply Hx. rewrite Heq. apply list_elem_of_fmap. eauto. }
      destruct (reconcile_info env host x d) as [r1 d1] eqn:Hstep.
      apply reconcile_info_shape in Hstep
        as [(e & -> & ->)|(c1 & -> & -> & _)]; [done|].
      destruct (IH _ _ _ _ info Hrun Hnd Hin) as (started & fin & ? & ? & Hl).
      { simpl. by rewrite lookup_insert_ne. }
      exists started, fin. split_and!; [done..|]. by rewrite Hl.
Qed.

Lemma reconcile_loop_app l1 l2 : ∀ new d,
  reconcile_loop env host (l1 ++ l2)%list new d =
    match reconcile_loop env host l1 new d with
    | (Return new1, d1) => reconcile_loop env host l2 new1 d1
    | (Raise e, d1) => (Raise e, d1)
    end.
Proof.
  induction l1 as [|x l1 IH]; intros new d; [done|].
  rewrite <- app_comm_cons, !reconcile_loop_cons.
  destruct (reconcile_info env host x d) as [[[]|e] d1]; [apply IH|done].
Qed.

(** A loop that raises has run a prefix of the snapshot to its end and
    raised on the next descriptor, before that one wrote anything. *)
Lemma reconcile_loop_raise_split infos : ∀ new d e d',
  reconcile_loop env host infos new d = (Raise e, d') →
  ∃ (l1 : list Info) x l2 new1,
    infos = (l1 ++ x :: l2)%list ∧
    reconcile_loop env host l1 new d = (Return new1, d') ∧
    reconcile_info env host x d' = (Raise e, d').
Proof.
  induction infos as [|x rest IH]; intros new d e d' Hrun; [done|].
  rewrite reconcile_loop_cons in Hrun.
  destruct (reconcile_info env host x d) as [r1 d1] eqn:Hstep.
  destruct (reconcile_info_shape _ _ _ _ Hstep)
    as [(e1 & -> & ->)|(c1 & -> & Hd1 & _)].
  - injection Hrun as <- <-. by exists [], x, rest, new.
  - destruct (IH _ _ _ _ Hrun) as (l1 & y & l2 & new1 & -> & Hl1 & Hy).
    exists (x :: l1), y, l2, new1. split_and!; [done| |done].
    by rewrite reconcile_loop_cons, Hstep.
Qed.

(** A session in which every id of the snapshot already carries the state
    and finished_at of its last descriptor is left as it is. *)
Lemma reconcile_loop_stable infos new d :
  (∀ k info, last_for k infos = Some info →
     ∃ c, containers (session d) !! k = Some c ∧ c_state c = info_state info
          ∧ c_finished_at c = finished_of env info) →
  (∀ info, info ∈ infos → ∃ fin, parse_local env (info_finished_at info) = Return fin) →
  reconcile_loop env host infos new d = (Return (snapshot_ids infos new), d).
Proof.
  intros Hlast Hparse. rewrite reconcile_loop_settled.
  - f_equal. apply db_eq; [done|]. apply store_eq; try done. simpl.
    apply map_eq. intros k. rewrite apply_last_lookup.
    destruct (containers (session d) !! k) as [c|] eqn:Hc; [simpl|done]. f_equal.
    destruct (last_for k infos) as [info|] eqn:Hk; [|done].
    destruct (Hlast _ _ Hk) as (c' & Hc' & <- & <-).
    rewrite Hc in Hc'. injection Hc' as <-. apply set_state_finished_same.
  - intros info Hin. split; [|by apply Hparse].
    destruct (last_for (info_id info) infos) as [i|] eqn:Hk.
    + destruct (Hlast _ _ Hk) as (c & -> & _). eauto.
    + apply last_for_None in Hk. exfalso. apply Hk, list_elem_of_fmap. eauto.
Qed.

Lemma set_host_status_idem st s :
  set_host_status host st (set_host_status host st s) = set_host_status host st s.
Proof.
  apply store_eq; try done. simpl. rewrite map_map. apply map_ext. intros h.
  destruct (decide (host_key h = host)) as [Hk|Hk]; simpl.
  - by rewrite decide_True.
  - by rewrite decide_False.
Qed.

Lemma set_host_status_delete_missing st previous new s :
  set_host_status host st (delete_missing previous new s) =
  delete_missing previous new (set_host_status host st s).
Proof.
  induction previous as [|p previous IH]; [done|].
  rewrite !delete_missing_cons. destruct (decide (p ∈ new)); [done|].
  by rewrite <- IH.
Qed.

Lemma update_host_containers_idempotent_raise e d :
  update_host_containers env (Wrapper (Raise e)) host
    (update_host_containers env (Wrapper (Raise e)) host d).2 =
  update_host_containers env (Wrapper (Raise e)) host d.
Proof.
  rewrite (update_host_containers_raise e d). cbn [snd].
  rewrite update_host_containers_raise.
  set (K := map fst (map_to_list (host_containers d host))).
  set (d1 := commit (with_session (delete_missing K ∅)
                      (with_session (set_host_status host "down") d))).
  assert (map fst (map_to_list (host_containers d1 host)) = []) as ->.
  { destruct (map fst (map_to_list (host_containers d1 host))) as [|k ks] eqn:HK; [done|].
    assert (k ∈ map fst (map_to_list (host_containers d1 host))) as Hk
      by (rewrite HK; by left).
    apply elem_of_previous in Hk as (c & Hc & Hh). exfalso.
    unfold d1 in Hc. cbn [commit with_session session] in Hc.
    rewrite delete_missing_lookup in Hc.
    destruct (decide (k ∈ K ∧ k ∉ (∅ : gset string))) as [|Hn]; [done|].
    apply Hn. split; [|apply not_elem_of_empty]. apply elem_of_previous. eauto. }
  f_equal. unfold d1. apply db_eq; cbn [commit with_session session database delete_missing foldr].
  - by rewrite set_host_status_delete_missing, set_host_status_idem.
  - by rewrite set_host_status_delete_missing, set_host_status_idem.
Qed.

Lemma reconcile_loop_again infos new d new' d' new2 :
  reconcile_loop env host infos new d = (Return new', d') →
  reconcile_loop env host infos new2 d' = (Return (snapshot_ids infos new2), d').
Proof.
  intros Hrun. apply reconcile_loop_stable.
  - intros k info Hk. by eapply reconcile_loop_last.
  - intros info Hin. by eapply reconcile_loop_parse.
Qed.

Lemma update_host_containers_idempotent_return infos d :
  update_host_containers env (Wrapper (Return infos)) host
    (update_host_containers env (Wrapper (Return infos)) host d).2 =
  update_host_containers env (Wrapper (Return infos)) host d.
Proof.
  rewrite (update_host_containers_return infos d).
  destruct (reconcile_loop env host infos ∅ d) as [[new|e] d'] eqn:Hrun; cbn [snd].
  - set (K := map fst (map_to_list (host_containers d host))).
    set (d1 := commit (with_session (delete_missing K new) d')).
    pose proof (reconcile_loop_ids _ _ _ _ _ Hrun) as Hnew.
    assert (∀ k, k ∈ map info_id infos → k ∈ new) as Hids.
    { intros k Hk. rewrite Hnew. apply elem_of_snapshot_ids. by left. }
    rewrite update_host_containers_return.
    rewrite (reconcile_loop_stable infos ∅ d1).
    + rewrite <- Hnew. f_equal.
      assert (∀ k, k ∈ map fst (map_to_list (host_containers d1 host)) → k ∈ new)
        as Hkept.
      { intros k Hk. apply elem_of_previous in Hk as (c & Hc & Hh).
        unfold d1 in Hc. cbn [commit with_session session] in Hc.
        rewrite delete_missing_lookup in Hc.
        destruct (decide (k ∈ K ∧ k ∉ new)) as [|Hn]; [done|].
        destruct (decide (k ∈ new)) as [|Hknew]; [done|]. exfalso.
        apply Hn. split; [|done]. apply elem_of_previous. exists c. split; [|done].
        rewrite <- Hc. symmetry. eapply reconcile_loop_lookup_other; [done|].
        intros Hk. by apply Hknew, Hids. }
      apply db_eq; cbn [commit with_session database session];
        by rewrite delete_missing_none.
    + intros k info Hk.
      destruct (reconcile_loop_last _ _ _ _ _ _ _ Hrun Hk) as (c & Hc & Hst & Hfin).
      exists c. split; [|done].
      unfold d1. cbn [commit with_session session]. rewrite delete_missing_lookup.
      rewrite decide_False; [done|]. intros [_ Hn]. apply Hn, Hids.
      apply last_for_Some in Hk as [Hin <-]. apply list_elem_of_fmap. eauto.
    + intros info Hin. by eapply reconcile_loop_parse.
  - rewrite update_host_containers_return.
    destruct (reconcile_loop_raise_split _ _ _ _ _ Hrun)
      as (l1 & x & l2 & new1 & -> & Hl1 & Hx).
    rewrite reconcile_loop_app, (reconcile_loop_again _ _ _ _ _ ∅ Hl1).
    by rewrite reconcile_loop_cons, Hx.
Qed.


Lemma last_for_NoDup infos info :
  NoDup (map info_id infos) → info ∈ infos →
  last_for (info_id info) infos = Some info.
Proof.
  induction infos as [|x rest IH]; intros Hnd Hin.
  - by apply elem_of_nil in Hin.
  - simpl in *. apply NoDup_cons in Hnd as [Hx Hnd].
    apply elem_of_cons in Hin as [->|Hin].
    + apply last_for_None in Hx. rewrite Hx. by rewrite decide_True.
    + by rewrite IH.
Qed.

(** When the snapshot cannot be fetched, the run returns normally, marks
    the host down and deletes every row the host owned. *)
Lemma update_host_containers_unreachable e d :
  ∃ d', update_host_containers env (Wrapper (Raise e)) host d = (Return tt, d') ∧
    hosts (database d') = hosts (set_host_status host "down" (session d)) ∧
    ∀ k, containers (database d') !! k =
           match containers (session d) !! k with
           | Some c => if decide (c_host c = host) then None else Some c
           | None => None
           end.
Proof.
  rewrite update_host_containers_raise. eexists. split; [done|].
  cbn [commit with_session database session]. split.
  - apply delete_missing_rest.
  - intros k. rewrite delete_missing_lookup.
    cbn [set_host_status set_hosts containers].
    destruct (containers (session d) !! k) as [c|] eqn:Hc.
    + destruct (decide (c_host c = host)) as [Hh|Hh].
      * rewrite decide_True; [done|]. split; [|apply not_elem_of_empty].
        apply elem_of_previous. eauto.
      * rewrite decide_False; [done|]. intros [Hk _].
        apply elem_of_previous in Hk as (c' & Hc' & Hh'). congruence.
    + by destruct (decide _).
Qed.
End Reconciler.

(** C1 (worker.py, lines 156-196), at a host whose snapshot cannot be
    fetched: the run returns normally and the host is marked down, but the
    row of container c0, which the host owned, is deleted and not left as it
    was. *)
Theorem update_host_containers_fetch_failure_deletes :
  Container_get sample_db "c0" = Some c0 ∧ c_host c0 = h1 ∧
  ∃ d', update_host_containers sample_env (Wrapper (Raise connection_error)) h1 sample_db
          = (Return tt, d') ∧
        h_status <$> hosts (database d') = ["down"; "up"] ∧
        containers (database d') !! "c0" = None.
Proof.
  split; [reflexivity|]. split; [reflexivity|].
  eexists. split; [reflexivity|]. split; vm_compute; reflexivity.
Qed.

(** C2, as stated, fails: c0 is persisted for host h1 and is in the
    snapshot with another started_at, image_ref and command; after the run
    the row still has the started_at, image_ref and command it had. *)
Lemma update_host_containers_keeps_started_at :
  ∃ d' c,
    update_host_containers sample_env (Wrapper (Return [info_c0])) h1 sample_db = (Return tt, d') ∧
    containers (database d') !! "c0" = Some c ∧
    Return (c_started_at c) ≠ parse_local sample_env (info_started_at info_c0) ∧
    c_image_ref c ≠ info_image_ref info_c0 ∧
    c_command c ≠ info_command info_c0.
Proof.
  eexists _, _. split; [reflexivity|]. split; [vm_compute; reflexivity|].
  split_and!; vm_compute; discriminate.
Qed.

(** C2, amended: after a run on a snapshot with pairwise distinct ids that
    returns normally, the rows of the host whose id is not in the snapshot
    are deleted; every descriptor whose id had no row has a new row, owned by
    the host and made of the descriptor's fields; and every descriptor whose
    id had a row has that row with state and finished_at set to the
    descriptor's values and everything else as it was. *)
Theorem update_host_containers_diff (env : Env) (host : HostKey) (infos : list Info)
    (d d' : DB) :
  NoDup (map info_id infos) →
  update_host_containers env (Wrapper (Return infos)) host d = (Return tt, d') →
  (∀ id c, containers (session d) !! id = Some c → c_host c = host →
     id ∉ map info_id infos → containers (database d') !! id = None) ∧
  (∀ info, info ∈ infos → containers (session d) !! info_id info = None →
     ∃ started fin,
       parse_local env (info_started_at info) = Return started ∧
       parse_local env (info_finished_at info) = Return fin ∧
       containers (database d') !! info_id info =
         Some {| c_id := info_id info;
                 c_image_ref := info_image_ref info;
                 c_state := info_state info;
                 c_status := None;
                 c_started_at := started;
                 c_finished_at := fin;
                 c_command := info_command info;
                 c_image := i_id <$> Image_get d (String.substring 0 8 (info_image_id info));
                 c_host := host |}) ∧
  (∀ info c, info ∈ infos → containers (session d) !! info_id info = Some c →
     ∃ fin,
       parse_local env (info_finished_at info) = Return fin ∧
       containers (database d') !! info_id info =
         Some {| c_id := c_id c;
                 c_image_ref := c_image_ref c;
                 c_state := info_state info;
                 c_status := c_status c;
                 c_started_at := c_started_at c;
                 c_finished_at := fin;
                 c_command := c_command c;
                 c_image := c_image c;
                 c_host := c_host c |}).
Proof.
  intros Hnd Hrun. rewrite update_host_containers_return in Hrun.
  destruct (reconcile_loop env host infos ∅ d) as [[new|e] d1] eqn:Hloop; [|done].
  injection Hrun as <-. cbn [commit with_session database session].
  pose proof (reconcile_loop_ids env host _ _ _ _ _ Hloop) as Hnew.
  assert (∀ k, k ∈ new ↔ k ∈ map info_id infos) as Hids.
  { intros k. rewrite Hnew, elem_of_snapshot_ids.
    split; [|by left]. intros [H|H]; [done|]. by apply not_elem_of_empty in H. }
  split_and!.
  - intros id c Hc Hh Hid. rewrite delete_missing_lookup.
    rewrite decide_True; [done|]. split; [|by rewrite Hids].
    apply elem_of_previous. eauto.
  - intros info Hin Hnone.
    destruct (reconcile_loop_created env host _ _ _ _ _ _ Hloop Hnd Hin Hnone)
      as (started & fin & Hs & Hf & Hl).
    exists started, fin. split_and!; [done..|].
    rewrite delete_missing_lookup, decide_False; [done|].
    intros [_ Hn]. apply Hn, Hids, list_elem_of_fmap. eauto.
  - intros info c Hin Hc.
    destruct (reconcile_loop_parse env host _ _ _ _ _ _ Hloop Hin) as [fin Hfin].
    exists fin. split; [done|].
    rewrite delete_missing_lookup, decide_False.
    + rewrite (reconcile_loop_existing env host _ _ _ _ _ _ _ Hloop Hc).
      rewrite (last_for_NoDup _ _ Hnd Hin). unfold finished_of. by rewrite Hfin.
    + intros [_ Hn]. apply Hn, Hids, list_elem_of_fmap. eauto.
Qed.


(** C10: after a run that returns normally, a row that was there before and
    whose id is in the snapshot has the state and finished_at of a
    descriptor with that id; its id, image_ref, status, started_at, command,
    image and host are as they were. *)
Theorem update_host_containers_existing_frame (env : Env) (host : HostKey)
    (infos : list Info) (d d' : DB) (id : string) (c : Container) :
  update_host_containers env (Wrapper (Return infos)) host d = (Return tt, d') →
  containers (session d) !! id = Some c →
  id ∈ map info_id infos →
  ∃ info fin c',
    info ∈ infos ∧ info_id info = id ∧
    parse_local env (info_finished_at info) = Return fin ∧
    containers (database d') !! id = Some c' ∧
    c_state c' = info_state info ∧ c_finished_at c' = fin ∧
    c_id c' = c_id c ∧ c_image_ref c' = c_image_ref c ∧ c_status c' = c_status c ∧
    c_started_at c' = c_started_at c ∧ c_command c' = c_command c ∧
    c_image c' = c_image c ∧ c_host c' = c_host c.
Proof.
  intros Hrun Hc Hid. rewrite update_host_containers_return in Hrun.
  destruct (reconcile_loop env host infos ∅ d) as [[new|e] d1] eqn:Hloop; [|done].
  injection Hrun as <-. cbn [commit with_session database session].
  destruct (last_for id infos) as [info|] eqn:Hlast.
  - destruct (last_for_Some _ _ _ Hlast) as [Hin Heq].
    destruct (reconcile_loop_parse env host _ _ _ _ _ _ Hloop Hin) as [fin Hfin].
    exists info, fin, (set_state_finished (info_state info) fin c).
    split_and!; try done.
    rewrite delete_missing_lookup, decide_False.
    + rewrite (reconcile_loop_existing env host _ _ _ _ _ _ _ Hloop Hc), Hlast.
      unfold finished_of. by rewrite Hfin.
    + intros [_ Hn]. apply Hn.
      rewrite (reconcile_loop_ids env host _ _ _ _ _ Hloop), elem_of_snapshot_ids. by left.
  - apply last_for_None in Hlast. done.
Qed.

(** C3: running [update_host_containers] again with the same answer of the
    host (no wrapper, a snapshot, or a fetch that raises) gives the same
    result and leaves the committed and the working state exactly as the
    first run left them. *)
Theorem update_host_containers_idempotent (env : Env) (host_answer : HostAnswer)
    (host : HostKey) (d : DB) :
  update_host_containers env host_answer host
    (update_host_containers env host_answer host d).2 =
  update_host_containers env host_answer host d.
Proof.
  destruct host_answer as [e|[infos|e]].
  - reflexivity.
  - apply update_host_containers_idempotent_return.
  - apply update_host_containers_idempotent_raise.
Qed.

Lemma update_host_containers_diff_witness :
  ∃ d',
    update_host_containers sample_env (Wrapper (Return [info_c0; info_c1; info_c2])) h1 sample_db
      = (Return tt, d') ∧
    containers (database d') !! "c8" = None ∧
    (∃ started fin,
       parse_local sample_env (info_started_at info_c1) = Return started ∧
       parse_local sample_env (info_finished_at info_c1) = Return fin ∧
       containers (database d') !! "c1" =
         Some {| c_id := "c1"; c_image_ref := "acme/web:v1"; c_state := "running";
                 c_status := None; c_started_at := started; c_finished_at := fin;
                 c_command := Some "serve"; c_image := Some "0123abcd";
                 c_host := h1 |}) ∧
    (∃ fin,
       parse_local sample_env (info_finished_at info_c0) = Return fin ∧
       containers (database d') !! "c0" =
         Some {| c_id := "c0"; c_image_ref := "acme/web:v1"; c_state := "exited";
                 c_status := Some "up"; c_started_at := 1433152800;
                 c_finished_at := fin; c_command := Some "serve";
                 c_image := Some "0123abcd"; c_host := h1 |}).
Proof.
  exists (update_host_containers sample_env (Wrapper (Return [info_c0; info_c1; info_c2]))
            h1 sample_db).2.
  assert (update_host_containers sample_env (Wrapper (Return [info_c0; info_c1; info_c2]))
            h1 sample_db
          = (Return tt, (update_host_containers sample_env
                           (Wrapper (Return [info_c0; info_c1; info_c2])) h1 sample_db).2))
    as Hrun by (vm_compute; reflexivity).
  split; [exact Hrun|].
  assert (NoDup (map info_id [info_c0; info_c1; info_c2])) as Hnd.
  { cbn [map info_id info_c0 info_c1 info_c2].
    repeat (apply NoDup_cons; split;
            [intros H; repeat (apply elem_of_cons in H as [H|H]; [discriminate|]);
             by apply elem_of_nil in H|]).
    apply NoDup_nil_2. }
  destruct (update_host_containers_diff sample_env h1 [info_c0; info_c1; info_c2]
              sample_db _ Hnd Hrun) as (Hdel & Hnew & Hupd).
  split; [|split].
  - apply (Hdel "c8" c8); [vm_compute; reflexivity|reflexivity|].
    cbn [map info_id info_c0 info_c1 info_c2]. intros H.
    repeat (apply elem_of_cons in H as [H|H]; [discriminate|]).
    by apply elem_of_nil in H.
  - apply (Hnew info_c1); [by right; left|vm_compute; reflexivity].
  - apply (Hupd info_c0 c0); [by left|vm_compute; reflexivity].
Defined.


Lemma update_host_containers_existing_frame_witness :
  ∃ d',
    update_host_containers sample_env (Wrapper (Return [info_c0; info_c1; info_c2])) h1 sample_db
      = (Return tt, d') ∧
    ∃ info fin c',
      info ∈ [info_c0; info_c1; info_c2] ∧ info_id info = "c0" ∧
      parse_local sample_env (info_finished_at info) = Return fin ∧
      containers (database d') !! "c0" = Some c' ∧
      c_state c' = info_state info ∧ c_finished_at c' = fin ∧
      c_id c' = c_id c0 ∧ c_image_ref c' = c_image_ref c0 ∧ c_status c' = c_status c0 ∧
      c_started_at c' = c_started_at c0 ∧ c_command c' = c_command c0 ∧
      c_image c' = c_image c0 ∧ c_host c' = c_host c0.
Proof.
  exists (update_host_containers sample_env (Wrapper (Return [info_c0; info_c1; info_c2]))
            h1 sample_db).2.
  assert (update_host_containers sample_env (Wrapper (Return [info_c0; info_c1; info_c2]))
            h1 sample_db
          = (Return tt, (update_host_containers sample_env
                           (Wrapper (Return [info_c0; info_c1; info_c2])) h1 sample_db).2))
    as Hrun by (vm_compute; reflexivity).
  split; [exact Hrun|].
  apply (update_host_containers_existing_frame sample_env h1 _ sample_db _ "c0" c0 Hrun);
    [vm_compute; reflexivity|by left].
Defined.

(** * The Health Prober *)

Section Prober.
Context (env : Env).

Lemma check_app_status_loop_S url timeout attempts last w :
  check_app_status_loop env url timeout (S attempts) last w =
    match requests_get env (length (trace w)) url timeout with
    | Return r => (Return (if ok r then "up" else "down"),
                   {| db := db w; trace := trace w ++ [EvGet url timeout] |})
    | Raise e => check_app_status_loop env url timeout attempts (Some e)
                   {| db := db w; trace := trace w ++ [EvGet url timeout; EvSleep 5] |}
    end.
Proof.
  cbn [check_app_status_loop]. unfold mbind, M_bind, bind, now, gets, emit, modify.
  cbn [db trace].
  destruct (requests_get env (length (trace w)) url timeout) as [r|e].
  - by destruct (ok r).
  - cbn [db trace]. by rewrite <- app_assoc.
Qed.

(** A probe of which the first [fails] requests raise and the next one is
    answered. *)
Lemma check_app_status_loop_response url timeout fails : ∀ attempts last w r,
  (fails < attempts)%nat →
  (∀ i, (i < fails)%nat →
     ∃ e, requests_get env (length (trace w) + 2 * i)%nat url timeout = Raise e) →
  requests_get env (length (trace w) + 2 * fails)%nat url timeout = Return r →
  check_app_status_loop env url timeout attempts last w =
    (Return (if ok r then "up" else "down"),
     {| db := db w;
        trace := trace w ++ concat (replicate fails [EvGet url timeout; EvSleep 5])
                   ++ [EvGet url timeout] |}).
Proof.
  induction fails as [|fails IH]; intros attempts last w r Hlt Hfail Hresp.
  - destruct attempts as [|attempts]; [lia|].
    rewrite check_app_status_loop_S.
    replace (length (trace w) + 2 * 0)%nat with (length (trace w)) in Hresp by lia.
    by rewrite Hresp.
  - destruct attempts as [|attempts]; [lia|].
    rewrite check_app_status_loop_S.
    destruct (Hfail 0%nat) as [e He]; [lia|].
    replace (length (trace w) + 2 * 0)%nat with (length (trace w)) in He by lia.
    rewrite He.
    rewrite (IH attempts (Some e) _ r); cbn [db trace].
    + f_equal. f_equal. cbn [replicate concat]. by rewrite <- !app_assoc.
    + lia.
    + intros i Hi. destruct (Hfail (S i)) as [e' He']; [lia|]. exists e'.
      rewrite length_app. cbn [length]. rewrite <- He'. f_equal. lia.
    + rewrite length_app. cbn [length]. rewrite <- Hresp. f_equal. lia.
Qed.

(** A probe of which every request raises. *)
Lemma check_app_status_all_attempts_fail url w e1 e2 e3 :
  requests_get env (length (trace w)) url 10 = Raise e1 →
  requests_get env (length (trace w) + 2)%nat url 10 = Raise e2 →
  requests_get env (length (trace w) + 4)%nat url 10 = Raise e3 →
  _check_app_status env url 10 3 w =
    (Raise e3,
     {| db := db w;
        trace := trace w ++ [EvGet url 10; EvSleep 5; EvGet url 10; EvSleep 5;
                             EvGet url 10; EvSleep 5] |}).
Proof.
  intros H1 H2 H3. unfold _check_app_status.
  change (Z.to_nat 3) with 3%nat.
  rewrite check_app_status_loop_S, H1. cbn [db trace].
  rewrite check_app_status_loop_S. cbn [db trace].
  rewrite length_app. cbn [length]. rewrite H2.
  rewrite check_app_status_loop_S. cbn [db trace].
  rewrite !length_app. cbn [length].
  replace (length (trace w) + 2 + 2)%nat with (length (trace w) + 4)%nat by lia.
  rewrite H3. cbn [check_app_status_loop]. unfold raise.
  by rewrite <- !app_assoc.
Qed.

(** A probe leaves the database alone and adds only requests to its URL and
    sleeps to the trace, and at least one request when it has an attempt. *)
Lemma check_app_status_loop_frame url timeout attempts : ∀ last w,
  ∃ evs,
    (check_app_status_loop env url timeout attempts last w).2 =
      {| db := db w; trace := trace w ++ evs |} ∧
    Forall (λ e, e = EvGet url timeout ∨ e = EvSleep 5) evs ∧
    (attempts ≠ 0%nat → EvGet url timeout ∈ evs).
Proof.
  induction attempts as [|attempts IH]; intros last w.
  - exists []. split_and!; [|done|done].
    rewrite app_nil_r. cbn [check_app_status_loop]. by destruct last, w.
  - rewrite check_app_status_loop_S.
    destruct (requests_get env (length (trace w)) url timeout) as [r|e].
    + exists [EvGet url timeout]. split_and!; [done| |intros _; by left].
      apply Forall_singleton. by left.
    + destruct (IH (Some e) {| db := db w;
                               trace := trace w ++ [EvGet url timeout; EvSleep 5] |})
        as (evs & Heq & Hall & _).
      exists ([EvGet url timeout; EvSleep 5] ++ evs)%list. split_and!.
      * rewrite Heq. cbn [db trace]. by rewrite <- app_assoc.
      * apply Forall_app. split; [|done].
        apply Forall_cons. split; [by left|]. apply Forall_singleton. by right.
      * intros _. apply elem_of_app. left. by left.
Qed.

Lemma alter_missing {A} (f : A → A) (k : string) (m : gmap string A) :
  m !! k = None → alter f k m = m.
Proof.
  intros Hk. apply map_eq. intros j. rewrite lookup_alter.
  case_decide; [subst; by rewrite Hk|done].
Qed.

Lemma world_eq (w1 w2 : World) : db w1 = db w2 → trace w1 = trace w2 → w1 = w2.
Proof. destruct w1, w2; simpl; intros; subst; reflexivity. Qed.

(** What the loop of [update_deployment_status] does for one container. *)
Lemma update_container_status_shape deployment id w :
  ∃ st evs,
    update_container_status env deployment id w =
      (Return tt,
       {| db := with_session (set_containers (alter (set_status st) id)) (db w);
          trace := trace w ++ evs |}) ∧
    probe_segment deployment (Container_get (db w) id) evs ∧
    (∀ c, Container_get (db w) id = Some c → c_state c ≠ "running" → st = "down").
Proof.
  unfold update_container_status, mbind, M_bind, bind, gets.
  destruct (Container_get (db w) id) as [c|] eqn:Hc; unfold probe_segment.
  - destruct (decide (c_state c = "running")) as [Hrun|Hrun]; cbv iota.
    + unfold try_except, _check_app_status.
      destruct (check_app_status_loop_frame (status_url c deployment) 10
                  (Z.to_nat 3) None w) as (evs & Heq & Hall & Hin).
      destruct (check_app_status_loop env (status_url c deployment) 10
                  (Z.to_nat 3) None w) as [[st|e] w1]; cbn [snd] in Heq; subst w1.
      * exists st, evs. split_and!; [done|done|by apply Hin|].
        intros c' Hc'. congruence.
      * exists "down", evs. split_and!; [done|done|by apply Hin|done].
    + exists "down", []. split_and!; [|done|done].
      unfold assign_status, on_db, modify. by rewrite app_nil_r.
  - exists "down", []. split_and!; [|done|done].
    unfold ret. f_equal. apply world_eq; cbn [db trace]; [|by rewrite app_nil_r].
    apply db_eq; [done|]. apply store_eq; try done.
    cbn [with_session session set_containers containers].
    symmetry. by apply alter_missing.
Qed.

Lemma for_each_cons {S A} (x : A) (l : list A) (body : A → M S unit) (s : S) :
  for_each (x :: l) body s =
    match body x s with
    | (Return _, s1) => for_each l body s1
    | (Raise e, s1) => (Raise e, s1)
    end.
Proof. reflexivity. Qed.

Lemma with_status_same c : with_status (c_status c) c = c.
Proof. by destruct c. Qed.

Lemma probe_segment_set_status deployment st o evs :
  probe_segment deployment (set_status st <$> o) evs ↔ probe_segment deployment o evs.
Proof. by destruct o. Qed.

Lemma Container_get_assign w st id evs k :
  Container_get
    (db {| db := with_session (set_containers (alter (set_status st) id)) (db w);
           trace := evs |}) k =
    if decide (id = k) then set_status st <$> Container_get (db w) k
    else Container_get (db w) k.
Proof.
  unfold Container_get. cbn [db with_session session set_containers containers].
  rewrite lookup_alter. by case_decide; subst.
Qed.

(** The loop of [update_deployment_status]: it never raises, every
    container adds its own segment to the trace, and only the status of the
    rows changes. *)
Lemma update_deployment_status_loop deployment cs : ∀ w,
  ∃ w' (evss : list (list Event)),
    for_each cs (update_container_status env deployment) w = (Return tt, w') ∧
    trace w' = (trace w ++ concat evss)%list ∧
    Forall2 (λ id evs, probe_segment deployment (Container_get (db w) id) evs) cs evss ∧
    ∀ k, match Container_get (db w) k with
         | None => Container_get (db w') k = None
         | Some c =>
             ∃ st', Container_get (db w') k = Some (with_status st' c) ∧
                    (k ∉ cs → st' = c_status c) ∧
                    (k ∈ cs → c_state c ≠ "running" → st' = Some "down")
         end.
Proof.
  induction cs as [|id rest IH]; intros w.
  - exists w, []. split_and!; [done|by rewrite app_nil_r|constructor|].
    intros k. destruct (Container_get (db w) k) as [c|]; [|done].
    exists (c_status c). rewrite with_status_same. split_and!; [done|done|].
    intros Hk. by apply elem_of_nil in Hk.
  - destruct (update_container_status_shape deployment id w)
      as (st & evs & Hstep & Hseg & Hdown).
    rewrite for_each_cons, Hstep.
    destruct (IH {| db := with_session (set_containers (alter (set_status st) id)) (db w);
                    trace := trace w ++ evs |})
      as (w' & evss & Hloop & Htrace & Hsegs & Hkeys).
    exists w', (evs :: evss). split_and!; [done| | |].
    + rewrite Htrace. cbn [trace concat]. by rewrite <- app_assoc.
    + constructor; [done|].
      eapply Forall2_impl; [exact Hsegs|]. intros id' evs' Hs. cbn beta in *.
      rewrite Container_get_assign in Hs.
      case_decide; [by apply probe_segment_set_status in Hs|done].
    + intros k. specialize (Hkeys k). rewrite Container_get_assign in Hkeys.
      destruct (Container_get (db w) k) as [c|] eqn:Hc.
      * destruct (decide (id = k)) as [->|Hne]; cbn [fmap option_fmap option_map] in Hkeys.
        -- destruct Hkeys as (st' & Hget & Hout & Hin).
           exists st'. split_and!; [done| |].
           ++ intros Hk. exfalso. apply Hk. by left.
           ++ intros _ Hnr. destruct (decide (k ∈ rest)) as [Hr|Hr]; [by apply Hin|].
              rewrite (Hout Hr). cbn [set_status c_status]. f_equal. by eapply Hdown.
        -- destruct Hkeys as (st' & Hget & Hout & Hin).
           exists st'. split_and!; [done| |].
           ++ intros Hk. apply Hout. intros Hr. apply Hk. by right.
           ++ intros Hk Hnr. apply Hin; [|done].
              apply elem_of_cons in Hk as [->|Hk]; [done|done].
      * by destruct (decide (id = k)).
Qed.
End Prober.

(** Scenario: status_port 8080, status_endpoint "health", host "h1". *)
Example status_url_example : status_url c0 web_prod = "http://h1:8080/health".
Proof. reflexivity. Qed.

(** C4 (worker.py, lines 100-114 and 132-138), at a probe whose three
    requests all time out: three requests are made, the last exception is
    raised and the caller sets the status to 'down', but the probe sleeps
    after the third request too: 15 seconds of sleep, and 45 seconds when
    every request uses up its timeout, which is more than 3*10 + 2*5. *)
Theorem check_app_status_sleeps_after_last_attempt :
  ∃ w',
    _check_app_status timeout_env "http://h1:8080/health" 10 3 sample_world
      = (Raise timeout_error, w') ∧
    trace w' = [EvGet "http://h1:8080/health" 10; EvSleep 5;
                EvGet "http://h1:8080/health" 10; EvSleep 5;
                EvGet "http://h1:8080/health" 10; EvSleep 5] ∧
    slept (trace w') = 15 ∧
    longest_wait (trace w') = 45 ∧
    ¬ (longest_wait (trace w') ≤ 3 * 10 + 2 * 5) ∧
    c_status <$> Container_get
      (db (update_container_status timeout_env web_prod "c0" sample_world).2) "c0"
      = Some (Some "down").
Proof.
  eexists. split; [reflexivity|]. split; [reflexivity|].
  split; [reflexivity|]. split; [reflexivity|]. split; [|vm_compute; reflexivity].
  vm_compute. intros H. apply H. reflexivity.
Qed.

(** C5: when the first [fails] requests of a probe raise and the next one,
    within the retry bound, is answered, the probe returns 'up' for a
    success and 'down' otherwise; that request is the last event of the
    probe, and before it there is one request and one sleep for each failure
    and nothing else. A response to the first request makes it the only
    event. *)
Theorem check_app_status_returns_on_response (env : Env) (url : string)
    (timeout retry : Z) (w : World) (fails : nat) (r : Response) :
  (fails < Z.to_nat retry)%nat →
  (∀ i, (i < fails)%nat →
     ∃ e, requests_get env (length (trace w) + 2 * i)%nat url timeout = Raise e) →
  requests_get env (length (trace w) + 2 * fails)%nat url timeout = Return r →
  _check_app_status env url timeout retry w =
    (Return (if ok r then "up" else "down"),
     {| db := db w;
        trace := trace w ++ concat (replicate fails [EvGet url timeout; EvSleep 5])
                   ++ [EvGet url timeout] |}).
Proof.
  intros Hlt Hfail Hresp. unfold _check_app_status.
  by apply check_app_status_loop_response.
Qed.

Lemma elem_of_concat {A} (x : A) (ls : list (list A)) :
  x ∈ concat ls ↔ ∃ l, x ∈ l ∧ l ∈ ls.
Proof.
  induction ls as [|l0 ls IH]; cbn [concat].
  - split; [by intros ?%elem_of_nil|]. by intros (l & _ & ?%elem_of_nil).
  - rewrite elem_of_app, IH. split.
    + intros [H|(l & H1 & H2)].
      * exists l0. split; [done|]. apply elem_of_cons. by left.
      * exists l. split; [done|]. apply elem_of_cons. by right.
    + intros (l & H1 & [->|H2]%elem_of_cons); [by left|]. right. by exists l.
Qed.

(** C6 (worker.py, lines 120-142): [update_deployment_status] returns
    normally; the events it adds are, container by container in the order of
    deployment.containers, nothing for a container that is not running and
    requests (at least one) and sleeps for a running one. Every request has
    timeout 10 and goes to
    "http://" + host.hostname + ":" + str(status_port) + "/" + status_endpoint
    of a running container of the deployment, the port in decimal, and
    every running container of the deployment gets such a request: for
    status_port 8080, status_endpoint "health" and a running container on
    host "h1" it is a GET of http://h1:8080/health. Every container that is
    not running is committed with status 'down' and is otherwise as it was. *)
Theorem update_deployment_status_probes_running_only (env : Env)
    (deployment : Deployment) (w : World) :
  ∃ w' (evss : list (list Event)),
    update_deployment_status env deployment w = (Return tt, w') ∧
    trace w' = (trace w ++ concat evss)%list ∧
    Forall2 (λ id evs, probe_segment deployment (Container_get (db w) id) evs)
            (containers_of_deployment w deployment) evss ∧
    (∀ url timeout,
       EvGet url timeout ∈ concat evss →
       timeout = 10 ∧
       ∃ id c,
         id ∈ containers_of_deployment w deployment ∧
         Container_get (db w) id = Some c ∧
         c_state c = "running" ∧
         url = "http://" +:+ fst (c_host c) +:+ ":" +:+
               NilZero.string_of_int (Z.to_int (d_status_port deployment)) +:+
               "/" +:+ d_status_endpoint deployment) ∧
    (∀ id c,
       id ∈ containers_of_deployment w deployment →
       Container_get (db w) id = Some c →
       c_state c = "running" →
       EvGet ("http://" +:+ fst (c_host c) +:+ ":" +:+
              NilZero.string_of_int (Z.to_int (d_status_port deployment)) +:+
              "/" +:+ d_status_endpoint deployment) 10 ∈ concat evss) ∧
    (∀ id c,
       id ∈ containers_of_deployment w deployment →
       Container_get (db w) id = Some c →
       c_state c = "running" →
       fst (c_host c) = "h1" →
       d_status_port deployment = 8080 →
       d_status_endpoint deployment = "health" →
       EvGet "http://h1:8080/health" 10 ∈ concat evss) ∧
    ∀ id c,
      id ∈ containers_of_deployment w deployment →
      Container_get (db w) id = Some c →
      c_state c ≠ "running" →
      containers (database (db w')) !! id = Some (with_status (Some "down") c).
Proof.
  destruct (update_deployment_status_loop env deployment
              (containers_of_deployment w deployment) w)
    as (w1 & evss & Hloop & Htrace & Hsegs & Hkeys).
  assert (∀ id c,
            id ∈ containers_of_deployment w deployment →
            Container_get (db w) id = Some c →
            c_state c = "running" →
            EvGet ("http://" +:+ fst (c_host c) +:+ ":" +:+
                   NilZero.string_of_int (Z.to_int (d_status_port deployment)) +:+
                   "/" +:+ d_status_endpoint deployment) 10 ∈ concat evss) as Hprobed.
  { intros id c Hin Hc Hrunning.
    apply list_elem_of_lookup in Hin as [i Hi].
    destruct (Forall2_lookup_l _ _ _ _ _ Hsegs Hi) as (evs & Hevs & Hseg).
    rewrite Hc in Hseg. cbn in Hseg. rewrite decide_True in Hseg by done.
    destruct Hseg as [_ Hget]. apply elem_of_concat. exists evs.
    split; [exact Hget|]. by eapply list_elem_of_lookup_2. }
  exists {| db := commit (db w1); trace := trace w1 |}, evss. split_and!.
  - unfold update_deployment_status, mbind, M_bind, bind, gets.
    rewrite Hloop. reflexivity.
  - done.
  - done.
  - intros url timeout (evs & Hget & Hevs)%elem_of_concat.
    apply list_elem_of_lookup in Hevs as [i Hi].
    destruct (Forall2_lookup_r _ _ _ _ _ Hsegs Hi) as (id & Hid & Hseg).
    destruct (Container_get (db w) id) as [c|] eqn:Hc; cbn in Hseg;
      [|subst evs; by apply elem_of_nil in Hget].
    destruct (decide (c_state c = "running")) as [Hrunning|_];
      [|subst evs; by apply elem_of_nil in Hget].
    destruct Hseg as [Hall _]. rewrite Forall_forall in Hall.
    destruct (Hall _ Hget) as [[= -> ->]|[=]].
    split; [done|]. exists id, c. split_and!; try done.
    by eapply list_elem_of_lookup_2.
  - exact Hprobed.
  - intros id c Hin Hc Hrunning Hhost Hport Hendpoint.
    specialize (Hprobed id c Hin Hc Hrunning).
    by rewrite Hhost, Hport, Hendpoint in Hprobed.
  - intros id c Hin Hc Hnr. specialize (Hkeys id). rewrite Hc in Hkeys.
    destruct Hkeys as (st' & Hget & _ & Hdown).
    cbn [db commit database]. unfold Container_get in Hget.
    by rewrite Hget, (Hdown Hin Hnr).
Qed.

Lemma check_app_status_returns_on_response_witness :
  _check_app_status sample_env "http://h1:8080/health" 10 3 sample_world =
    (Return (if ok {| status_code := 200 |} then "up" else "down"),
     {| db := db sample_world;
        trace := trace sample_world
                   ++ concat (replicate 0 [EvGet "http://h1:8080/health" 10; EvSleep 5])
                   ++ [EvGet "http://h1:8080/health" 10] |}).
Proof.
  apply (check_app_status_returns_on_response sample_env "http://h1:8080/health"
           10 3 sample_world 0 {| status_code := 200 |}).
  - vm_compute. lia.
  - intros i Hi. lia.
  - reflexivity.
Defined.

(** A 500 on the first request: one request, no sleep, 'down'. *)
Example check_app_status_server_error :
  _check_app_status server_error_env "http://h1:8080/health" 10 3 sample_world =
    (Return "down",
     {| db := sample_db; trace := [EvGet "http://h1:8080/health" 10] |}).
Proof. reflexivity. Qed.

(** * The Fleet Sync Orchestrator *)

Section Rules.
Context {S : Type}.
Implicit Types P : S → Prop.

Lemma triple_conseq {A} P P' (m : M S A) Q Q' E E' :
  triple P' m Q' E' →
  (∀ s, P s → P' s) → (∀ a s, Q' a s → Q a s) → (∀ e s, E' e s → E e s) →
  triple P m Q E.
Proof.
  intros Hm HP HQ HE s Hs. specialize (Hm s (HP s Hs)).
  destruct (m s) as [[a|e] s']; auto.
Qed.

Lemma triple_ret {A} P (a : A) Q E :
  (∀ s, P s → Q a s) → triple P (mret a) Q E.
Proof. intros H s Hs. by apply H. Qed.

Lemma triple_bind {A B} P (m : M S A) (k : A → M S B) Q1 Q E :
  triple P m Q1 E → (∀ a, triple (Q1 a) (k a) Q E) → triple P (m ≫= k) Q E.
Proof.
  intros Hm Hk s Hs. unfold mbind, M_bind, bind. specialize (Hm s Hs).
  destruct (m s) as [[a|e] s']; [by apply Hk|done].
Qed.

Lemma triple_try_except {A} P (m : M S A) (h : PyExn → M S A) Q E1 E :
  triple P m Q E1 → (∀ e, triple (E1 e) (h e) Q E) → triple P (try_except m h) Q E.
Proof.
  intros Hm Hh s Hs. unfold try_except. specialize (Hm s Hs).
  destruct (m s) as [[a|e] s']; [done|by apply Hh].
Qed.

Lemma triple_gets {A} P (f : S → A) Q E :
  (∀ s, P s → Q (f s) s) → triple P (gets f) Q E.
Proof. intros H s Hs. by apply H. Qed.

Lemma triple_modify P (f : S → S) Q E :
  (∀ s, P s → Q tt (f s)) → triple P (modify f) Q E.
Proof. intros H s Hs. by apply H. Qed.

Lemma triple_answer {A} P (r : Result A) Q E :
  (∀ s, P s → match r with Return a => Q a s | Raise e => E e s end) →
  triple P (answer r) Q E.
Proof. intros H s Hs. unfold answer. specialize (H s Hs). by destruct r. Qed.

(** A loop with an invariant indexed by the elements done so far. *)
Lemma triple_for_each {A} (J : list A → S → Prop) (body : A → M S unit) E l :
  (∀ pre x, triple (J pre) (body x) (λ _, J (pre ++ [x])%list) E) →
  ∀ pre, triple (J pre) (for_each l body) (λ _, J (pre ++ l)%list) E.
Proof.
  intros Hbody. induction l as [|x l IH]; intros pre.
  - apply triple_ret. intros s Hs. by rewrite app_nil_r.
  - cbn [for_each]. eapply triple_bind; [apply Hbody|]. intros [].
    eapply triple_conseq; [apply (IH (pre ++ [x])%list)|done| |done].
    intros a s Hs. by rewrite <- app_assoc in Hs.
Qed.

Lemma triple_for_each_inv {A} P (body : A → M S unit) E l :
  (∀ x, triple P (body x) (λ _, P) E) →
  triple P (for_each l body) (λ _, P) E.
Proof.
  intros Hbody. apply (triple_for_each (λ _, P) body E l (λ _, Hbody) []).
Qed.
End Rules.

Lemma triple_emit P (e : Event) Q E :
  (∀ w, P w → Q tt {| db := db w; trace := trace w ++ [e] |}) →
  triple P (emit e) Q E.
Proof. intros H. by apply triple_modify. Qed.

Lemma triple_on_db {A} (P' : DB → Prop) (T : list Event → Prop) (m : M DB A) Q' E' :
  triple P' m Q' E' →
  triple (λ w, P' (db w) ∧ T (trace w)) (on_db m)
         (λ a w, Q' a (db w) ∧ T (trace w)) (λ e w, E' e (db w) ∧ T (trace w)).
Proof.
  intros Hm w [HP HT]. unfold on_db. specialize (Hm (db w) HP).
  by destruct (m (db w)) as [[a|e] d'].
Qed.

Lemma unit_calls_app tr1 tr2 :
  unit_calls (tr1 ++ tr2) = (unit_calls tr1 ++ unit_calls tr2)%list.
Proof. apply omap_app. Qed.

Lemma calls_since_refl tr0 : calls_since tr0 [] tr0.
Proof. exists []. by rewrite app_nil_r. Qed.

Lemma calls_since_quiet tr0 cs tr evs :
  unit_calls evs = [] → calls_since tr0 cs tr → calls_since tr0 cs (tr ++ evs).
Proof.
  intros He (evs0 & -> & Hcs). exists (evs0 ++ evs)%list.
  split; [by rewrite app_assoc|]. by rewrite unit_calls_app, He, Hcs, app_nil_r.
Qed.

Lemma calls_since_call tr0 cs tr m :
  unit_calls [EvCall m] = [m] →
  calls_since tr0 cs tr → calls_since tr0 (cs ++ [m]) (tr ++ [EvCall m]).
Proof.
  intros He (evs0 & -> & Hcs). exists (evs0 ++ [EvCall m])%list.
  split; [by rewrite app_assoc|]. by rewrite unit_calls_app, He, Hcs.
Qed.

Lemma unit_calls_probe url timeout evs :
  Forall (λ e, e = EvGet url timeout ∨ e = EvSleep 5) evs → unit_calls evs = [].
Proof.
  induction 1 as [|e evs [->| ->] _ IH]; [done|exact IH|exact IH].
Qed.

Section Pass.
Context (env : Env) (sk : list string * list Deployment).

Lemma fleet_with_session f d :
  (∀ s, skeleton (f s) = skeleton s) → fleet sk d → fleet sk (with_session f d).
Proof. intros Hf [Hs Hd]. split; [|done]. cbn. by rewrite Hf. Qed.

Lemma fleet_commit d : fleet sk d → fleet sk (commit d) ∧ clean (commit d).
Proof. by intros [Hs Hd]. Qed.

Lemma fleet_rollback d : fleet sk d → fleet sk (rollback d) ∧ clean (rollback d).
Proof. by intros [Hs Hd]. Qed.

Lemma skeleton_delete_missing previous new s :
  skeleton (delete_missing previous new s) = skeleton s.
Proof.
  destruct (delete_missing_rest previous new s) as (_ & _ & Ha & Hd).
  unfold skeleton. by rewrite Ha, Hd.
Qed.

Lemma skeleton_append_app_image app_name layer s :
  skeleton (append_app_image app_name layer s) = skeleton s.
Proof.
  unfold skeleton. cbn. f_equal. rewrite map_map. apply map_ext.
  intros a. by case_decide.
Qed.

(** The State Reconciler keeps the apps and deployments; when it returns,
    nothing is left uncommitted. *)
Lemma update_host_containers_fleet host_answer host :
  triple (fleet sk) (update_host_containers env host_answer host)
         (λ _ d, fleet sk d ∧ clean d) (λ _ d, fleet sk d).
Proof.
  intros d Hd. destruct host_answer as [e|[infos|e]].
  - done.
  - rewrite update_host_containers_return.
    destruct (reconcile_loop env host infos ∅ d) as [[new|e] d'] eqn:Hloop;
      apply reconcile_loop_frame in Hloop; rewrite Hloop.
    + apply fleet_commit, fleet_with_session; [apply skeleton_delete_missing|].
      by apply fleet_with_session.
    + by apply fleet_with_session.
  - rewrite update_host_containers_raise.
    apply fleet_commit, fleet_with_session; [apply skeleton_delete_missing|].
    by apply fleet_with_session.
Qed.

Context (tr0 : list Event).

Lemma run_update_host_containers_pass cs host :
  triple (pass_state sk tr0 cs) (run_update_host_containers env host)
         (λ _ w, pass_state sk tr0 cs w ∧ clean (db w))
         (λ _, pass_state sk tr0 cs).
Proof.
  unfold run_update_host_containers.
  eapply triple_bind.
  { apply triple_emit with (Q := λ _, pass_state sk tr0 cs).
    intros w [Hf Hc]. split; [done|]. by apply calls_since_quiet. }
  intros ?. eapply triple_bind.
  { apply triple_gets with (Q := λ _, pass_state sk tr0 cs). done. }
  intros t.
  assert (∀ host_answer,
            triple (pass_state sk tr0 cs)
              (on_db (update_host_containers env host_answer host))
              (λ _ w, pass_state sk tr0 cs w ∧ clean (db w))
              (λ _, pass_state sk tr0 cs)) as Hbody.
  { intros host_answer. eapply triple_conseq.
    - apply (triple_on_db (fleet sk) (calls_since tr0 cs)),
        update_host_containers_fleet.
    - done.
    - intros ? w [[Hf Hcl] Hc]. done.
    - done. }
  destruct (docker_wrapper env t host) as [[]|e]; [|apply Hbody].
  eapply triple_bind; [|intros ?; apply Hbody].
  apply triple_emit with (Q := λ _, pass_state sk tr0 cs).
  intros w [Hf Hc]. split; [done|]. by apply calls_since_quiet.
Qed.

Lemma on_db_pass {A} cs (m : M DB A) :
  triple (fleet sk) m (λ _, fleet sk) (λ _, fleet sk) →
  triple (pass_state sk tr0 cs) (on_db m)
         (λ _, pass_state sk tr0 cs) (λ _, pass_state sk tr0 cs).
Proof.
  intros Hm. eapply triple_conseq;
    [apply (triple_on_db (fleet sk) (calls_since tr0 cs)), Hm|done..].
Qed.

Lemma check_app_status_pass cs url timeout retry :
  triple (pass_state sk tr0 cs) (_check_app_status env url timeout retry)
         (λ _, pass_state sk tr0 cs) (λ _, pass_state sk tr0 cs).
Proof.
  intros w [Hf Hc]. unfold _check_app_status.
  destruct (check_app_status_loop_frame env url timeout (Z.to_nat retry) None w)
    as (evs & Heq & Hall & _).
  destruct (check_app_status_loop env url timeout (Z.to_nat retry) None w)
    as [[st|e] w1]; cbn [snd] in Heq; subst w1;
    (split; [done|]); eapply calls_since_quiet; eauto using unit_calls_probe.
Qed.

Lemma assign_status_pass cs c_id st E :
  triple (pass_state sk tr0 cs) (assign_status c_id st)
         (λ _, pass_state sk tr0 cs) E.
Proof. intros w [Hf Hc]. split; [|done]. by apply fleet_with_session. Qed.

Lemma update_container_status_pass cs deployment c_id E :
  triple (pass_state sk tr0 cs) (update_container_status env deployment c_id)
         (λ _, pass_state sk tr0 cs) E.
Proof.
  unfold update_container_status. eapply triple_bind.
  { apply triple_gets with (Q := λ _, pass_state sk tr0 cs). done. }
  intros [c|]; [|by apply triple_ret].
  case_decide; [|apply assign_status_pass].
  eapply triple_try_except.
  - eapply triple_bind; [apply check_app_status_pass|].
    intros st. apply assign_status_pass.
  - intros e. apply assign_status_pass.
Qed.

Lemma commit_pass cs E :
  triple (pass_state sk tr0 cs) (on_db (modify commit))
         (λ _ w, pass_state sk tr0 cs w ∧ clean (db w)) E.
Proof. intros w [Hf Hc]. by destruct (fleet_commit _ Hf). Qed.

Lemma update_deployment_status_pass cs deployment E :
  triple (pass_state sk tr0 cs) (update_deployment_status env deployment)
         (λ _ w, pass_state sk tr0 cs w ∧ clean (db w)) E.
Proof.
  unfold update_deployment_status. eapply triple_bind.
  { apply triple_gets with (Q := λ _, pass_state sk tr0 cs). done. }
  intros ids. eapply triple_bind.
  { apply triple_for_each_inv. intros c_id. apply update_container_status_pass. }
  intros ?. apply commit_pass.
Qed.

Lemma update_deployment_containers_pass cs deployment :
  triple (pass_state sk tr0 cs) (update_deployment_containers env deployment)
         (λ _ w, pass_state sk tr0 cs w ∧ clean (db w))
         (λ _, pass_state sk tr0 cs).
Proof.
  unfold update_deployment_containers. eapply triple_bind.
  { apply triple_for_each_inv. intros host.
    eapply triple_conseq; [apply run_update_host_containers_pass|done| |done].
    by intros ? w [H _]. }
  intros ?. eapply triple_bind.
  { apply triple_gets with (Q := λ _, pass_state sk tr0 cs). done. }
  intros linked. eapply triple_bind; [|intros ?; apply commit_pass].
  apply on_db_pass, triple_for_each_inv. intros c.
  apply triple_modify. intros d Hd. by apply fleet_with_session.
Qed.

Lemma update_deployment_pass cs deployment :
  triple (pass_state sk tr0 cs) (update_deployment env deployment)
    (λ _ w, pass_state sk tr0 (cs ++ [m_update_deployment (deployment_key deployment)]) w
            ∧ clean (db w))
    (λ _, pass_state sk tr0 (cs ++ [m_update_deployment (deployment_key deployment)])).
Proof.
  unfold update_deployment. eapply triple_bind.
  { apply triple_emit with
      (Q := λ _, pass_state sk tr0
                   (cs ++ [m_update_deployment (deployment_key deployment)])).
    intros w [Hf Hc]. split; [done|]. by apply calls_since_call. }
  intros ?. eapply triple_bind.
  { eapply triple_conseq;
      [apply update_deployment_containers_pass|done| |done].
    intros ? w [H _]. exact H. }
  intros ?. apply update_deployment_status_pass.
Qed.

Lemma update_app_image_fleet app_name image_info E :
  triple (fleet sk) (update_app_image env app_name image_info) (λ _, fleet sk) E.
Proof.
  unfold update_app_image. eapply triple_bind.
  { apply triple_gets with (Q := λ _, fleet sk). done. }
  intros image. eapply triple_bind.
  { apply triple_gets with (Q := λ _, fleet sk). done. }
  intros linked. eapply triple_bind.
  { apply triple_for_each_inv. intros c.
    apply triple_modify. intros d Hd. by apply fleet_with_session. }
  intros ?. eapply triple_bind.
  { apply triple_modify with (Q := λ _, fleet sk). intros d Hd.
    apply fleet_with_session; [|done]. apply skeleton_append_app_image. }
  intros ?. apply triple_modify. intros d Hd. by apply fleet_with_session.
Qed.

Lemma update_app_images_pass cs app_name :
  triple (pass_state sk tr0 cs) (update_app_images env app_name)
    (λ _ w, pass_state sk tr0 (cs ++ [m_update_app_images app_name]) w ∧ clean (db w))
    (λ _, pass_state sk tr0 (cs ++ [m_update_app_images app_name])).
Proof.
  unfold update_app_images. eapply triple_bind.
  { apply triple_emit with
      (Q := λ _, pass_state sk tr0 (cs ++ [m_update_app_images app_name])).
    intros w [Hf Hc]. split; [done|]. by apply calls_since_call. }
  intros ?. eapply triple_bind.
  { apply triple_gets with
      (Q := λ _, pass_state sk tr0 (cs ++ [m_update_app_images app_name])). done. }
  intros t. eapply triple_bind.
  { apply triple_emit with
      (Q := λ _, pass_state sk tr0 (cs ++ [m_update_app_images app_name])).
    intros w [Hf Hc]. split; [done|]. by apply calls_since_quiet. }
  intros ?. eapply triple_bind.
  { apply triple_answer with
      (Q := λ _, pass_state sk tr0 (cs ++ [m_update_app_images app_name])).
    intros w Hw. by destruct (list_images env t app_name). }
  intros images. eapply triple_bind; [|intros ?; apply commit_pass].
  apply on_db_pass, triple_for_each_inv. intros image_info.
  apply update_app_image_fleet.
Qed.

Lemma update_all_containers_pass cs :
  triple (λ w, pass_state sk tr0 cs w ∧ clean (db w)) (update_all_containers env)
    (λ _ w, pass_state sk tr0 (cs ++ [m_update_all_containers]) w ∧ clean (db w))
    (λ _, pass_state sk tr0 (cs ++ [m_update_all_containers])).
Proof.
  unfold update_all_containers. eapply triple_bind.
  { apply triple_emit with
      (Q := λ _ w, pass_state sk tr0 (cs ++ [m_update_all_containers]) w
                   ∧ clean (db w)).
    intros w [[Hf Hc] Hcl]. split; [|done]. split; [done|].
    by apply calls_since_call. }
  intros ?. eapply triple_bind.
  { apply triple_gets with
      (Q := λ _ w, pass_state sk tr0 (cs ++ [m_update_all_containers]) w
                   ∧ clean (db w)). done. }
  intros all_hosts. apply triple_for_each_inv. intros host.
  eapply triple_conseq;
    [apply run_update_host_containers_pass|by intros w [H _]|done|done].
Qed.

(** A unit that is wrapped never raises, and leaves nothing uncommitted. *)
Lemma isolated_pass P cs body :
  triple P body (λ _ w, pass_state sk tr0 cs w ∧ clean (db w))
         (λ _, pass_state sk tr0 cs) →
  triple P (isolated body) (λ _ w, pass_state sk tr0 cs w ∧ clean (db w))
         (λ _ _, False).
Proof.
  intros Hbody. unfold isolated. eapply triple_try_except; [exact Hbody|].
  intros e w [Hf Hc]. by destruct (fleet_rollback _ Hf).
Qed.
End Pass.

(** What the wrapper of a unit does when the unit raises. *)
Lemma isolated_rollback (body : M World unit) w e w1 :
  body w = (Raise e, w1) →
  isolated body w = (Return tt, {| db := rollback (db w1); trace := trace w1 |}).
Proof. intros H. unfold isolated, try_except. by rewrite H. Qed.

Section Orchestrator.
Context (env : Env).

(** The body of the loop over the apps: the image sync and every deployment
    of the app are entered, whatever fails. *)
Lemma update_all_app_pass sk tr0 cs app_name :
  triple (λ w, pass_state sk tr0 cs w ∧ clean (db w))
    (isolated (update_app_images env app_name) ;;
     ds ← gets (λ w, app_deployments w app_name);
     for_each ds (λ deployment, isolated (update_deployment env deployment)))
    (λ _ w, pass_state sk tr0 (cs ++ app_unit_calls sk.2 app_name) w ∧ clean (db w))
    (λ _ _, False).
Proof.
  eapply triple_bind.
  { apply (isolated_pass sk tr0 _ (cs ++ [m_update_app_images app_name])).
    eapply triple_conseq;
      [apply update_app_images_pass|by intros w [H _]|done|done]. }
  intros ?. eapply triple_bind.
  { apply triple_gets with
      (Q := λ ds w, ds = filter (λ d, d_app_name d = app_name) sk.2 ∧
                    pass_state sk tr0 (cs ++ [m_update_app_images app_name]) w ∧
                    clean (db w)).
    intros w [[[Hs Hd] Hc] Hcl]. split; [|done].
    unfold app_deployments. by rewrite <- Hs. }
  intros ds.
  pose (J := λ (pre : list Deployment) (w : World),
          ds = filter (λ d, d_app_name d = app_name) sk.2 ∧
          pass_state sk tr0
            (cs ++ m_update_app_images app_name ::
                   map (λ d, m_update_deployment (deployment_key d)) pre) w ∧
          clean (db w)).
  eapply triple_conseq.
  - apply (triple_for_each J _ (λ _ _, False) ds) with (pre := []).
    intros pre d. unfold J.
    intros w (Hds & Hp & Hcl).
    pose proof (isolated_pass sk tr0
                  (λ w, pass_state sk tr0
                          (cs ++ m_update_app_images app_name ::
                             map (λ d, m_update_deployment (deployment_key d)) pre) w)
                  _ (update_deployment env d)
                  (update_deployment_pass env sk tr0 _ d) w Hp) as H.
    destruct (isolated (update_deployment env d) w) as [[[]|e] w1]; [|done].
    split; [done|]. rewrite map_app. cbn [map].
    rewrite <- app_assoc in H. exact H.
  - intros w (Hds & Hp & Hcl). unfold J. done.
  - intros ? w (Hds & Hp & Hcl). unfold app_unit_calls. by rewrite <- Hds.
  - done.
Qed.

Lemma isolated_after_unit (body : M World unit) w :
  isolated body w = (Return tt, after_unit body w).
Proof.
  unfold isolated, try_except, after_unit, on_db, modify.
  by destruct (body w) as [[[]|e] w1].
Qed.

Lemma isolated_loop_units {A} (unit_of : A → M World unit) l : ∀ w,
  for_each l (λ x, isolated (unit_of x)) w =
    (Return tt, foldl (λ w body, after_unit body w) w (map unit_of l)).
Proof.
  induction l as [|x l IH]; intros w; [done|].
  rewrite for_each_cons, isolated_after_unit. apply IH.
Qed.

(** The body of the loop over the apps, unit by unit. *)
Lemma update_all_app_units sk tr0 cs app_name w :
  pass_state sk tr0 cs w → clean (db w) →
  (isolated (update_app_images env app_name) ;;
   ds ← gets (λ w, app_deployments w app_name);
   for_each ds (λ deployment, isolated (update_deployment env deployment))) w =
    (Return tt, foldl (λ w body, after_unit body w) w (app_units env sk.2 app_name)).
Proof.
  intros Hp Hcl.
  pose proof (isolated_pass sk tr0 (pass_state sk tr0 cs)
                (cs ++ [m_update_app_images app_name])
                (update_app_images env app_name)
                (update_app_images_pass env sk tr0 cs app_name) w Hp) as H.
  unfold mbind, M_bind, bind, gets.
  rewrite isolated_after_unit in H |- *.
  destruct H as [[[Hs _] _] _].
  unfold app_deployments, app_units. cbn [foldl].
  rewrite isolated_loop_units.
  assert (deployments (session (db (after_unit (update_app_images env app_name) w)))
          = sk.2) as -> by by rewrite <- Hs.
  done.
Qed.

Lemma update_all_apps_units sk tr0 names : ∀ cs w,
  pass_state sk tr0 cs w → clean (db w) →
  for_each names (λ app_name,
    isolated (update_app_images env app_name) ;;
    ds ← gets (λ w, app_deployments w app_name);
    for_each ds (λ deployment, isolated (update_deployment env deployment))) w =
    (Return tt,
     foldl (λ w body, after_unit body w) w (flat_map (app_units env sk.2) names)).
Proof.
  induction names as [|app_name names IH]; intros cs w Hp Hcl; [done|].
  rewrite for_each_cons. cbn beta.
  pose proof (update_all_app_pass sk tr0 cs app_name w (conj Hp Hcl)) as H.
  rewrite (update_all_app_units sk tr0 cs app_name w Hp Hcl) in H |- *.
  destruct H as [Hp' Hcl'].
  cbn [flat_map]. rewrite foldl_app. by eapply IH.
Qed.

Lemma update_all_units w :
  update_all env w =
    (Return tt,
     foldl (λ w body, after_unit body w)
           {| db := get_session (db w); trace := trace w |}
           (pass_units env (database (db w)))).
Proof.
  unfold update_all, try_except.
  unfold mbind at 1, M_bind at 1, bind at 1. unfold on_db at 1, modify at 1.
  unfold mbind at 1, M_bind at 1, bind at 1, gets at 1.
  cbn [db trace session get_session].
  unfold mbind at 1, M_bind at 1, bind at 1.
  rewrite (update_all_apps_units (skeleton (database (db w))) (trace w) _ []).
  - rewrite isolated_after_unit. unfold pass_units. by rewrite foldl_app.
  - split; [done|]. apply calls_since_refl.
  - done.
Qed.

(** C8 (worker.py, lines 210-238): a pass always returns; the units it has
    entered are, in order, for every app its image sync and then each of
    its deployments, and at the end the host reconciliation, whatever any
    of them raised. Every unit starts from the world the unit before it
    left: from what that unit did when it returned and, when it raised,
    from what it had committed by then, its uncommitted work rolled back.
    So when the pass ends nothing is left uncommitted. *)
Theorem update_all_isolates_failures (w : World) :
  ∃ w' evs,
    update_all env w = (Return tt, w') ∧
    trace w' = (trace w ++ evs)%list ∧
    unit_calls evs = pass_unit_calls (database (db w)) ∧
    session (db w') = database (db w') ∧
    w' = foldl (λ w body, after_unit body w)
               {| db := get_session (db w); trace := trace w |}
               (pass_units env (database (db w))).
Proof.
  set (sk := skeleton (database (db w))).
  assert (triple (λ w0, w0 = w) (update_all env)
            (λ _ w', pass_state sk (trace w) (pass_unit_calls (database (db w))) w'
                     ∧ clean (db w'))
            (λ _ _, False)) as Hpass.
  { unfold update_all. eapply triple_try_except with (E1 := λ _ _, False); [|done].
    eapply triple_bind with
      (Q1 := λ _ w', pass_state sk (trace w) [] w' ∧ clean (db w')).
    { intros ? ->. cbn. split; [|done]. split; [done|apply calls_since_refl]. }
    intros ?. eapply triple_bind.
    { apply triple_gets with
        (Q := λ names w', names = sk.1 ∧
                          pass_state sk (trace w) [] w' ∧ clean (db w')).
      intros w' [[[Hs Hd] Hc] Hcl]. split; [|done]. by rewrite <- Hs. }
    intros names.
    pose (J := λ (pre : list string) (w' : World),
            names = sk.1 ∧
            pass_state sk (trace w) (flat_map (app_unit_calls sk.2) pre) w' ∧
            clean (db w')).
    eapply triple_bind.
    { apply (triple_for_each J _ (λ _ _, False) names) with (pre := []).
      intros pre app_name. unfold J.
      intros w' (Hn & Hp & Hcl).
      pose proof (update_all_app_pass sk (trace w) _ app_name w' (conj Hp Hcl)) as H.
      match type of H with
      | match ?m w' with _ => _ end => destruct (m w') as [[[]|e] w1]
      end; [|done].
      split; [done|]. by rewrite flat_map_app; cbn [flat_map]; rewrite app_nil_r. }
    intros ?. unfold J. cbn [app].
    apply isolated_pass.
    eapply triple_conseq;
      [apply update_all_containers_pass|by intros w' (-> & Hp & Hcl)|..].
    - intros ? w' H. unfold pass_unit_calls. exact H.
    - intros ? w' H. unfold pass_unit_calls. exact H. }
  specialize (Hpass w eq_refl).
  destruct (update_all env w) as [[[]|e] w'] eqn:Hrun; [|done].
  destruct Hpass as [[_ (evs & Htr & Hcalls)] Hclean].
  exists w', evs. split_and!; try done.
  rewrite update_all_units in Hrun. by injection Hrun as <-.
Qed.
End Orchestrator.

(** A host that cannot be reached does not stop the loop over the hosts:
    that failure is caught inside [update_host_containers]. *)
Example update_all_containers_unreachable_host :
  ∃ w', update_all_containers unreachable_env sample_world = (Return tt, w') ∧
        reconciled_hosts (trace w') = [h1; h2].
Proof. eexists. split; vm_compute; reflexivity. Qed.

(** C9 (worker.py, lines 198-204 and 230-235), at a fleet of two hosts of
    which the first reports a running container, whose zero finished_at
    cannot be converted: [update_all_containers] raises while it reconciles
    h1 and never starts on h2; the whole pass starts a reconciliation of h1
    twice (for the deployment and in the host step) and of h2 never, and the
    rows of h2 stay as they were. Nothing wraps the single hosts, as the try
    blocks of [update_all] wrap the single apps and deployments. *)
Theorem update_all_containers_stops_at_first_failure :
  map host_key (hosts (database sample_db)) = [h1; h2] ∧
  (∃ w', update_all_containers running_env sample_world = (Raise overflow_error, w') ∧
         reconciled_hosts (trace w') = [h1]) ∧
  (∃ w', update_all running_env sample_world = (Return tt, w') ∧
         reconciled_hosts (trace w') = [h1; h1] ∧
         containers (database (db w')) = containers (database sample_db)).
Proof.
  split; [reflexivity|]. split.
  - eexists. split; vm_compute; reflexivity.
  - eexists. split; [vm_compute; reflexivity|]. split; vm_compute; reflexivity.
Qed.

(** * More on the State Reconciler *)

Section ReconcilerMore.
Context (env : Env) (host : HostKey).

Lemma reconcile_loop_database infos new d r d' :
  reconcile_loop env host infos new d = (r, d') → database d' = database d.
Proof. intros H. apply reconcile_loop_frame in H. by rewrite H. Qed.

Lemma reconcile_info_raise info d e d' :
  reconcile_info env host info d = (Raise e, d') →
  parse_local env (info_started_at info) = Raise e ∨
  parse_local env (info_finished_at info) = Raise e.
Proof.
  destruct (Container_get d (info_id info)) as [c|] eqn:Hc.
  - rewrite (reconcile_info_existing _ _ _ _ _ Hc).
    destruct (parse_local env (info_finished_at info)); [done|].
    intros [= <- _]. by right.
  - rewrite (reconcile_info_new _ _ _ _ Hc).
    destruct (parse_local env (info_started_at info)); [|intros [= <- _]; by left].
    destruct (parse_local env (info_finished_at info)); [done|].
    intros [= <- _]. by right.
Qed.

Lemma reconcile_loop_converts infos : ∀ new d,
  (∀ info, info ∈ infos →
     (∃ started, parse_local env (info_started_at info) = Return started) ∧
     (∃ fin, parse_local env (info_finished_at info) = Return fin)) →
  ∃ new' d', reconcile_loop env host infos new d = (Return new', d').
Proof.
  induction infos as [|x rest IH]; intros new d Hall; [by eexists _, _|].
  rewrite reconcile_loop_cons.
  destruct (reconcile_info env host x d) as [[[]|e] d1] eqn:Hstep.
  - apply IH. intros info Hin. apply Hall. by right.
  - apply reconcile_info_raise in Hstep.
    destruct (Hall x) as [[s Hs] [f Hf]]; [by left|]. destruct Hstep; congruence.
Qed.
Lemma update_host_containers_converts infos d :
  (∀ info, info ∈ infos →
     (∃ started, parse_local env (info_started_at info) = Return started) ∧
     (∃ fin, parse_local env (info_finished_at info) = Return fin)) →
  ∃ d', update_host_containers env (Wrapper (Return infos)) host d = (Return tt, d').
Proof.
  intros Hall. rewrite update_host_containers_return.
  destruct (reconcile_loop_converts infos ∅ d Hall) as (new & d1 & ->).
  by eexists.
Qed.
End ReconcilerMore.

(** X1 (worker.py, lines 144-196): after a run on a fetched snapshot that
    returns normally, the rows owned by the host are rows of the snapshot,
    and every id of the snapshot has a row. *)
Theorem update_host_containers_matches_snapshot (env : Env) (host : HostKey)
    (infos : list Info) (d d' : DB) :
  update_host_containers env (Wrapper (Return infos)) host d = (Return tt, d') →
  (∀ k c, containers (database d') !! k = Some c → c_host c = host →
          k ∈ map info_id infos) ∧
  (∀ k, k ∈ map info_id infos → is_Some (containers (database d') !! k)).
Proof.
  intros Hrun. rewrite update_host_containers_return in Hrun.
  destruct (reconcile_loop env host infos ∅ d) as [[new|e] d1] eqn:Hloop; [|done].
  injection Hrun as <-. cbn [commit with_session database session].
  assert (∀ k, k ∈ new ↔ k ∈ map info_id infos) as Hids.
  { intros k. rewrite (reconcile_loop_ids env host _ _ _ _ _ Hloop), elem_of_snapshot_ids.
    split; [|by left]. intros [H|H]; [done|]. by apply not_elem_of_empty in H. }
  split.
  - intros k c Hk Hh. rewrite delete_missing_lookup in Hk.
    destruct (decide (k ∈ map fst (map_to_list (host_containers d host)) ∧ k ∉ new))
      as [|Hn]; [done|].
    destruct (decide (k ∈ map info_id infos)) as [|Hout]; [done|]. exfalso.
    apply Hn. split; [|by rewrite Hids].
    apply elem_of_previous. exists c. split; [|done].
    by rewrite <- (reconcile_loop_lookup_other env host _ _ _ _ _ _ Hloop Hout).
  - intros k Hk. rewrite delete_missing_lookup, decide_False.
    + destruct (last_for k infos) as [info|] eqn:Hlast.
      * destruct (reconcile_loop_last env host _ _ _ _ _ _ _ Hloop Hlast)
          as (c & Hc & _). by exists c.
      * by apply last_for_None in Hlast.
    + intros [_ Hn]. by apply Hn, Hids.
Qed.

(** X2 (worker.py, lines 144-196): a run that returns normally leaves every
    row of another host alone unless its id is in the snapshot; when the
    fetch raised, it leaves every row of every other host alone. *)
Theorem update_host_containers_other_hosts (env : Env) (host : HostKey)
    (snapshot : Result (list Info)) (d d' : DB) (k : string) (c : Container) :
  update_host_containers env (Wrapper snapshot) host d = (Return tt, d') →
  containers (session d) !! k = Some c →
  c_host c ≠ host →
  k ∉ snapshot_id_list snapshot →
  containers (database d') !! k = Some c.
Proof.
  intros Hrun Hc Hh Hk. destruct snapshot as [infos|e]; cbn [snapshot_id_list] in Hk.
  - rewrite update_host_containers_return in Hrun.
    destruct (reconcile_loop env host infos ∅ d) as [[new|e] d1] eqn:Hloop; [|done].
    injection Hrun as <-. cbn [commit with_session database session].
    rewrite delete_missing_lookup, decide_False.
    + by rewrite (reconcile_loop_lookup_other env host _ _ _ _ _ _ Hloop Hk).
    + intros [Hprev _]. apply elem_of_previous in Hprev as (c' & Hc' & Hh').
      congruence.
  - destruct (update_host_containers_unreachable env host e d) as (d2 & Hrun2 & _ & Hl).
    rewrite Hrun2 in Hrun. injection Hrun as <-.
    rewrite Hl, Hc. by rewrite decide_False.
Qed.

(** X3 (worker.py, lines 144-196): when a run raises, nothing has been
    committed, and the exception has one of two causes. Either the wrapper
    could not be built (line 149, before the try): then it is the exception
    of the constructor, and nothing was read or written. Or the host had
    answered with a snapshot, and it is the exception of converting the
    started_at or the finished_at of one of its descriptors. A fetch that
    raises never makes the run raise. *)
Theorem update_host_containers_raise_cause (env : Env) (host : HostKey)
    (host_answer : HostAnswer) (d d' : DB) (e : PyExn) :
  update_host_containers env host_answer host d = (Raise e, d') →
  database d' = database d ∧
  ((host_answer = WrapperError e ∧ d' = d) ∨
   ∃ infos info,
     host_answer = Wrapper (Return infos) ∧ info ∈ infos ∧
     (parse_local env (info_started_at info) = Raise e ∨
      parse_local env (info_finished_at info) = Raise e)).
Proof.
  intros Hrun. destruct host_answer as [e0|[infos|e0]].
  - injection Hrun as <- <-. split; [done|]. by left.
  - rewrite update_host_containers_return in Hrun.
    destruct (reconcile_loop env host infos ∅ d) as [[new|e1] d1] eqn:Hloop; [done|].
    injection Hrun as <- <-. split; [by eapply reconcile_loop_database|]. right.
    destruct (reconcile_loop_raise_split env host _ _ _ _ _ Hloop)
      as (l1 & x & l2 & new1 & -> & _ & Hx).
    exists (l1 ++ x :: l2)%list, x. split_and!; [done| |by eapply reconcile_info_raise].
    apply elem_of_app. right. by left.
  - by rewrite update_host_containers_raise in Hrun.
Qed.

(** X4 (worker.py, lines 144-196): when the started_at and finished_at of
    every descriptor convert, the run returns normally, whatever is
    persisted. *)
Theorem update_host_containers_returns (env : Env) (host : HostKey)
    (infos : list Info) (d : DB) :
  (∀ info, info ∈ infos →
     (∃ started, parse_local env (info_started_at info) = Return started) ∧
     (∃ fin, parse_local env (info_finished_at info) = Return fin)) →
  ∃ d', update_host_containers env (Wrapper (Return infos)) host d = (Return tt, d') ∧
        session d' = database d'.
Proof.
  intros Hall. rewrite update_host_containers_return.
  destruct (reconcile_loop_converts env host infos ∅ d Hall) as (new & d1 & ->).
  by eexists.
Qed.

(** X5 (worker.py, lines 144-196): a run on a fetched snapshot that returns
    normally writes container rows and nothing else: the hosts (a host that
    was 'down' stays 'down'), the images, the apps and the deployments are
    committed as the session had them. *)
Theorem update_host_containers_only_containers (env : Env) (host : HostKey)
    (infos : list Info) (d d' : DB) :
  update_host_containers env (Wrapper (Return infos)) host d = (Return tt, d') →
  hosts (database d') = hosts (session d) ∧
  images (database d') = images (session d) ∧
  apps (database d') = apps (session d) ∧
  deployments (database d') = deployments (session d).
Proof.
  intros Hrun. rewrite update_host_containers_return in Hrun.
  destruct (reconcile_loop env host infos ∅ d) as [[new|e] d1] eqn:Hloop; [|done].
  injection Hrun as <-. cbn [commit with_session database session].
  apply reconcile_loop_frame in Hloop.
  destruct (delete_missing_rest (map fst (map_to_list (host_containers d host)))
              new (session d1)) as (Hi & Hh & Ha & Hd).
  rewrite Hi, Hh, Ha, Hd, Hloop. done.
Qed.

(** * More on the Health Prober *)

Lemma requested_urls_app tr1 tr2 :
  requested_urls (tr1 ++ tr2) = (requested_urls tr1 ++ requested_urls tr2)%list.
Proof. apply omap_app. Qed.

Lemma longest_wait_app tr1 tr2 :
  longest_wait (tr1 ++ tr2) = longest_wait tr1 + longest_wait tr2.
Proof.
  induction tr1 as [|e tr1 IH]; [done|].
  cbn [app longest_wait foldr] in *. unfold longest_wait in *.
  destruct e; cbn [foldr]; lia.
Qed.

Section ProberMore.
Context (env : Env).

Lemma check_app_status_loop_bounded url timeout attempts : ∀ last w,
  0 ≤ timeout →
  ∃ evs,
    (check_app_status_loop env url timeout attempts last w).2 =
      {| db := db w; trace := trace w ++ evs |} ∧
    (length (requested_urls evs) ≤ attempts)%nat ∧
    longest_wait evs ≤ Z.of_nat attempts * (timeout + 5).
Proof.
  induction attempts as [|attempts IH]; intros last w Ht.
  - exists []. split_and!; [|done|done].
    rewrite app_nil_r. cbn [check_app_status_loop]. by destruct last, w.
  - rewrite check_app_status_loop_S.
    destruct (requests_get env (length (trace w)) url timeout) as [r|e].
    + exists [EvGet url timeout]. split_and!; [done|cbn; lia|].
      cbn. lia.
    + destruct (IH (Some e) {| db := db w;
                               trace := trace w ++ [EvGet url timeout; EvSleep 5] |} Ht)
        as (evs & Heq & Hreq & Hwait).
      exists ([EvGet url timeout; EvSleep 5] ++ evs)%list. split_and!.
      * rewrite Heq. cbn [db trace]. by rewrite <- app_assoc.
      * rewrite requested_urls_app. cbn. lia.
      * rewrite longest_wait_app. cbn. lia.
Qed.

Lemma check_app_status_loop_status url timeout attempts : ∀ last w st w',
  check_app_status_loop env url timeout attempts last w = (Return st, w') →
  st = "up" ∨ st = "down".
Proof.
  induction attempts as [|attempts IH]; intros last w st w'.
  - cbn [check_app_status_loop]. by destruct last.
  - rewrite check_app_status_loop_S.
    destruct (requests_get env (length (trace w)) url timeout) as [r|e].
    + intros [= <- _]. destruct (ok r); [by left|by right].
    + apply IH.
Qed.
End ProberMore.

(** X6 (worker.py, lines 100-114): a probe makes at most [retry] requests,
    and the longest it can take, every request using up its timeout and a
    sleep of 5 seconds following every failed request, is retry * (timeout +
    5): 45 seconds for the defaults. *)
Theorem check_app_status_bounded (env : Env) (url : string) (timeout retry : Z)
    (w : World) :
  0 ≤ timeout →
  ∃ evs,
    (_check_app_status env url timeout retry w).2 =
      {| db := db w; trace := trace w ++ evs |} ∧
    (length (requested_urls evs) ≤ Z.to_nat retry)%nat ∧
    longest_wait evs ≤ Z.max retry 0 * (timeout + 5).
Proof.
  intros Ht. unfold _check_app_status.
  destruct (check_app_status_loop_bounded env url timeout (Z.to_nat retry) None w Ht)
    as (evs & Heq & Hreq & Hwait).
  exists evs. split_and!; [done|done|].
  replace (Z.max retry 0) with (Z.of_nat (Z.to_nat retry)) by lia. done.
Qed.

(** X7 (worker.py, lines 100-114): with a retry count of zero or less no
    request is made, and the probe raises a TypeError (it raises
    [last_exception], which is still None). *)
Theorem check_app_status_no_attempts (env : Env) (url : string) (timeout retry : Z)
    (w : World) :
  retry ≤ 0 →
  ∃ e, _check_app_status env url timeout retry w = (Raise e, w) ∧
       exn_class e = "TypeError".
Proof.
  intros Hr. unfold _check_app_status.
  replace (Z.to_nat retry) with 0%nat by lia. by eexists.
Qed.

Section StatusMore.
Context (env : Env) (deployment : Deployment).

Lemma update_container_status_values id w :
  ∃ st evs,
    update_container_status env deployment id w =
      (Return tt,
       {| db := with_session (set_containers (alter (set_status st) id)) (db w);
          trace := trace w ++ evs |}) ∧
    (st = "up" ∨ st = "down").
Proof.
  unfold update_container_status, mbind, M_bind, bind, gets.
  destruct (Container_get (db w) id) as [c|] eqn:Hc.
  - destruct (decide (c_state c = "running")) as [Hrun|Hrun].
    + unfold try_except, _check_app_status.
      destruct (check_app_status_loop_frame env (status_url c deployment) 10
                  (Z.to_nat 3) None w) as (evs & Heq & _).
      destruct (check_app_status_loop env (status_url c deployment) 10
                  (Z.to_nat 3) None w) as [[st|e] w1] eqn:Hloop;
        cbn [snd] in Heq; subst w1.
      * exists st, evs. split; [done|]. by eapply check_app_status_loop_status.
      * exists "down", evs. split; [done|by right].
    + exists "down", []. split; [|by right].
      unfold assign_status, on_db, modify. by rewrite app_nil_r.
  - exists "down", []. split; [|by right].
    unfold ret. f_equal. apply world_eq; cbn [db trace]; [|by rewrite app_nil_r].
    apply db_eq; [done|]. apply store_eq; try done.
    cbn [with_session session set_containers containers].
    symmetry. by apply alter_missing.
Qed.

Lemma update_deployment_status_loop_values cs : ∀ w,
  ∃ w',
    for_each cs (update_container_status env deployment) w = (Return tt, w') ∧
    db w' = with_session (set_containers (λ _, containers (session (db w')))) (db w) ∧
    ∀ k, match Container_get (db w) k with
         | None => Container_get (db w') k = None
         | Some c =>
             ∃ st', Container_get (db w') k = Some (with_status st' c) ∧
                    (k ∉ cs → st' = c_status c) ∧
                    (k ∈ cs → st' = Some "up" ∨ st' = Some "down")
         end.
Proof.
  induction cs as [|id rest IH]; intros w.
  - exists w. split_and!; [done|by destruct w as [[? []] ?]|].
    intros k. destruct (Container_get (db w) k) as [c|]; [|done].
    exists (c_status c). rewrite with_status_same. split_and!; [done|done|].
    intros Hk. by apply elem_of_nil in Hk.
  - destruct (update_container_status_values id w) as (st & evs & Hstep & Hst).
    rewrite for_each_cons, Hstep.
    destruct (IH {| db := with_session (set_containers (alter (set_status st) id)) (db w);
                    trace := trace w ++ evs |})
      as (w' & Hloop & Hframe & Hkeys).
    exists w'. split_and!; [done| |].
    + rewrite Hframe at 1. by destruct w as [[? []] ?].
    + intros k. specialize (Hkeys k). rewrite Container_get_assign in Hkeys.
      destruct (Container_get (db w) k) as [c|] eqn:Hc.
      * destruct (decide (id = k)) as [->|Hne]; cbn [fmap option_fmap option_map] in Hkeys.
        -- destruct Hkeys as (st' & Hget & Hout & Hin).
           exists st'. split_and!; [done| |].
           ++ intros Hk. exfalso. apply Hk. by left.
           ++ intros _. destruct (decide (k ∈ rest)) as [Hr|Hr]; [by apply Hin|].
              rewrite (Hout Hr). cbn [set_status c_status].
              destruct Hst as [-> | ->]; [by left|by right].
        -- destruct Hkeys as (st' & Hget & Hout & Hin).
           exists st'. split_and!; [done| |].
           ++ intros Hk. apply Hout. intros Hr. apply Hk. by right.
           ++ intros Hk. apply Hin.
              apply elem_of_cons in Hk as [->|Hk]; [done|done].
      * by destruct (decide (id = k)).
Qed.

Context (Hhealthy : ∀ t url timeout,
           ∃ r, requests_get env t url timeout = Return r ∧ ok r = true).

Lemma update_container_status_healthy id w :
  ∃ st,
    update_container_status env deployment id w =
      (Return tt,
       {| db := with_session (set_containers (alter (set_status st) id)) (db w);
          trace := trace w ++ match probe_url deployment w id with
                              | Some url => [EvGet url 10]
                              | None => []
                              end |}) ∧
    ∀ c, Container_get (db w) id = Some c →
         st = if decide (c_state c = "running") then "up" else "down".
Proof.
  unfold update_container_status, probe_url, mbind, M_bind, bind, gets.
  destruct (Container_get (db w) id) as [c|] eqn:Hc.
  - destruct (decide (c_state c = "running")) as [Hrun|Hrun].
    + unfold try_except, _check_app_status. change (Z.to_nat 3) with 3%nat.
      rewrite check_app_status_loop_S.
      destruct (Hhealthy (length (trace w)) (status_url c deployment) 10)
        as (r & -> & ->).
      exists "up". split; [done|]. intros c' Hc'.
      assert (c' = c) as -> by congruence. by rewrite decide_True.
    + exists "down". split.
      * unfold assign_status, on_db, modify. by rewrite app_nil_r.
      * intros c' Hc'. assert (c' = c) as -> by congruence. by rewrite decide_False.
  - exists "down". split; [|done].
    unfold ret. f_equal. apply world_eq; cbn [db trace]; [|by rewrite app_nil_r].
    apply db_eq; [done|]. apply store_eq; try done.
    cbn [with_session session set_containers containers].
    symmetry. by apply alter_missing.
Qed.

Lemma probe_url_assign w st id evs k :
  probe_url deployment
    {| db := with_session (set_containers (alter (set_status st) id)) (db w);
       trace := evs |} k = probe_url deployment w k.
Proof.
  unfold probe_url. rewrite Container_get_assign.
  destruct (decide (id = k)); [|done]. by destruct (Container_get (db w) k).
Qed.

Lemma update_deployment_status_loop_healthy cs : ∀ w,
  ∃ w',
    for_each cs (update_container_status env deployment) w = (Return tt, w') ∧
    trace w' = (trace w ++ map (λ url, EvGet url 10)
                             (omap (probe_url deployment w) cs))%list ∧
    ∀ k c, Container_get (db w) k = Some c →
      ∃ st', Container_get (db w') k = Some (with_status st' c) ∧
             (k ∈ cs →
              st' = Some (if decide (c_state c = "running") then "up" else "down")).
Proof.
  induction cs as [|id rest IH]; intros w.
  - exists w. split_and!; [done|by rewrite app_nil_r|].
    intros k c Hc. exists (c_status c). rewrite with_status_same.
    split; [done|]. intros Hk. by apply elem_of_nil in Hk.
  - destruct (update_container_status_healthy id w) as (st & Hstep & Hst).
    rewrite for_each_cons, Hstep.
    destruct (IH {| db := with_session (set_containers (alter (set_status st) id)) (db w);
                    trace := trace w ++ match probe_url deployment w id with
                                        | Some url => [EvGet url 10]
                                        | None => []
                                        end |})
      as (w' & Hloop & Htrace & Hkeys).
    exists w'. split_and!; [done| |].
    + rewrite Htrace. cbn [trace omap]. rewrite <- app_assoc. f_equal.
      rewrite (list_omap_ext _ (probe_url deployment w) rest rest).
      * csimpl. by destruct (probe_url deployment w id).
      * apply Forall2_same_length_lookup. split; [done|].
        intros i x y Hx Hy. assert (x = y) as -> by congruence.
        apply probe_url_assign.
    + intros k c Hc.
      destruct (decide (id = k)) as [->|Hne].
      * destruct (Hkeys k (set_status st c)) as (st' & Hget & Hin).
        { by rewrite Container_get_assign, decide_True, Hc. }
        destruct (decide (k ∈ rest)) as [Hr|Hr].
        -- exists st'. split; [done|]. intros _. by apply Hin.
        -- destruct (update_deployment_status_loop_values rest
                       {| db := with_session
                                  (set_containers (alter (set_status st) k)) (db w);
                          trace := trace w ++ match probe_url deployment w k with
                                              | Some url => [EvGet url 10]
                                              | None => []
                                              end |})
             as (w2 & Hloop2 & _ & Hkeys2).
           rewrite Hloop in Hloop2. injection Hloop2 as <-.
           specialize (Hkeys2 k).
           rewrite Container_get_assign, decide_True, Hc in Hkeys2 by done.
           cbn [fmap option_fmap option_map] in Hkeys2.
           destruct Hkeys2 as (st2 & Hget2 & Hout2 & _).
           exists st2. split; [done|]. intros _.
           rewrite (Hout2 Hr). cbn [set_status c_status]. by rewrite (Hst c Hc).
      * destruct (Hkeys k c) as (st' & Hget & Hin).
        { by rewrite Container_get_assign, decide_False. }
        exists st'. split; [done|]. intros Hk. apply Hin.
        apply elem_of_cons in Hk as [->|Hk]; [done|done].
Qed.
End StatusMore.

(** X8 (worker.py, lines 120-142): [update_deployment_status] changes
    nothing but the status of container rows: a container of the deployment
    is committed with status 'up' or 'down' and is otherwise as it was,
    every other row is committed as it was, no row appears or disappears,
    and the hosts and images are not touched. *)
Theorem update_deployment_status_only_status (env : Env) (deployment : Deployment)
    (w : World) :
  ∃ w',
    update_deployment_status env deployment w = (Return tt, w') ∧
    hosts (database (db w')) = hosts (session (db w)) ∧
    images (database (db w')) = images (session (db w)) ∧
    ∀ k, match Container_get (db w) k with
         | None => containers (database (db w')) !! k = None
         | Some c =>
             ∃ st', containers (database (db w')) !! k = Some (with_status st' c) ∧
                    (k ∉ containers_of_deployment w deployment → st' = c_status c) ∧
                    (k ∈ containers_of_deployment w deployment →
                     st' = Some "up" ∨ st' = Some "down")
         end.
Proof.
  destruct (update_deployment_status_loop_values env deployment
              (containers_of_deployment w deployment) w)
    as (w1 & Hloop & Hframe & Hkeys).
  exists {| db := commit (db w1); trace := trace w1 |}. split_and!.
  - unfold update_deployment_status, mbind, M_bind, bind, gets.
    rewrite Hloop. reflexivity.
  - cbn [db commit database]. by rewrite Hframe.
  - cbn [db commit database]. by rewrite Hframe.
  - exact Hkeys.
Qed.

(** X9 (worker.py, lines 120-142): when every health request is answered
    with a success, exactly one request is made for each running container
    of the deployment, in the order of deployment.containers and without a
    sleep, and every container of the deployment is committed 'up' if it is
    running and 'down' if not. *)
Theorem update_deployment_status_healthy (env : Env) (deployment : Deployment)
    (w : World) :
  (∀ t url timeout, ∃ r, requests_get env t url timeout = Return r ∧ ok r = true) →
  ∃ w',
    update_deployment_status env deployment w = (Return tt, w') ∧
    trace w' = (trace w ++ map (λ url, EvGet url 10)
                             (omap (probe_url deployment w)
                                   (containers_of_deployment w deployment)))%list ∧
    ∀ k c, k ∈ containers_of_deployment w deployment →
           Container_get (db w) k = Some c →
           containers (database (db w')) !! k =
             Some (with_status
                     (Some (if decide (c_state c = "running") then "up" else "down")) c).
Proof.
  intros Hhealthy.
  destruct (update_deployment_status_loop_healthy env deployment Hhealthy
              (containers_of_deployment w deployment) w)
    as (w1 & Hloop & Htrace & Hkeys).
  exists {| db := commit (db w1); trace := trace w1 |}. split_and!.
  - unfold update_deployment_status, mbind, M_bind, bind, gets.
    rewrite Hloop. reflexivity.
  - done.
  - intros k c Hk Hc. destruct (Hkeys k c Hc) as (st' & Hget & Hin).
    cbn [db commit database]. unfold Container_get in Hget.
    by rewrite Hget, (Hin Hk).
Qed.

(** * More on the Fleet Sync Orchestrator and the Image Synchronizer *)

Lemma run_update_host_containers_unfold env host w :
  run_update_host_containers env host w =
    match docker_wrapper env (S (length (trace w))) host with
    | Raise e =>
        let '(r, d') := update_host_containers env (WrapperError e) host (db w) in
        (r, {| db := d';
               trace := trace w ++ [EvCall (m_update_host_containers host)] |})
    | Return _ =>
        let '(r, d') :=
          update_host_containers env
            (Wrapper (state_of_the_universe env (S (length (trace w))) host))
            host (db w) in
        (r, {| db := d';
               trace := trace w ++ [EvCall (m_update_host_containers host);
                                    EvStateOfTheUniverse host] |})
    end.
Proof.
  unfold run_update_host_containers, mbind at 1 2, M_bind at 1 2, bind at 1 2.
  unfold emit at 1, modify at 1, now, gets.
  cbn [db trace]. rewrite length_app. cbn [length].
  replace (length (trace w) + 1)%nat with (S (length (trace w))) by lia.
  destruct (docker_wrapper env (S (length (trace w))) host) as [[]|e].
  - unfold mbind, M_bind, bind, emit, modify, on_db. cbn [db trace].
    destruct (update_host_containers env _ host (db w)) as [r d'].
    by rewrite <- app_assoc.
  - unfold on_db. cbn [db trace]. done.
Qed.

Lemma reconciled_hosts_events hs : reconciled_hosts (reconcile_events hs) = hs.
Proof.
  induction hs as [|h hs IH]; [done|].
  change (reconcile_events (h :: hs)) with
    (EvCall (m_update_host_containers h) :: EvStateOfTheUniverse h ::
       reconcile_events hs).
  unfold reconciled_hosts in *. csimpl. by rewrite IH.
Qed.

Section HostsMore.
Context (env : Env).

Lemma run_update_host_containers_returns host w :
  reconcilable env host →
  ∃ d', run_update_host_containers env host w =
          (Return tt,
           {| db := d';
              trace := trace w ++ [EvCall (m_update_host_containers host);
                                   EvStateOfTheUniverse host] |}).
Proof.
  intros [Hwrapper Hconv]. rewrite run_update_host_containers_unfold, Hwrapper.
  destruct (state_of_the_universe env (S (length (trace w))) host)
    as [infos|e] eqn:Hs.
  - destruct (update_host_containers_converts env host infos (db w)) as (d' & ->).
    + intros info Hin. exact (Hconv _ _ _ Hs Hin).
    + by eexists.
  - rewrite update_host_containers_raise. by eexists.
Qed.

Lemma reconcile_hosts_returns hs : ∀ w,
  Forall (reconcilable env) hs →
  ∃ d', for_each hs (run_update_host_containers env) w =
          (Return tt, {| db := d'; trace := trace w ++ reconcile_events hs |}).
Proof.
  induction hs as [|h hs IH]; intros w Hall.
  - exists (db w). cbn. rewrite app_nil_r. by destruct w.
  - apply Forall_cons in Hall as [Hh Hall]. rewrite for_each_cons.
    destruct (run_update_host_containers_returns h w Hh) as (d1 & ->).
    destruct (IH {| db := d1;
                    trace := trace w ++ [EvCall (m_update_host_containers h);
                                         EvStateOfTheUniverse h] |} Hall)
      as (d' & ->).
    exists d'. cbn [trace reconcile_events flat_map]. by rewrite <- app_assoc.
Qed.

Lemma reconcile_hosts_no_wrapper (pre : list HostKey) h post e : ∀ w,
  Forall (reconcilable env) pre →
  (∀ t, docker_wrapper env t h = Raise e) →
  ∃ w1,
    for_each pre (run_update_host_containers env) w = (Return tt, w1) ∧
    trace w1 = (trace w ++ reconcile_events pre)%list ∧
    for_each (pre ++ h :: post) (run_update_host_containers env) w =
      (Raise e,
       {| db := db w1;
          trace := trace w1 ++ [EvCall (m_update_host_containers h)] |}).
Proof.
  induction pre as [|p pre IH]; intros w Hall Hh.
  - exists w. split_and!; [done|by rewrite app_nil_r|].
    cbn [app]. by rewrite for_each_cons, run_update_host_containers_unfold, Hh.
  - apply Forall_cons in Hall as [Hp Hall]. cbn [app]. rewrite !for_each_cons.
    destruct (run_update_host_containers_returns p w Hp) as (d1 & ->).
    destruct (IH {| db := d1;
                    trace := trace w ++ [EvCall (m_update_host_containers p);
                                         EvStateOfTheUniverse p] |} Hall Hh)
      as (w1 & -> & Htrace & ->).
    exists w1. split_and!; [done| |done].
    rewrite Htrace. cbn [trace reconcile_events flat_map app]. by rewrite <- app_assoc.
Qed.
End HostsMore.

Lemma reconcilable_all env (hs : list HostKey) :
  (∀ t h, docker_wrapper env t h = Return tt) →
  (∀ t h infos info,
     state_of_the_universe env t h = Return infos → info ∈ infos →
     (∃ started, parse_local env (info_started_at info) = Return started) ∧
     (∃ fin, parse_local env (info_finished_at info) = Return fin)) →
  Forall (reconcilable env) hs.
Proof.
  intros Hwrapper Hconv. apply Forall_forall. intros h _. split; [done|].
  intros t. apply Hconv.
Qed.

(** X10 (worker.py, lines 198-204): when a wrapper can be built for every
    host and the timestamps of every snapshot that a host can answer
    convert, [update_all_containers] returns normally and reconciles every
    host of the session once, in order, also the hosts after one whose
    snapshot cannot be fetched; its events are its own call and, for each
    host, the call of [update_host_containers] and the fetch of the
    snapshot. *)
Theorem update_all_containers_visits_every_host (env : Env) (w : World) :
  (∀ t h, docker_wrapper env t h = Return tt) →
  (∀ t h infos info,
     state_of_the_universe env t h = Return infos → info ∈ infos →
     (∃ started, parse_local env (info_started_at info) = Return started) ∧
     (∃ fin, parse_local env (info_finished_at info) = Return fin)) →
  ∃ w',
    update_all_containers env w = (Return tt, w') ∧
    trace w' = (trace w ++ EvCall m_update_all_containers ::
                  reconcile_events (map host_key (hosts (session (db w)))))%list ∧
    reconciled_hosts (drop (length (trace w)) (trace w')) =
      map host_key (hosts (session (db w))).
Proof.
  intros Hwrapper Hconv.
  destruct (reconcile_hosts_returns env (map host_key (hosts (session (db w))))
              {| db := db w; trace := trace w ++ [EvCall m_update_all_containers] |}
              (reconcilable_all env _ Hwrapper Hconv))
    as (d' & Hloop).
  eexists. split_and!.
  - unfold update_all_containers, mbind, M_bind, bind, emit, modify, gets.
    cbn [db trace]. exact Hloop.
  - cbn [trace]. by rewrite <- app_assoc.
  - cbn [trace]. rewrite <- app_assoc, drop_app_length.
    cbn. apply reconciled_hosts_events.
Qed.

(** X21 (worker.py, lines 144-149 and 198-204): when no wrapper can be built
    for a host, and the hosts before it in the query can be reconciled,
    [update_all_containers] raises the exception of the constructor. It
    ends in the state that the reconciliation of the hosts before that one
    left, with the call for that host as its last event: for that host no
    snapshot is fetched and nothing is written, so that it is not marked
    'down', and no host after it is reconciled. *)
Theorem update_all_containers_stops_without_wrapper (env : Env) (w : World)
    (pre : list HostKey) (h : HostKey) (post : list HostKey) (e : PyExn) :
  map host_key (hosts (session (db w))) = (pre ++ h :: post)%list →
  Forall (reconcilable env) pre →
  (∀ t, docker_wrapper env t h = Raise e) →
  ∃ w1,
    for_each pre (run_update_host_containers env)
      {| db := db w; trace := trace w ++ [EvCall m_update_all_containers] |} =
      (Return tt, w1) ∧
    trace w1 = (trace w ++ EvCall m_update_all_containers ::
                  reconcile_events pre)%list ∧
    update_all_containers env w =
      (Raise e,
       {| db := db w1;
          trace := trace w1 ++ [EvCall (m_update_host_containers h)] |}).
Proof.
  intros Hhosts Hpre Hh.
  destruct (reconcile_hosts_no_wrapper env pre h post e
              {| db := db w; trace := trace w ++ [EvCall m_update_all_containers] |}
              Hpre Hh) as (w1 & Hloop & Htrace & Hall).
  exists w1. split_and!.
  - exact Hloop.
  - rewrite Htrace. cbn [trace]. by rewrite <- app_assoc.
  - unfold update_all_containers, mbind, M_bind, bind, emit, modify, gets.
    cbn [db trace]. rewrite Hhosts. exact Hall.
Qed.


(** * More on the Image Synchronizer *)

Lemma set_image_twice l1 l2 c : set_image l2 (set_image l1 c) = set_image l2 c.
Proof. done. Qed.

Lemma link_loop (f : Container → Container) (cs : list Container) : ∀ d,
  for_each cs (λ c, modify (with_session (set_containers (alter f (c_id c))))) d =
    (Return tt,
     with_session (set_containers (λ m, foldl (λ m c, alter f (c_id c) m) m cs)) d).
Proof.
  induction cs as [|c cs IH]; intros d.
  - cbn. f_equal. apply db_eq; [done|]. by apply store_eq.
  - rewrite for_each_cons. unfold modify at 1. rewrite IH. f_equal.
Qed.

Lemma foldl_alter_lookup (f : Container → Container) (cs : list Container) k :
  (∀ c, f (f c) = f c) →
  ∀ m : gmap string Container,
    foldl (λ m c, alter f (c_id c) m) m cs !! k =
         if decide (k ∈ map c_id cs) then f <$> m !! k else m !! k.
Proof.
  intros Hf. induction cs as [|c cs IH]; intros m.
  - cbn. rewrite decide_False; [done|]. apply not_elem_of_nil.
  - cbn [foldl map]. rewrite IH, lookup_alter.
    destruct (decide (k ∈ c_id c :: map c_id cs)) as [Hin'|Hin'];
      destruct (decide (k ∈ map c_id cs)) as [Hin|Hin];
      destruct (decide (c_id c = k)) as [Heq|Hne];
      try (exfalso; apply Hin'; apply elem_of_cons; auto; fail);
      try (exfalso; apply elem_of_cons in Hin' as [|]; congruence);
      try subst k; destruct (m !! _); cbn; rewrite ?Hf; done.
Qed.

Lemma elem_of_get_by_ref d ref k :
  store_keyed (session d) →
  k ∈ map c_id (Container_get_by_ref d ref) ↔
  ∃ c, containers (session d) !! k = Some c ∧ c_image_ref c = ref.
Proof.
  intros [Hk _]. unfold Container_get_by_ref. split.
  - intros (c & -> & Hc)%list_elem_of_fmap.
    apply list_elem_of_filter in Hc as [Href Hc].
    apply list_elem_of_fmap in Hc as ([k c'] & -> & Hc).
    apply elem_of_map_to_list in Hc. cbn in *. exists c'.
    by rewrite (Hk _ _ Hc).
  - intros (c & Hc & Href). apply list_elem_of_fmap. exists c.
    split; [by rewrite (Hk _ _ Hc)|].
    apply list_elem_of_filter. split; [done|].
    apply list_elem_of_fmap. exists (k, c). split; [done|].
    by apply elem_of_map_to_list.
Qed.

Section SynchronizerMore.
Context (env : Env) (app_name : string).

Lemma update_app_image_step ii d :
  store_keyed (session d) →
  update_app_image env app_name ii d =
    (Return tt, with_session (sync_step env app_name ii) d).
Proof.
  intros Hkeyed. unfold update_app_image, mbind, M_bind, bind, gets.
  cbn beta iota. rewrite link_loop. unfold modify. f_equal.
  assert (i_id match Image_get d (ii_layer ii) with
               | Some i => {| i_id := i_id i; i_tag := ii_name ii |}
               | None => {| i_id := ii_layer ii; i_tag := ii_name ii |}
               end = ii_layer ii) as Hid.
  { unfold Image_get. destruct (images (session d) !! ii_layer ii) as [i|] eqn:Hi;
      [|done]. cbn. by apply Hkeyed. }
  assert (i_tag match Image_get d (ii_layer ii) with
                | Some i => {| i_id := i_id i; i_tag := ii_name ii |}
                | None => {| i_id := ii_layer ii; i_tag := ii_name ii |}
                end = ii_name ii) as Htag.
  { by destruct (Image_get d (ii_layer ii)). }
  apply db_eq; [done|]. cbn [session with_session].
  apply store_eq; cbn [containers images hosts apps deployments
    deployment_containers set_containers set_images set_apps append_app_image
    sync_step]; try done.
  - apply map_eq. intros k.
    rewrite (foldl_alter_lookup _ _ _ (set_image_twice _ _)), lookup_fmap.
    rewrite Hid, Htag. unfold containers_for_app_image.
    destruct (decide (k ∈ map c_id (Container_get_by_ref d
                (image_ref env app_name (ii_name ii))))) as [Hin|Hin].
    + apply elem_of_get_by_ref in Hin as (c & Hc & Href); [|done].
      rewrite Hc. cbn. by rewrite decide_True.
    + destruct (containers (session d) !! k) as [c|] eqn:Hc; [|done]. cbn.
      rewrite decide_False; [done|]. intros Href. apply Hin.
      apply elem_of_get_by_ref; [done|]. by exists c.
  - f_equal. destruct (Image_get d (ii_layer ii)) as [i|] eqn:Hi; [|done].
    cbn in Hid. by rewrite Hid.
  - by rewrite Hid.
Qed.

Lemma sync_step_keyed ii s : store_keyed s → store_keyed (sync_step env app_name ii s).
Proof.
  intros [Hc Hi]. split; cbn.
  - intros k c. rewrite lookup_fmap.
    destruct (containers s !! k) as [c0|] eqn:Hk; [|done]. cbn.
    intros [= <-]. destruct (decide _); cbn; by apply Hc.
  - intros k i [[<- <-]|[_ Hk]]%lookup_insert_Some; [done|by apply Hi].
Qed.

Lemma update_app_image_loop iis : ∀ d,
  store_keyed (session d) →
  for_each iis (update_app_image env app_name) d =
    (Return tt,
     with_session (λ s, foldl (λ s ii, sync_step env app_name ii s) s iis) d).
Proof.
  induction iis as [|ii iis IH]; intros d Hkeyed.
  - cbn. f_equal. apply db_eq; [done|]. by apply store_eq.
  - rewrite for_each_cons. unfold mbind, M_bind, bind.
    rewrite update_app_image_step by done. rewrite IH.
    + done.
    + by apply sync_step_keyed.
Qed.

Lemma synced_container_cons ii iis c :
  synced_container env app_name iis
    (if decide (c_image_ref c = image_ref env app_name (ii_name ii))
     then set_image (ii_layer ii) c else c) =
  synced_container env app_name (ii :: iis) c.
Proof.
  unfold synced_container. rewrite filter_cons.
  destruct (decide (c_image_ref c = image_ref env app_name (ii_name ii)));
    cbn [c_image_ref set_image]; [rewrite last_cons|];
    by destruct (last (filter _ iis)).
Qed.

Lemma sync_loop_containers iis : ∀ s,
  containers (foldl (λ s ii, sync_step env app_name ii s) s iis) =
    synced_container env app_name iis <$> containers s.
Proof.
  induction iis as [|ii iis IH]; intros s.
  - cbn. symmetry. apply map_fmap_id.
  - cbn [foldl]. rewrite IH. cbn [containers sync_step].
    rewrite <- map_fmap_compose. apply map_fmap_ext.
    intros k c _. apply synced_container_cons.
Qed.

Lemma sync_loop_images iis layer : ∀ s,
  images (foldl (λ s ii, sync_step env app_name ii s) s iis) !! layer =
    synced_image layer iis (images s !! layer).
Proof.
  induction iis as [|ii iis IH]; intros s; [done|].
  cbn [foldl]. rewrite IH. cbn [images sync_step]. unfold synced_image.
  rewrite filter_cons.
  destruct (decide (ii_layer ii = layer)) as [<-|Hne].
  - rewrite last_cons, lookup_insert_eq. by destruct (last (filter _ iis)).
  - by rewrite lookup_insert_ne.
Qed.

Lemma add_app_images_app l1 l2 a :
  add_app_images app_name l2 (add_app_images app_name l1 a) =
    add_app_images app_name (l1 ++ l2) a.
Proof.
  unfold add_app_images. destruct (decide (a_name a = app_name)) as [Ha|Ha]; cbn.
  - rewrite decide_True by done. by rewrite <- app_assoc.
  - by rewrite decide_False.
Qed.

Lemma add_app_images_nil a : add_app_images app_name [] a = a.
Proof.
  unfold add_app_images. destruct (decide _); [|done].
  destruct a. cbn. by rewrite app_nil_r.
Qed.

Lemma sync_loop_apps iis : ∀ s,
  apps (foldl (λ s ii, sync_step env app_name ii s) s iis) =
    map (add_app_images app_name (map ii_layer iis)) (apps s).
Proof.
  induction iis as [|ii iis IH]; intros s.
  - cbn. rewrite <- (map_id (apps s)) at 1. apply map_ext.
    intros a. by rewrite add_app_images_nil.
  - cbn [foldl]. rewrite IH. cbn [apps sync_step]. rewrite map_map.
    apply map_ext. intros a. by rewrite add_app_images_app.
Qed.

Lemma sync_loop_rest iis : ∀ s,
  hosts (foldl (λ s ii, sync_step env app_name ii s) s iis) = hosts s ∧
  deployments (foldl (λ s ii, sync_step env app_name ii s) s iis) = deployments s ∧
  deployment_containers (foldl (λ s ii, sync_step env app_name ii s) s iis) =
    deployment_containers s.
Proof.
  induction iis as [|ii iis IH]; intros s; [done|]. cbn [foldl].
  destruct (IH (sync_step env app_name ii s)) as (-> & -> & ->). done.
Qed.

Lemma update_app_images_unfold w :
  store_keyed (session (db w)) →
  update_app_images env app_name w =
    match list_images env (S (length (trace w))) app_name with
    | Return iis =>
        (Return tt,
         {| db := commit (with_session
                    (λ s, foldl (λ s ii, sync_step env app_name ii s) s iis) (db w));
            trace := trace w ++ [EvCall (m_update_app_images app_name);
                                 EvListImages app_name] |})
    | Raise e =>
        (Raise e,
         {| db := db w;
            trace := trace w ++ [EvCall (m_update_app_images app_name);
                                 EvListImages app_name] |})
    end.
Proof.
  intros Hkeyed.
  unfold update_app_images, mbind, M_bind, bind, emit, modify, now, gets, answer,
    on_db. cbn [db trace]. rewrite length_app. cbn [length].
  replace (length (trace w) + 1)%nat with (S (length (trace w))) by lia.
  rewrite <- app_assoc. cbn [app].
  destruct (list_images env (S (length (trace w))) app_name) as [iis|e]; [|done].
  by rewrite update_app_image_loop.
Qed.
End SynchronizerMore.

Lemma sync_loop_keyed env app_name iis : ∀ s,
  store_keyed s → store_keyed (foldl (λ s ii, sync_step env app_name ii s) s iis).
Proof.
  induction iis as [|ii iis IH]; intros s Hs; [done|].
  cbn [foldl]. apply IH. by apply sync_step_keyed.
Qed.

Lemma update_app_image_returns env app_name ii d :
  ∃ d', update_app_image env app_name ii d = (Return tt, d') ∧
        database d' = database d.
Proof.
  unfold update_app_image, mbind, M_bind, bind, gets. cbn beta iota.
  rewrite link_loop. unfold modify. by eexists.
Qed.

Lemma update_app_image_loop_returns env app_name iis : ∀ d,
  ∃ d', for_each iis (update_app_image env app_name) d = (Return tt, d') ∧
        database d' = database d.
Proof.
  induction iis as [|ii iis IH]; intros d; [by eexists|].
  rewrite for_each_cons. unfold mbind, M_bind, bind.
  destruct (update_app_image_returns env app_name ii d) as (d1 & -> & H1).
  destruct (IH d1) as (d2 & -> & H2). exists d2. split; [done|congruence].
Qed.

Lemma add_app_images_spec app_name layers a :
  a_name (add_app_images app_name layers a) = a_name a ∧
  (a_name a ≠ app_name → add_app_images app_name layers a = a) ∧
  (a_name a = app_name →
   ∀ l, l ∈ a_images (add_app_images app_name layers a) ↔
        l ∈ a_images a ∨ l ∈ layers).
Proof.
  unfold add_app_images. destruct (decide (a_name a = app_name)) as [Ha|Ha]; cbn.
  - split_and!; [done|done|]. intros _ l. apply elem_of_app.
  - split_and!; done.
Qed.

(** X11 (worker.py, lines 54-81): [update_app_images] raises exactly when
    the registry's [list_images] raises, and with the same exception; the
    loop over the entries and the commit never raise. When it raises,
    nothing was written: session and database are as before, and the
    events are the call and the request to the registry. *)
Theorem update_app_images_raises_iff (env : Env) (app_name : string)
    (w w' : World) (e : PyExn) :
  update_app_images env app_name w = (Raise e, w') ↔
  list_images env (S (length (trace w))) app_name = Raise e ∧
  w' = {| db := db w;
          trace := trace w ++ [EvCall (m_update_app_images app_name);
                               EvListImages app_name] |}.
Proof.
  unfold update_app_images, mbind, M_bind, bind, emit, modify, now, gets, answer,
    on_db. cbn [db trace]. rewrite length_app. cbn [length].
  replace (length (trace w) + 1)%nat with (S (length (trace w))) by lia.
  rewrite <- app_assoc. cbn [app].
  destruct (list_images env (S (length (trace w))) app_name) as [iis|e0].
  - destruct (update_app_image_loop_returns env app_name iis (db w))
      as (d' & -> & _).
    split; [discriminate|]. by intros [? _].
  - split.
    + by intros [= -> <-].
    + by intros [[= ->] ->].
Qed.

(** X12 (worker.py, lines 54-81): on a store whose rows are stored under
    their ids, when the registry answers with a list of entries,
    [update_app_images] returns normally and commits; afterwards the image
    row of a layer carries the tag of the last entry with that layer, a
    layer that the list does not name keeps its row, the images of the app
    are those it had and the layers of the list, every other app is as it
    was, and hosts, deployments and their links are untouched. Rows are
    still stored under their ids. *)
Theorem update_app_images_images (env : Env) (app_name : string) (w : World)
    (iis : list ImageInfo) :
  store_keyed (session (db w)) →
  list_images env (S (length (trace w))) app_name = Return iis →
  ∃ w',
    update_app_images env app_name w = (Return tt, w') ∧
    trace w' = (trace w ++ [EvCall (m_update_app_images app_name);
                            EvListImages app_name])%list ∧
    database (db w') = session (db w') ∧
    store_keyed (database (db w')) ∧
    (∀ layer, images (database (db w')) !! layer =
              synced_image layer iis (images (session (db w)) !! layer)) ∧
    Forall2 (λ a a',
               a_name a' = a_name a ∧
               (a_name a ≠ app_name → a' = a) ∧
               (a_name a = app_name →
                ∀ l, l ∈ a_images a' ↔ l ∈ a_images a ∨ l ∈ map ii_layer iis))
            (apps (session (db w))) (apps (database (db w'))) ∧
    hosts (database (db w')) = hosts (session (db w)) ∧
    deployments (database (db w')) = deployments (session (db w)) ∧
    deployment_containers (database (db w')) = deployment_containers (session (db w)).
Proof.
  intros Hkeyed Hlist. rewrite update_app_images_unfold, Hlist by done.
  eexists. split; [done|]. cbn [db trace database session commit with_session].
  destruct (sync_loop_rest env app_name iis (session (db w))) as (Hh & Hd & Hdc).
  split_and!; try done.
  - by apply sync_loop_keyed.
  - intros layer. apply sync_loop_images.
  - rewrite sync_loop_apps. induction (apps (session (db w))) as [|a l IH];
      [constructor|].
    cbn [map]. constructor; [|exact IH]. apply add_app_images_spec.
Qed.

(** X13 (worker.py, lines 50-52 and 72-76): on a store whose rows are stored
    under their ids, when the registry answers with a list of entries,
    [update_app_images] leaves the set of container rows as it was and
    changes at most the image of a row: a container whose image reference
    is [user/app:tag] for the tag of some entry is linked to the layer of
    the last such entry, every other container is as it was. *)
Theorem update_app_images_links_containers (env : Env) (app_name : string)
    (w : World) (iis : list ImageInfo) :
  store_keyed (session (db w)) →
  list_images env (S (length (trace w))) app_name = Return iis →
  ∃ w',
    update_app_images env app_name w = (Return tt, w') ∧
    containers (database (db w')) =
      synced_container env app_name iis <$> containers (session (db w)).
Proof.
  intros Hkeyed Hlist. rewrite update_app_images_unfold, Hlist by done.
  eexists. split; [done|]. cbn [db database session commit with_session].
  apply sync_loop_containers.
Qed.

(** * More on the deployment's containers *)

Lemma link_deployment_loop deployment (cs : list Container) : ∀ d,
  ∃ d', for_each cs (λ c,
          modify (with_session (link_deployment_container deployment (c_id c)))) d =
          (Return tt, d') ∧
        database d' = database d ∧
        containers (session d') = containers (session d) ∧
        default [] (deployment_containers (session d') !! deployment_key deployment) =
          (default [] (deployment_containers (session d) !! deployment_key deployment)
             ++ map c_id cs)%list.
Proof.
  induction cs as [|c cs IH]; intros d.
  - exists d. cbn. by rewrite app_nil_r.
  - rewrite for_each_cons. unfold mbind, M_bind, bind, modify at 1.
    destruct (IH (with_session (link_deployment_container deployment (c_id c)) d))
      as (d' & -> & Hdb & Hcs & Hl).
    exists d'. split_and!; [done|done|done|].
    rewrite Hl. cbn [session with_session link_deployment_container
      set_deployment_containers deployment_containers map].
    rewrite lookup_insert_eq. cbn [default]. unfold id. by rewrite <- app_assoc.
Qed.

(** X14 (worker.py, lines 83-98): when a wrapper can be built for every
    host and the timestamps of every snapshot that a host can answer
    convert, [update_deployment_containers] returns normally and commits;
    it reconciles the hosts of the deployment, in order, and nothing else,
    and afterwards every container whose image reference is that of the
    deployment's app and tag is among the containers of the deployment. *)
Theorem update_deployment_containers_links (env : Env) (deployment : Deployment)
    (w : World) :
  (∀ t h, docker_wrapper env t h = Return tt) →
  (∀ t h infos info,
     state_of_the_universe env t h = Return infos → info ∈ infos →
     (∃ started, parse_local env (info_started_at info) = Return started) ∧
     (∃ fin, parse_local env (info_finished_at info) = Return fin)) →
  ∃ w',
    update_deployment_containers env deployment w = (Return tt, w') ∧
    trace w' = (trace w ++ reconcile_events (d_hosts deployment))%list ∧
    database (db w') = session (db w') ∧
    ∀ c, c ∈ containers_for_app_image env (db w')
               (d_app_name deployment) (d_image_tag deployment) →
         c_id c ∈ containers_of_deployment w' deployment.
Proof.
  intros Hwrapper Hconv.
  destruct (reconcile_hosts_returns env (d_hosts deployment) w
              (reconcilable_all env _ Hwrapper Hconv)) as (d1 & Hloop).
  destruct (link_deployment_loop deployment
              (containers_for_app_image env d1
                 (d_app_name deployment) (d_image_tag deployment)) d1)
    as (d2 & Hlink & _ & Hcs & Hl).
  exists {| db := commit d2; trace := trace w ++ reconcile_events (d_hosts deployment) |}.
  split_and!; [|done|done|].
  - unfold update_deployment_containers, mbind, M_bind, bind, gets, on_db.
    rewrite Hloop. cbn [db trace]. by rewrite Hlink.
  - intros c Hc. unfold containers_of_deployment. cbn [db session commit] in *.
    rewrite Hl. apply elem_of_app. right.
    apply list_elem_of_fmap. exists c. split; [done|].
    unfold containers_for_app_image, Container_get_by_ref in *.
    cbn [session commit] in Hc. by rewrite <- Hcs.
Qed.

(** * Primary keys *)

Section Preserves.
Context {S : Type} (I : S → Prop).

Lemma preserves_ret {A} (a : A) : preserves I (mret a).
Proof. by apply triple_ret. Qed.

Lemma preserves_bind {A B} (m : M S A) (k : A → M S B) :
  preserves I m → (∀ a, preserves I (k a)) → preserves I (m ≫= k).
Proof. intros Hm Hk. by eapply triple_bind. Qed.

Lemma preserves_try_except {A} (m : M S A) (h : PyExn → M S A) :
  preserves I m → (∀ e, preserves I (h e)) → preserves I (try_except m h).
Proof. intros Hm Hh. by eapply triple_try_except. Qed.

Lemma preserves_gets {A} (f : S → A) : preserves I (gets f).
Proof. by apply triple_gets. Qed.

Lemma preserves_modify (f : S → S) : (∀ s, I s → I (f s)) → preserves I (modify f).
Proof. intros H. by apply triple_modify. Qed.

Lemma preserves_answer {A} (r : Result A) : preserves I (answer r).
Proof. apply triple_answer. intros s Hs. by destruct r. Qed.

Lemma preserves_raise {A} (e : PyExn) : preserves I (raise e : M S A).
Proof. by intros s Hs. Qed.

Lemma preserves_for_each {A} (body : A → M S unit) l :
  (∀ x, preserves I (body x)) → preserves I (for_each l body).
Proof. intros H. by apply triple_for_each_inv. Qed.
End Preserves.

Lemma preserves_on_db {A} (I : DB → Prop) (m : M DB A) :
  preserves I m → preserves (λ w, I (db w)) (on_db m).
Proof.
  intros Hm w Hw. unfold on_db. specialize (Hm (db w) Hw).
  by destruct (m (db w)) as [[a|e] d'].
Qed.

Lemma preserves_emit (I : DB → Prop) e : preserves (λ w, I (db w)) (emit e).
Proof. by apply triple_emit. Qed.

Lemma store_keyed_containers s f :
  store_keyed s →
  (∀ k c, f (containers s) !! k = Some c → c_id c = k) →
  store_keyed (set_containers f s).
Proof. intros [_ Hi] Hc. by split. Qed.

Lemma store_keyed_same s s' :
  containers s' = containers s → images s' = images s →
  store_keyed s → store_keyed s'.
Proof. intros Hc Hi [H1 H2]. split; intros k x; rewrite ?Hc, ?Hi; auto. Qed.

Lemma store_keyed_insert s c :
  store_keyed s → store_keyed (set_containers (insert (c_id c) c) s).
Proof.
  intros Hs. apply store_keyed_containers; [done|].
  intros k c' [[<- <-]|[_ Hk]]%lookup_insert_Some; [done|]. by apply Hs.
Qed.

Lemma store_keyed_alter s f id :
  (∀ c, c_id (f c) = c_id c) →
  store_keyed s → store_keyed (set_containers (alter f id) s).
Proof.
  intros Hf Hs. apply store_keyed_containers; [done|].
  intros k c. rewrite lookup_alter. destruct (decide (id = k)) as [->|_].
  - destruct (containers s !! k) as [c0|] eqn:Hk; [|done].
    intros [= <-]. rewrite Hf. by apply Hs.
  - by apply Hs.
Qed.

Lemma store_keyed_delete_missing previous new s :
  store_keyed s → store_keyed (delete_missing previous new s).
Proof.
  intros [Hc Hi]. split.
  - intros k c. rewrite delete_missing_lookup. destruct (decide _); [done|apply Hc].
  - destruct (delete_missing_rest previous new s) as (-> & _). exact Hi.
Qed.

Lemma keyed_db_with_session f d :
  (store_keyed (session d) → store_keyed (f (session d))) →
  keyed_db d → keyed_db (with_session f d).
Proof. intros Hf [Hs Hd]. split; [by apply Hf|done]. Qed.

Section Keys.
Context (env : Env).

Lemma reconcile_info_keyed host info : preserves keyed_db (reconcile_info env host info).
Proof.
  intros d Hd.
  destruct (Container_get d (info_id info)) as [c|] eqn:Hget.
  - rewrite (reconcile_info_existing _ _ _ _ _ Hget).
    destruct (parse_local env (info_finished_at info)) as [fin|e]; [|done].
    apply keyed_db_with_session; [|done]. intros Hs.
    assert (info_id info = c_id (set_state_finished (info_state info) fin c)) as ->.
    { cbn. symmetry. by apply Hs. }
    by apply store_keyed_insert.
  - rewrite (reconcile_info_new _ _ _ _ Hget).
    destruct (parse_local env (info_started_at info)) as [started|e]; [|done].
    destruct (parse_local env (info_finished_at info)) as [fin|e]; [|done].
    apply keyed_db_with_session; [|done]. intros Hs.
    match goal with |- store_keyed (set_containers (insert _ ?c) _) =>
      apply (store_keyed_insert _ c Hs) end.
Qed.

Lemma reconcile_loop_keyed host infos : ∀ new,
  preserves keyed_db (reconcile_loop env host infos new).
Proof.
  induction infos as [|info infos IH]; intros new.
  - by intros d Hd.
  - intros d Hd. rewrite reconcile_loop_cons.
    pose proof (reconcile_info_keyed host info d Hd) as H1.
    destruct (reconcile_info env host info d) as [[[]|e] d1]; [|done].
    by apply IH.
Qed.

Lemma update_host_containers_keyed host_answer host :
  preserves keyed_db (update_host_containers env host_answer host).
Proof.
  intros d Hd. destruct host_answer as [e|[infos|e]].
  - done.
  - rewrite update_host_containers_return.
    pose proof (reconcile_loop_keyed host infos ∅ d Hd) as H1.
    destruct (reconcile_loop env host infos ∅ d) as [[new|e] d1]; [|done].
    destruct H1 as [Hs _].
    assert (store_keyed (delete_missing
              (map fst (map_to_list (host_containers d host))) new (session d1)))
      by by apply store_keyed_delete_missing.
    by split.
  - rewrite update_host_containers_raise.
    assert (store_keyed (delete_missing
              (map fst (map_to_list (host_containers d host))) ∅
              (set_host_status host "down" (session d)))).
    { apply store_keyed_delete_missing.
      by apply (store_keyed_same (session d)); [..|apply Hd]. }
    by split.
Qed.

Lemma run_update_host_containers_keyed host :
  preserves (λ w, keyed_db (db w)) (run_update_host_containers env host).
Proof.
  intros w Hw. rewrite run_update_host_containers_unfold.
  destruct (docker_wrapper env (Datatypes.S (length (trace w))) host) as [[]|e].
  - pose proof (update_host_containers_keyed
      (Wrapper (state_of_the_universe env (Datatypes.S (length (trace w))) host))
      host (db w) Hw).
    by destruct (update_host_containers env _ host (db w)) as [[[]|e] d'].
  - done.
Qed.

Lemma update_app_image_keyed app_name ii :
  preserves keyed_db (update_app_image env app_name ii).
Proof.
  intros d [Hs Hd]. rewrite update_app_image_step by done.
  split; [by apply sync_step_keyed|done].
Qed.

Lemma commit_keyed : preserves (λ w, keyed_db (db w)) (on_db (modify commit)).
Proof. apply preserves_on_db, preserves_modify. by intros d [Hs _]. Qed.

Lemma rollback_keyed : preserves (λ w, keyed_db (db w)) (on_db (modify rollback)).
Proof. apply preserves_on_db, preserves_modify. by intros d [_ Hd]. Qed.

Lemma isolated_keyed body :
  preserves (λ w, keyed_db (db w)) body →
  preserves (λ w, keyed_db (db w)) (isolated body).
Proof.
  intros Hb. apply preserves_try_except; [done|]. intros e. apply rollback_keyed.
Qed.

Lemma update_app_images_keyed app_name :
  preserves (λ w, keyed_db (db w)) (update_app_images env app_name).
Proof.
  unfold update_app_images.
  apply preserves_bind; [apply preserves_emit|intros _].
  apply preserves_bind; [apply preserves_gets|intros t].
  apply preserves_bind; [apply preserves_emit|intros _].
  apply preserves_bind; [apply preserves_answer|intros iis].
  apply preserves_bind; [|intros _; apply commit_keyed].
  apply preserves_on_db, preserves_for_each. intros ii.
  apply update_app_image_keyed.
Qed.

Lemma check_app_status_loop_keyed url timeout attempts last :
  preserves (λ w, keyed_db (db w)) (check_app_status_loop env url timeout attempts last).
Proof.
  intros w Hw.
  destruct (check_app_status_loop_frame env url timeout attempts last w)
    as (evs & Hw' & _).
  destruct (check_app_status_loop env url timeout attempts last w) as [[st|e] w'];
    cbn in Hw'; by subst w'.
Qed.

Lemma assign_status_keyed id st :
  preserves (λ w, keyed_db (db w)) (assign_status id st).
Proof.
  apply preserves_on_db, preserves_modify. intros d Hd.
  apply keyed_db_with_session; [|done]. by apply store_keyed_alter.
Qed.

Lemma update_deployment_status_keyed deployment :
  preserves (λ w, keyed_db (db w)) (update_deployment_status env deployment).
Proof.
  unfold update_deployment_status.
  apply preserves_bind; [apply preserves_gets|intros cs].
  apply preserves_bind; [|intros _; apply commit_keyed].
  apply preserves_for_each. intros id. unfold update_container_status.
  apply preserves_bind; [apply preserves_gets|intros [c|]];
    [|apply preserves_ret].
  destruct (decide (c_state c = "running")) as [Hrunning|Hstopped];
    [|apply assign_status_keyed].
  apply preserves_try_except; [|intros exn; apply assign_status_keyed].
  apply preserves_bind; [apply check_app_status_loop_keyed|intros st].
  apply assign_status_keyed.
Qed.

Lemma update_deployment_containers_keyed deployment :
  preserves (λ w, keyed_db (db w)) (update_deployment_containers env deployment).
Proof.
  unfold update_deployment_containers.
  apply preserves_bind;
    [apply preserves_for_each; intros h; apply run_update_host_containers_keyed
    |intros _].
  apply preserves_bind; [apply preserves_gets|intros cs].
  apply preserves_bind; [|intros _; apply commit_keyed].
  apply preserves_on_db, preserves_for_each. intros c.
  apply preserves_modify. intros d Hd.
  apply keyed_db_with_session; [|done].
  by apply store_keyed_same.
Qed.

Lemma update_deployment_keyed deployment :
  preserves (λ w, keyed_db (db w)) (update_deployment env deployment).
Proof.
  unfold update_deployment.
  apply preserves_bind; [apply preserves_emit|intros _].
  apply preserves_bind; [apply update_deployment_containers_keyed|intros _].
  apply update_deployment_status_keyed.
Qed.

Lemma update_all_containers_keyed :
  preserves (λ w, keyed_db (db w)) (update_all_containers env).
Proof.
  unfold update_all_containers.
  apply preserves_bind; [apply preserves_emit|intros _].
  apply preserves_bind; [apply preserves_gets|intros hs].
  apply preserves_for_each. intros h. apply run_update_host_containers_keyed.
Qed.

Lemma update_all_keyed : preserves (λ w, keyed_db (db w)) (update_all env).
Proof.
  unfold update_all.
  apply preserves_try_except; [|intros e; apply preserves_ret].
  apply preserves_bind.
  { apply preserves_on_db, preserves_modify. by intros d [_ Hd]. }
  intros _. apply preserves_bind; [apply preserves_gets|intros all_apps].
  apply preserves_bind; [|intros _; apply isolated_keyed, update_all_containers_keyed].
  apply preserves_for_each. intros app_name.
  apply preserves_bind; [apply isolated_keyed, update_app_images_keyed|intros _].
  apply preserves_bind; [apply preserves_gets|intros ds].
  apply preserves_for_each. intros deployment.
  apply isolated_keyed, update_deployment_keyed.
Qed.
End Keys.

(** X15 (worker.py, lines 144-196): [update_host_containers] keeps the
    primary keys: if every container and image row of the session and of
    the database is stored under its own id before, the same holds after,
    whether the wrapper was built or not, whether the snapshot was fetched
    or not and whether the call returns or raises. *)
Theorem update_host_containers_keeps_keys (env : Env) (host_answer : HostAnswer)
    (host : HostKey) (d d' : DB) (r : Result unit) :
  keyed_db d →
  update_host_containers env host_answer host d = (r, d') →
  keyed_db d'.
Proof.
  intros Hd Hrun.
  pose proof (update_host_containers_keyed env host_answer host d Hd) as H.
  rewrite Hrun in H. by destruct r.
Qed.

(** X16 (worker.py, lines 210-238): a whole pass of [update_all] keeps the
    primary keys: if every container and image row of the session and of
    the database is stored under its own id before, the same holds after
    the pass, whatever the hosts, the registry and the health endpoints
    answer. *)
Theorem update_all_keeps_keys (env : Env) (w w' : World) (r : Result unit) :
  keyed_db (db w) →
  update_all env w = (r, w') →
  keyed_db (db w').
Proof.
  intros Hw Hrun. pose proof (update_all_keyed env w Hw) as H.
  rewrite Hrun in H. by destruct r.
Qed.

(** * Launching a deployment *)

Section Launch.
Context (env : Env) (lenv : LaunchEnv).

Lemma deploy_unfold encoded host lw :
  deploy lenv encoded host lw =
    (deploy_with_deps lenv (length (launched lw)) host encoded,
     {| lw_world := lw_world lw;
        launched := (launched lw ++ [(host, encoded)])%list |}).
Proof. reflexivity. Qed.

Lemma deploy_loop encoded hs : ∀ lw,
  (for_each hs (deploy lenv encoded) lw =
     (Return tt,
      {| lw_world := lw_world lw;
         launched := (launched lw ++ map (λ h, (h, encoded)) hs)%list |}) ∧
   ∀ (pre : list HostKey) h post, hs = (pre ++ h :: post)%list →
     deploy_with_deps lenv (length (launched lw) + length pre) h encoded = Return tt) ∨
  (∃ e (pre : list HostKey) h post,
     hs = (pre ++ h :: post)%list ∧
     for_each hs (deploy lenv encoded) lw =
       (Raise e,
        {| lw_world := lw_world lw;
           launched := (launched lw ++ map (λ h, (h, encoded)) (pre ++ [h]))%list |}) ∧
     deploy_with_deps lenv (length (launched lw) + length pre) h encoded = Raise e).
Proof.
  induction hs as [|h hs IH]; intros lw.
  - left. split.
    + cbn. rewrite app_nil_r. by destruct lw.
    + intros pre h post Hnil. by destruct pre.
  - rewrite for_each_cons. unfold mbind, M_bind, bind. rewrite deploy_unfold.
    destruct (deploy_with_deps lenv (length (launched lw)) h encoded) as [[]|e] eqn:Hh.
    + destruct (IH {| lw_world := lw_world lw;
                      launched := (launched lw ++ [(h, encoded)])%list |})
        as [[Hrun Hall]|(e & pre & h' & post & -> & Hrun & He)];
        cbn [lw_world launched] in *.
      * left. split.
        { rewrite Hrun. cbn [map]. by rewrite <- app_assoc. }
        intros pre h' post Heq. destruct pre as [|p pre].
        { injection Heq as <- _. cbn. by rewrite Nat.add_0_r. }
        injection Heq as <- ->.
        specialize (Hall pre h' post eq_refl).
        rewrite length_app in Hall. cbn [length] in *.
        by replace (length (launched lw) + S (length pre))%nat
          with (length (launched lw) + 1 + length pre)%nat by lia.
      * right. exists e, (h :: pre), h', post. split; [done|]. split.
        { rewrite Hrun. cbn [map app]. by rewrite <- app_assoc. }
        rewrite length_app in He. cbn [length] in *.
        by replace (length (launched lw) + S (length pre))%nat
          with (length (launched lw) + 1 + length pre)%nat by lia.
    + right. exists e, [], h, hs. split; [done|]. split; [done|].
      cbn. by rewrite Nat.add_0_r.
Qed.

Lemma update_deployment_status_commits deployment w :
  ∃ w', update_deployment_status env deployment w = (Return tt, w') ∧
        session (db w') = database (db w').
Proof.
  unfold update_deployment_status, mbind, M_bind, bind, gets.
  destruct (update_deployment_status_loop env deployment
              (containers_of_deployment w deployment) w) as (w1 & evss & -> & _).
  by eexists.
Qed.

Lemma reconcile_after_launch deployment w :
  ∃ w',
    try_except
      (on_world (update_deployment_containers env deployment ;;
                 update_deployment_status env deployment))
      (λ e, on_world (on_db (modify rollback)))
      w = (Return tt, w') ∧
    launched w' = launched w ∧
    session (db (lw_world w')) = database (db (lw_world w')).
Proof.
  unfold try_except, on_world, mbind, M_bind, bind.
  destruct (update_deployment_containers env deployment (lw_world w))
    as [[[]|e] w1].
  - destruct (update_deployment_status_commits deployment w1) as (w2 & -> & Hc).
    by eexists.
  - by eexists.
Qed.

Lemma launch_deployment_some d lw :
  launch_deployment env lenv (Some d) lw =
    match encode_with_deps lenv d (get_session (db (lw_world lw))) with
    | Raise e =>
        (Raise e,
         {| lw_world := {| db := get_session (db (lw_world lw));
                           trace := trace (lw_world lw) |};
            launched := launched lw |})
    | Return encoded =>
        match for_each (d_hosts d) (deploy lenv encoded)
                {| lw_world := {| db := get_session (db (lw_world lw));
                                  trace := trace (lw_world lw) |};
                   launched := launched lw |} with
        | (Return _, lw1) =>
            try_except
              (on_world (update_deployment_containers env d ;;
                         update_deployment_status env d))
              (λ e, on_world (on_db (modify rollback))) lw1
        | (Raise e, lw1) => (Raise e, lw1)
        end
    end.
Proof.
  unfold launch_deployment, mbind at 1 2 3 4, M_bind, bind at 1 2 3 4.
  unfold on_world at 1, on_db at 1, modify at 1, gets, answer.
  cbn [lw_world launched db trace].
  by destruct (encode_with_deps lenv d (get_session (db (lw_world lw)))).
Qed.
End Launch.

(** X17 (worker.py, lines 245-262): when [launch_deployment] raises, no host
    was reconciled and no health endpoint was asked (the trace is as it
    was), and nothing was written. Either the id has no row and the
    exception is an AttributeError, or [encode_with_deps] raised it and
    nothing was deployed, or [deploy_with_deps] raised it on one host of
    the deployment: then the hosts before it, and no host after it, were
    deployed. An exception of the reconciliation that follows the deploys
    never leaves [launch_deployment]. *)
Theorem launch_deployment_raises (env : Env) (lenv : LaunchEnv)
    (deployment : option Deployment) (lw lw' : LaunchWorld) (e : PyExn) :
  launch_deployment env lenv deployment lw = (Raise e, lw') →
  lw_world lw' = {| db := get_session (db (lw_world lw)); trace := trace (lw_world lw) |} ∧
  ((deployment = None ∧ exn_class e = "AttributeError" ∧ launched lw' = launched lw) ∨
   (∃ d, deployment = Some d ∧
         encode_with_deps lenv d (get_session (db (lw_world lw))) = Raise e ∧
         launched lw' = launched lw) ∨
   (∃ d encoded (pre : list HostKey) h post,
      deployment = Some d ∧
      encode_with_deps lenv d (get_session (db (lw_world lw))) = Return encoded ∧
      d_hosts d = (pre ++ h :: post)%list ∧
      deploy_with_deps lenv (length (launched lw) + length pre) h encoded = Raise e ∧
      launched lw' = (launched lw ++ map (λ h, (h, encoded)) (pre ++ [h]))%list)).
Proof.
  destruct deployment as [d|].
  - rewrite launch_deployment_some.
    destruct (encode_with_deps lenv d (get_session (db (lw_world lw))))
      as [encoded|e0] eqn:Henc.
    + destruct (deploy_loop lenv encoded (d_hosts d)
                  {| lw_world := {| db := get_session (db (lw_world lw));
                                    trace := trace (lw_world lw) |};
                     launched := launched lw |})
        as [[Hrun _]|(e0 & pre & h & post & Hhosts & Hrun & He)];
        rewrite Hrun; cbn [lw_world launched] in *.
      * match goal with |- try_except ?b ?h ?w = _ → _ =>
          destruct (reconcile_after_launch env d w) as (w2 & -> & _) end.
        discriminate.
      * intros [= <- <-]. split; [done|]. right. right.
        by exists d, encoded, pre, h, post.
    + intros [= <- <-]. split; [done|]. right. left. by exists d.
  - intros [= <- <-]. split; [done|]. by left.
Qed.

(** X18 (worker.py, lines 245-262): when the deployment is encoded and
    every host of the deployment accepts it, [launch_deployment] returns
    normally, whatever the reconciliation and the probes that follow do:
    every host of the deployment was deployed once, in the order of
    deployment.hosts and with the same encoding, and no change of the
    session is left uncommitted (the reconciliation ends with a commit, or
    it is rolled back). *)
Theorem launch_deployment_returns (env : Env) (lenv : LaunchEnv)
    (d : Deployment) (encoded : string) (lw : LaunchWorld) :
  encode_with_deps lenv d (get_session (db (lw_world lw))) = Return encoded →
  (∀ t h, h ∈ d_hosts d → deploy_with_deps lenv t h encoded = Return tt) →
  ∃ lw',
    launch_deployment env lenv (Some d) lw = (Return tt, lw') ∧
    launched lw' = (launched lw ++ map (λ h, (h, encoded)) (d_hosts d))%list ∧
    session (db (lw_world lw')) = database (db (lw_world lw')).
Proof.
  intros Henc Hall. rewrite launch_deployment_some, Henc.
  destruct (deploy_loop lenv encoded (d_hosts d)
              {| lw_world := {| db := get_session (db (lw_world lw));
                                trace := trace (lw_world lw) |};
                 launched := launched lw |})
    as [[Hrun _]|(e0 & pre & h & post & Hhosts & Hrun & He)];
    rewrite Hrun; cbn [lw_world launched] in *.
  - match goal with |- ∃ _, try_except ?b ?h ?w = _ ∧ _ =>
      destruct (reconcile_after_launch env d w) as (w2 & -> & Hl & Hc) end.
    by exists w2.
  - rewrite Hall in He; [done|]. rewrite Hhosts. apply elem_of_app. right. by left.
Qed.

(** * The Docker client wrapper *)

Lemma comprehension_Return {A B} (f : A → Result B) l ys :
  comprehension f l = Return ys ↔ Forall2 (λ x y, f x = Return y) l ys.
Proof.
  revert ys. induction l as [|x l IH]; intros ys; cbn.
  - split.
    + intros [= <-]. constructor.
    + by intros ->%Forall2_nil_inv_l.
  - destruct (f x) as [y|e] eqn:Hx.
    + destruct (comprehension f l) as [ys'|e].
      * split.
        { intros [= <-]. constructor; [done|]. by apply IH. }
        intros (y' & ys'' & Hy & Hys & ->)%Forall2_cons_inv_l.
        apply IH in Hys. congruence.
      * split; [done|].
        intros (y' & ys'' & Hy & Hys & ->)%Forall2_cons_inv_l.
        by apply IH in Hys.
    + split; [done|].
      intros (y' & ys'' & Hy & Hys & ->)%Forall2_cons_inv_l. congruence.
Qed.

Lemma comprehension_Raise {A B} (f : A → Result B) l e :
  comprehension f l = Raise e → ∃ x, x ∈ l ∧ f x = Raise e.
Proof.
  induction l as [|x l IH]; cbn; [done|].
  destruct (f x) as [y|e0] eqn:Hx.
  - destruct (comprehension f l) as [ys'|e0]; [done|].
    intros [= ->]. destruct IH as (x' & Hin & Hx'); [done|].
    exists x'. split; [by right|done].
  - intros [= ->]. exists x. split; [by left|done].
Qed.

Lemma comprehension_length {A B} (f : A → Result B) l ys :
  comprehension f l = Return ys → length ys = length l.
Proof. intros H%comprehension_Return. symmetry. by eapply Forall2_length. Qed.

Section Dict.
Context `{Countable A}.

Lemma dict_from_pairs (pairs : list (A * A)) : ∀ index (acc : gmap A A),
  dict_from index (map (λ p, [p.1; p.2]) pairs) acc =
    Return (foldl (λ m p, <[p.1 := p.2]> m) acc pairs).
Proof.
  induction pairs as [|[k v] pairs IH]; intros index acc; [done|].
  cbn [map dict_from fst snd foldl]. apply IH.
Qed.

Lemma dict_from_bad (seq : list (list A)) : ∀ index (acc : gmap A A),
  Exists (λ elem, length elem ≠ 2%nat) seq →
  ∃ e, dict_from index seq acc = Raise e ∧ exn_class e = "ValueError".
Proof.
  induction seq as [|elem seq IH]; intros index acc Hbad.
  - by apply Exists_nil in Hbad.
  - destruct elem as [|k [|v [|x elem]]]; try (by eexists).
    apply Exists_cons in Hbad as [Hbad|Hbad]; [done|].
    cbn [dict_from]. by apply IH.
Qed.

Lemma dict_from_Raise (seq : list (list A)) : ∀ index (acc : gmap A A) e,
  dict_from index seq acc = Raise e → exn_class e = "ValueError".
Proof.
  induction seq as [|elem seq IH]; intros index acc e; [done|].
  destruct elem as [|k [|v [|x elem]]]; try (by intros [= <-]).
  cbn [dict_from]. apply IH.
Qed.

Lemma foldl_insert_lookup (pairs : list (A * A)) k : ∀ acc : gmap A A,
  foldl (λ m p, <[p.1 := p.2]> m) acc pairs !! k =
    match last_for_key k pairs with
    | Some v => Some v
    | None => acc !! k
    end.
Proof.
  unfold last_for_key.
  induction pairs as [|[k' v] pairs IH]; intros acc; [done|].
  cbn [foldl fst snd]. rewrite IH, filter_cons. cbn [fst].
  destruct (decide (k' = k)) as [->|Hne].
  - rewrite last_cons, lookup_insert_eq.
    by destruct (last (filter _ pairs)).
  - by rewrite lookup_insert_ne.
Qed.

Lemma last_for_key_Some k v (pairs : list (A * A)) :
  last_for_key k pairs = Some v → (k, v) ∈ pairs.
Proof.
  unfold last_for_key. intros (p & Hl & ->)%fmap_Some.
  apply last_Some in Hl as (l' & Hl).
  assert (p ∈ filter (λ p, p.1 = k) pairs) as Hin.
  { rewrite Hl. apply elem_of_app. right. by left. }
  apply list_elem_of_filter in Hin as [Hk Hin]. destruct p as [k' v'].
  cbn in *. by subst.
Qed.

Lemma last_for_key_None k (pairs : list (A * A)) :
  last_for_key k pairs = None → k ∉ map fst pairs.
Proof.
  unfold last_for_key. intros Hl%fmap_None%last_None.
  intros (p & -> & Hin)%list_elem_of_fmap.
  assert (p ∈ filter (λ q, q.1 = p.1) pairs) as Hf
    by by apply list_elem_of_filter.
  rewrite Hl in Hf. by apply elem_of_nil in Hf.
Qed.
End Dict.

Lemma volume_bindings_of_lookup (mv : gmap string string) k :
  volume_bindings_of mv !! k = (λ v, {| b_bind := v |}) <$> mv !! k.
Proof.
  unfold volume_bindings_of.
  assert (map (λ kv : string * string, (kv.1, {| b_bind := kv.2 |})) (map_to_list mv) =
          prod_map id (λ v, {| b_bind := v |}) <$> map_to_list mv) as ->.
  { induction (map_to_list mv) as [|[k' v] l IH]; [done|]. cbn. by rewrite IH. }
  by rewrite list_to_map_fmap, list_to_map_to_list, lookup_fmap.
Qed.

Lemma elem_of_keys `{Countable K} {V} (m : gmap K V) k :
  k ∈ map fst (map_to_list m) ↔ is_Some (m !! k).
Proof.
  split.
  - intros ([k' v] & -> & Hin)%list_elem_of_fmap.
    apply elem_of_map_to_list in Hin. by exists v.
  - intros [v Hv]. apply list_elem_of_fmap. exists (k, v).
    split; [done|]. by apply elem_of_map_to_list.
Qed.

Lemma elem_of_values `{Countable K} {V} (m : gmap K V) v :
  v ∈ map snd (map_to_list m) ↔ ∃ k, m !! k = Some v.
Proof.
  split.
  - intros ([k v'] & -> & Hin)%list_elem_of_fmap.
    apply elem_of_map_to_list in Hin. by exists k.
  - intros [k Hk]. apply list_elem_of_fmap. exists (k, v).
    split; [done|]. by apply elem_of_map_to_list.
Qed.

Section Run.
Context (c : Client).

Lemma port_bindings_of_pairs mapped_ports (pairs : list (Z * Z)) :
  Forall2 (λ pm p, ∃ a b, split_colon pm = [a; b] ∧
                          py_int c a = Return p.1 ∧ py_int c b = Return p.2)
          mapped_ports pairs →
  port_bindings_of c mapped_ports =
    Return (foldl (λ m p, <[p.1 := p.2]> m) ∅ pairs).
Proof.
  intros Hall. unfold port_bindings_of.
  assert (comprehension (λ pm, comprehension (py_int c) (split_colon pm)) mapped_ports =
          Return (map (λ p, [p.1; p.2]) pairs)) as ->.
  { apply comprehension_Return.
    induction Hall as [|pm p l l' (a & b & Hs & Ha & Hb) _ IH]; [constructor|].
    cbn [map]. constructor; [|exact IH]. rewrite Hs. cbn. by rewrite Ha, Hb. }
  apply dict_from_pairs.
Qed.

Lemma volumes_of_pairs mapped_volumes (pairs : list (string * string)) :
  Forall2 (λ vm p, split_colon vm = [p.1; p.2]) mapped_volumes pairs →
  volumes_of mapped_volumes = Return (foldl (λ m p, <[p.1 := p.2]> m) ∅ pairs).
Proof.
  intros Hall. unfold volumes_of, dict.
  assert (map split_colon mapped_volumes = map (λ p, [p.1; p.2]) pairs) as ->.
  { induction Hall as [|vm p l l' Hvm _ IH]; [done|]. cbn [map]. by rewrite Hvm, IH. }
  apply dict_from_pairs.
Qed.

Lemma port_bindings_of_bad mapped_ports :
  Exists (bad_port_mapping c) mapped_ports →
  ∃ e, port_bindings_of c mapped_ports = Raise e ∧
       (exn_class e = "ValueError" ∨ ∃ part, py_int c part = Raise e).
Proof.
  intros Hbad. unfold port_bindings_of.
  destruct (comprehension (λ pm, comprehension (py_int c) (split_colon pm))
              mapped_ports) as [lists|e] eqn:Hc.
  - destruct (dict_from_bad lists 0%nat ∅) as (e & He & Hclass).
    + apply comprehension_Return in Hc.
      apply Exists_exists in Hbad as (pm & Hin & Hpm).
      apply list_elem_of_lookup in Hin as [i Hi].
      destruct (Forall2_lookup_l _ _ _ _ _ Hc Hi) as (ns & Hns & Hcomp).
      apply Exists_exists. exists ns. split; [by eapply list_elem_of_lookup_2|].
      destruct Hpm as [Hlen|(part & e & Hin & Hpart)].
      * by rewrite (comprehension_length _ _ _ Hcomp).
      * apply comprehension_Return in Hcomp.
        apply list_elem_of_lookup in Hin as [j Hj].
        destruct (Forall2_lookup_l _ _ _ _ _ Hcomp Hj) as (n & _ & Hn). congruence.
    + exists e. split; [done|by left].
  - exists e. split; [done|]. right.
    apply comprehension_Raise in Hc as (pm & _ & Hpm).
    apply comprehension_Raise in Hpm as (part & _ & Hpart). by exists part.
Qed.

Lemma volumes_of_bad mapped_volumes :
  Exists bad_volume_mapping mapped_volumes →
  ∃ e, volumes_of mapped_volumes = Raise e ∧ exn_class e = "ValueError".
Proof.
  intros Hbad. apply dict_from_bad.
  apply Exists_exists in Hbad as (vm & Hin & Hvm).
  apply Exists_exists. exists (split_colon vm). split; [|done].
  apply list_elem_of_fmap. by exists vm.
Qed.

Lemma run_unfold app_name image_id mapped_ports mapped_volumes calls :
  run c app_name image_id mapped_ports mapped_volumes calls =
    match port_bindings_of c (default [] mapped_ports) with
    | Raise e => (Raise e, calls)
    | Return port_bindings =>
        match volumes_of (default [] mapped_volumes) with
        | Raise e => (Raise e, calls)
        | Return mv =>
            let args :=
              {| ca_image := image_id;
                 ca_name := app_name;
                 ca_ports := map fst (map_to_list port_bindings);
                 ca_volumes := map snd (map_to_list mv);
                 ca_port_bindings := port_bindings;
                 ca_binds := volume_bindings_of mv |} in
            match create_container c args with
            | Raise e => (Raise e, (calls ++ [CreateContainer args])%list)
            | Return container =>
                (start c container,
                 (calls ++ [CreateContainer args; Start container])%list)
            end
        end
    end.
Proof.
  unfold run, mbind, M_bind, bind, modify, answer.
  assert (∀ calls,
    match mapped_ports with
    | Some (pm :: rest) => (λ s : list ClientCall, (port_bindings_of c (pm :: rest), s))
    | _ => ret ∅
    end calls = (port_bindings_of c (default [] mapped_ports), calls)) as ->.
  { intros calls'. by destruct mapped_ports as [[|pm rest]|]. }
  destruct (port_bindings_of c (default [] mapped_ports)) as [pb|e]; [|done].
  assert (∀ calls,
    match mapped_volumes with
    | Some (vm :: rest) => (λ s : list ClientCall, (volumes_of (vm :: rest), s))
    | _ => ret ∅
    end calls = (volumes_of (default [] mapped_volumes), calls)) as ->.
  { intros calls'. by destruct mapped_volumes as [[|vm rest]|]. }
  destruct (volumes_of (default [] mapped_volumes)) as [mv|e]; [|done].
  cbn zeta. destruct (create_container c _) as [container|e]; [|done].
  by rewrite <- app_assoc.
Qed.
End Run.

(** X19 (docker_wrapper.py, lines 34-58): when every port mapping is
    [a:b] for two integers and every volume mapping is [a:b], [run] calls
    [create_container] once, with the image and the name it was given, and
    then, if a container was created, [start] with its id; it raises what
    the client raises and returns what [start] returns. A port (or a
    volume path) before the colon that is mapped twice is bound to what the
    last of its mappings has after the colon; [ports] are the ports before
    the colon, and [volumes] are the paths that some binding binds, that
    is, paths after the colon. Without mappings (None or an empty list)
    all four are empty. *)
Theorem run_creates_and_starts (c : Client) (app_name image_id : string)
    (mapped_ports mapped_volumes : option (list string))
    (port_pairs : list (Z * Z)) (volume_pairs : list (string * string))
    (calls : list ClientCall) :
  Forall2 (λ pm p, ∃ a b, split_colon pm = [a; b] ∧
                          py_int c a = Return p.1 ∧ py_int c b = Return p.2)
          (default [] mapped_ports) port_pairs →
  Forall2 (λ vm p, split_colon vm = [p.1; p.2])
          (default [] mapped_volumes) volume_pairs →
  ∃ args,
    run c app_name image_id mapped_ports mapped_volumes calls =
      match create_container c args with
      | Return container =>
          (start c container, (calls ++ [CreateContainer args; Start container])%list)
      | Raise e => (Raise e, (calls ++ [CreateContainer args])%list)
      end ∧
    ca_image args = image_id ∧ ca_name args = app_name ∧
    (∀ p, ca_port_bindings args !! p = last_for_key p port_pairs) ∧
    (∀ p, p ∈ ca_ports args ↔ p ∈ map fst port_pairs) ∧
    (∀ k, ca_binds args !! k =
          (λ v, {| b_bind := v |}) <$> last_for_key k volume_pairs) ∧
    (∀ v, v ∈ ca_volumes args ↔ ∃ k, last_for_key k volume_pairs = Some v).
Proof.
  intros Hports Hvolumes. rewrite run_unfold.
  rewrite (port_bindings_of_pairs c _ _ Hports), (volumes_of_pairs _ _ Hvolumes).
  cbn zeta. eexists. split; [reflexivity|].
  cbn [ca_image ca_name ca_port_bindings ca_ports ca_binds ca_volumes].
  assert (∀ {A} `{Countable A} (pairs : list (A * A)) k,
            foldl (λ m p, <[p.1 := p.2]> m) (∅ : gmap A A) pairs !! k =
              last_for_key k pairs) as Hlookup.
  { intros A ? ? pairs k. rewrite foldl_insert_lookup, lookup_empty.
    by destruct (last_for_key k pairs). }
  split_and!; [done|done|..].
  - intros p. apply Hlookup.
  - intros p. rewrite elem_of_keys, Hlookup. split.
    + intros [q Hq]. apply last_for_key_Some in Hq.
      apply list_elem_of_fmap. by exists (p, q).
    + intros Hin. destruct (last_for_key p port_pairs) as [q|] eqn:Hq; [by eexists|].
      by apply last_for_key_None in Hq.
  - intros k. by rewrite volume_bindings_of_lookup, Hlookup.
  - intros v. rewrite elem_of_values. by setoid_rewrite Hlookup.
Qed.

(** X20 (docker_wrapper.py, lines 34-46): when a port mapping has not
    exactly two parts around a colon, or a part of it is no integer, or a
    volume mapping has not exactly two parts, [run] raises before it calls
    the client: no container is created and none is started. The exception
    is a ValueError of [dict], or what [int] raised. *)
Theorem run_rejects_malformed (c : Client) (app_name image_id : string)
    (mapped_ports mapped_volumes : option (list string)) (calls : list ClientCall) :
  Exists (bad_port_mapping c) (default [] mapped_ports) ∨
  Exists bad_volume_mapping (default [] mapped_volumes) →
  ∃ e, run c app_name image_id mapped_ports mapped_volumes calls = (Raise e, calls) ∧
       (exn_class e = "ValueError" ∨ ∃ part, py_int c part = Raise e).
Proof.
  intros Hbad. rewrite run_unfold.
  destruct (port_bindings_of c (default [] mapped_ports)) as [pb|e] eqn:Hpb.
  - destruct Hbad as [Hbad|Hbad].
    + destruct (port_bindings_of_bad c _ Hbad) as (e & He & _). congruence.
    + destruct (volumes_of_bad _ Hbad) as (e & -> & Hclass).
      exists e. split; [done|by left].
  - exists e. split; [done|]. unfold port_bindings_of in Hpb.
    destruct (comprehension (λ pm, comprehension (py_int c) (split_colon pm))
                (default [] mapped_ports)) as [lists|e0] eqn:Hc.
    + left. by eapply dict_from_Raise.
    + right. injection Hpb as ->.
      apply comprehension_Raise in Hc as (pm & _ & Hpm).
      apply comprehension_Raise in Hpm as (part & _ & Hpart). by exists part.
Qed.

(** * The further properties at the sample fleet *)

Ltac keyed_rows :=
  let H := fresh "H" in
  intros ? ? H;
  cbv [sample_world sample_db sample_store db database session containers images] in H;
  repeat (apply lookup_insert_Some in H as [[<- <-]|[_ H]]; [reflexivity|]);
  apply lookup_singleton_Some in H as [<- <-]; reflexivity.

Lemma update_host_containers_matches_snapshot_witness :
  (∀ k c,
     containers (database (update_host_containers sample_env
       (Wrapper (Return [info_c0; info_c1; info_c2])) h1 sample_db).2) !! k = Some c →
     c_host c = h1 → k ∈ map info_id [info_c0; info_c1; info_c2]) ∧
  (∀ k, k ∈ map info_id [info_c0; info_c1; info_c2] →
        is_Some (containers (database (update_host_containers sample_env
          (Wrapper (Return [info_c0; info_c1; info_c2])) h1 sample_db).2) !! k)).
Proof.
  apply (update_host_containers_matches_snapshot sample_env h1
           [info_c0; info_c1; info_c2] sample_db).
  vm_compute; reflexivity.
Defined.

Lemma update_host_containers_other_hosts_witness :
  containers (database (update_host_containers sample_env
    (Wrapper (Return [info_c0; info_c1; info_c2])) h1 sample_db).2) !! "c9" = Some c9.
Proof.
  apply (update_host_containers_other_hosts sample_env h1
           (Return [info_c0; info_c1; info_c2]) sample_db).
  - vm_compute; reflexivity.
  - vm_compute; reflexivity.
  - discriminate.
  - intros H. repeat (apply elem_of_cons in H as [H|H]; [discriminate|]).
    by apply elem_of_nil in H.
Defined.

Lemma update_host_containers_raise_cause_witness :
  database (update_host_containers sample_env (Wrapper (Return [info_c1; info_running]))
              h1 sample_db).2 = database sample_db ∧
  ((Wrapper (Return [info_c1; info_running]) = WrapperError overflow_error ∧
    (update_host_containers sample_env (Wrapper (Return [info_c1; info_running]))
       h1 sample_db).2 = sample_db) ∨
   ∃ infos info,
     Wrapper (Return [info_c1; info_running]) = Wrapper (Return infos) ∧
     info ∈ infos ∧
     (parse_local sample_env (info_started_at info) = Raise overflow_error ∨
      parse_local sample_env (info_finished_at info) = Raise overflow_error)).
Proof.
  apply (update_host_containers_raise_cause sample_env h1
           (Wrapper (Return [info_c1; info_running])) sample_db).
  vm_compute; reflexivity.
Defined.

Lemma update_host_containers_returns_witness :
  ∃ d', update_host_containers sample_env (Wrapper (Return [info_c0; info_c1; info_c2]))
          h1 sample_db = (Return tt, d') ∧
        session d' = database d'.
Proof.
  apply (update_host_containers_returns sample_env h1
           [info_c0; info_c1; info_c2] sample_db).
  intros info Hin.
  repeat (apply elem_of_cons in Hin as [->|Hin];
          [split; eexists; vm_compute; reflexivity|]).
  by apply elem_of_nil in Hin.
Defined.

Lemma update_host_containers_only_containers_witness :
  hosts (database (update_host_containers sample_env
    (Wrapper (Return [info_c0; info_c1; info_c2])) h1 sample_db).2) = hosts (session sample_db) ∧
  images (database (update_host_containers sample_env
    (Wrapper (Return [info_c0; info_c1; info_c2])) h1 sample_db).2) = images (session sample_db) ∧
  apps (database (update_host_containers sample_env
    (Wrapper (Return [info_c0; info_c1; info_c2])) h1 sample_db).2) = apps (session sample_db) ∧
  deployments (database (update_host_containers sample_env
    (Wrapper (Return [info_c0; info_c1; info_c2])) h1 sample_db).2) =
    deployments (session sample_db).
Proof.
  apply (update_host_containers_only_containers sample_env h1
           [info_c0; info_c1; info_c2] sample_db).
  vm_compute; reflexivity.
Defined.

Lemma check_app_status_bounded_witness :
  ∃ evs,
    (_check_app_status timeout_env "http://h1:8080/health" 10 3 sample_world).2 =
      {| db := db sample_world; trace := trace sample_world ++ evs |} ∧
    (length (requested_urls evs) ≤ Z.to_nat 3)%nat ∧
    longest_wait evs ≤ Z.max 3 0 * (10 + 5).
Proof.
  apply (check_app_status_bounded timeout_env "http://h1:8080/health" 10 3
           sample_world).
  lia.
Defined.

Lemma check_app_status_no_attempts_witness :
  ∃ e, _check_app_status sample_env "http://h1:8080/health" 10 0 sample_world =
         (Raise e, sample_world) ∧
       exn_class e = "TypeError".
Proof.
  apply (check_app_status_no_attempts sample_env "http://h1:8080/health" 10 0
           sample_world).
  lia.
Defined.

Lemma update_deployment_status_healthy_witness :
  ∃ w',
    update_deployment_status sample_env web_prod sample_world = (Return tt, w') ∧
    trace w' = (trace sample_world ++
                  map (λ url, EvGet url 10)
                      (omap (probe_url web_prod sample_world)
                            (containers_of_deployment sample_world web_prod)))%list ∧
    ∀ k c, k ∈ containers_of_deployment sample_world web_prod →
           Container_get (db sample_world) k = Some c →
           containers (database (db w')) !! k =
             Some (with_status
                     (Some (if decide (c_state c = "running") then "up" else "down")) c).
Proof.
  apply (update_deployment_status_healthy sample_env web_prod sample_world).
  intros t url timeout. exists {| status_code := 200 |}. split; reflexivity.
Defined.

Lemma update_all_containers_visits_every_host_witness :
  ∃ w',
    update_all_containers sample_env sample_world = (Return tt, w') ∧
    trace w' = (trace sample_world ++ EvCall m_update_all_containers ::
                  reconcile_events
                    (map host_key (hosts (session (db sample_world)))))%list ∧
    reconciled_hosts (drop (length (trace sample_world)) (trace w')) =
      map host_key (hosts (session (db sample_world))).
Proof.
  apply (update_all_containers_visits_every_host sample_env sample_world);
    [reflexivity|].
  intros t h infos info [= <-] Hin.
  repeat (apply elem_of_cons in Hin as [->|Hin];
          [split; eexists; vm_compute; reflexivity|]).
  by apply elem_of_nil in Hin.
Defined.

Lemma update_app_images_images_witness :
  ∃ w',
    update_app_images registry_env "web" sample_world = (Return tt, w') ∧
    images (database (db w')) !! "0123abcd" =
      Some {| i_id := "0123abcd"; i_tag := "v2" |} ∧
    images (database (db w')) !! "89abcdef" =
      Some {| i_id := "89abcdef"; i_tag := "v1" |}.
Proof.
  destruct (update_app_images_images registry_env "web" sample_world
              [ {| ii_layer := "0123abcd"; ii_name := "v2" |};
                {| ii_layer := "89abcdef"; ii_name := "v1" |} ])
    as (w' & Hrun & _ & _ & _ & Himages & _).
  - split; keyed_rows.
  - vm_compute; reflexivity.
  - exists w'. split; [exact Hrun|]. split; rewrite Himages; vm_compute; reflexivity.
Defined.

Lemma update_app_images_links_containers_witness :
  ∃ w',
    update_app_images registry_env "web" sample_world = (Return tt, w') ∧
    containers (database (db w')) =
      synced_container registry_env "web"
        [ {| ii_layer := "0123abcd"; ii_name := "v2" |};
          {| ii_layer := "89abcdef"; ii_name := "v1" |} ]
        <$> containers (session (db sample_world)).
Proof.
  apply (update_app_images_links_containers registry_env "web" sample_world).
  - split; keyed_rows.
  - vm_compute; reflexivity.
Defined.

Lemma update_deployment_containers_links_witness :
  ∃ w',
    update_deployment_containers sample_env web_prod sample_world = (Return tt, w') ∧
    trace w' = (trace sample_world ++ reconcile_events (d_hosts web_prod))%list ∧
    database (db w') = session (db w') ∧
    ∀ c, c ∈ containers_for_app_image sample_env (db w')
               (d_app_name web_prod) (d_image_tag web_prod) →
         c_id c ∈ containers_of_deployment w' web_prod.
Proof.
  apply (update_deployment_containers_links sample_env web_prod sample_world);
    [reflexivity|].
  intros t h infos info [= <-] Hin.
  repeat (apply elem_of_cons in Hin as [->|Hin];
          [split; eexists; vm_compute; reflexivity|]).
  by apply elem_of_nil in Hin.
Defined.

Lemma update_host_containers_keeps_keys_witness :
  keyed_db (update_host_containers sample_env (Wrapper (Return [info_c0; info_c1; info_c2]))
              h1 sample_db).2.
Proof.
  apply (update_host_containers_keeps_keys sample_env
           (Wrapper (Return [info_c0; info_c1; info_c2])) h1 sample_db _ (Return tt)).
  - split; split; keyed_rows.
  - vm_compute; reflexivity.
Defined.

Lemma update_all_keeps_keys_witness :
  keyed_db (db (update_all sample_env sample_world).2).
Proof.
  apply (update_all_keeps_keys sample_env sample_world _ (Return tt)).
  - split; split; keyed_rows.
  - vm_compute; reflexivity.
Defined.

Lemma launch_deployment_raises_witness :
  lw_world (launch_deployment sample_env refusing_lenv (Some web_prod) sample_launch).2 =
    {| db := get_session (db (lw_world sample_launch));
       trace := trace (lw_world sample_launch) |} ∧
  ((Some web_prod = None ∧ exn_class connection_error = "AttributeError" ∧
    launched (launch_deployment sample_env refusing_lenv (Some web_prod)
                sample_launch).2 = launched sample_launch) ∨
   (∃ d, Some web_prod = Some d ∧
         encode_with_deps refusing_lenv d (get_session (db (lw_world sample_launch))) =
           Raise connection_error ∧
         launched (launch_deployment sample_env refusing_lenv (Some web_prod)
                     sample_launch).2 = launched sample_launch) ∨
   (∃ d encoded (pre : list HostKey) h post,
      Some web_prod = Some d ∧
      encode_with_deps refusing_lenv d (get_session (db (lw_world sample_launch))) =
        Return encoded ∧
      d_hosts d = (pre ++ h :: post)%list ∧
      deploy_with_deps refusing_lenv (length (launched sample_launch) + length pre)
        h encoded = Raise connection_error ∧
      launched (launch_deployment sample_env refusing_lenv (Some web_prod)
                  sample_launch).2 =
        (launched sample_launch ++ map (λ h, (h, encoded)) (pre ++ [h]))%list)).
Proof.
  apply (launch_deployment_raises sample_env refusing_lenv (Some web_prod)
           sample_launch).
  vm_compute; reflexivity.
Defined.

Lemma launch_deployment_returns_witness :
  ∃ lw',
    launch_deployment sample_env sample_lenv (Some web_prod) sample_launch =
      (Return tt, lw') ∧
    launched lw' = (launched sample_launch ++
                      map (λ h, (h, "web:v1")) (d_hosts web_prod))%list ∧
    session (db (lw_world lw')) = database (db (lw_world lw')).
Proof.
  apply (launch_deployment_returns sample_env sample_lenv web_prod "web:v1"
           sample_launch).
  - vm_compute; reflexivity.
  - intros t h Hin. reflexivity.
Defined.

Lemma run_creates_and_starts_witness :
  ∃ args,
    run sample_client "web" "0123abcd" (Some ["8080:80"; "8080:81"])
        (Some ["/data:/var/lib"]) [] =
      match create_container sample_client args with
      | Return container =>
          (start sample_client container,
           ([] ++ [CreateContainer args; Start container])%list)
      | Raise e => (Raise e, ([] ++ [CreateContainer args])%list)
      end ∧
    ca_image args = "0123abcd" ∧ ca_name args = "web" ∧
    (∀ p, ca_port_bindings args !! p = last_for_key p [(8080, 80); (8080, 81)]) ∧
    (∀ p, p ∈ ca_ports args ↔ p ∈ map fst [(8080, 80); (8080, 81)]) ∧
    (∀ k, ca_binds args !! k =
          (λ v, {| b_bind := v |}) <$> last_for_key k [("/data", "/var/lib")]) ∧
    (∀ v, v ∈ ca_volumes args ↔ ∃ k, last_for_key k [("/data", "/var/lib")] = Some v).
Proof.
  apply (run_creates_and_starts sample_client "web" "0123abcd"
           (Some ["8080:80"; "8080:81"]) (Some ["/data:/var/lib"])
           [(8080, 80); (8080, 81)] [("/data", "/var/lib")] []).
  - repeat constructor.
    + exists "8080", "80". split_and!; vm_compute; reflexivity.
    + exists "8080", "81". split_and!; vm_compute; reflexivity.
  - repeat constructor.
Defined.

Lemma run_rejects_malformed_witness :
  ∃ e, run sample_client "web" "0123abcd" (Some ["8080"]) None [] = (Raise e, []) ∧
       (exn_class e = "ValueError" ∨ ∃ part, py_int sample_client part = Raise e).
Proof.
  apply (run_rejects_malformed sample_client "web" "0123abcd" (Some ["8080"]) None []).
  left. apply Exists_cons_hd. left. vm_compute. discriminate.
Defined.

Lemma update_all_containers_stops_without_wrapper_witness :
  ∃ w1,
    for_each [h1] (run_update_host_containers no_wrapper_env)
      {| db := db sample_world;
         trace := trace sample_world ++ [EvCall m_update_all_containers] |} =
      (Return tt, w1) ∧
    trace w1 = (trace sample_world ++ EvCall m_update_all_containers ::
                  reconcile_events [h1])%list ∧
    update_all_containers no_wrapper_env sample_world =
      (Raise no_wrapper_error,
       {| db := db w1;
          trace := trace w1 ++ [EvCall (m_update_host_containers h2)] |}).
Proof.
  apply (update_all_containers_stops_without_wrapper no_wrapper_env sample_world
           [h1] h2 [] no_wrapper_error).
  - reflexivity.
  - constructor; [|constructor]. split.
    + intros t. reflexivity.
    + intros t infos info [= <-] Hin.
      repeat (apply elem_of_cons in Hin as [->|Hin];
              [split; eexists; vm_compute; reflexivity|]).
      by apply elem_of_nil in Hin.
  - intros t. reflexivity.
Defined.
